(** * Update dispatch and transport lifecycle of [TelegramBot]

    A shallow embedding of [src/telegram.ts] (class [TelegramBot]) and of
    [src/errors.ts], restricted to the transport lifecycle
    ([startPolling], [openWebHook], ...), the dispatcher [processUpdate]
    and the listener tables ([onText], [onReplyToMessage],
    [removeReplyListener]).

    Methods are programs of a small free monad [Prog]: they read and write
    the receiver ([this]), may throw, and call out to code the class does
    not define -- [emit] of the [EventEmitter] base class, [exec] of a
    registered regular expression and the registered callbacks.  Each such
    call is recorded in a trace; whether a subscriber throws is decided by
    an environment that sees the calls made so far.  [run] is the run
    among subscribers that leave the bot alone, [live] the run among
    subscribers that call back into the bot while it dispatches. *)

From Stdlib Require Import List String Ascii ZArith Bool Lia DecimalString.
Import ListNotations.
Open Scope string_scope.
Open Scope Z_scope.

Set Implicit Arguments.
Set Warnings "-register-all".
Set Warnings "-notation-overridden".
Set Warnings "-notation-incompatible-prefix".

(** ** JavaScript values *)

(** The values that occur in updates and in options: what [JSON.parse]
    produces, plus [undefined].  Numbers are the integers (identifiers,
    dates); objects keep their properties in insertion order. *)
Inductive JsVal : Type :=
| JUndefined
| JNull
| JBool (b : bool)
| JNum (n : Z)
| JStr (s : string)
| JArr (items : list JsVal)
| JObj (props : list (string * JsVal)).

(** [ToBoolean]: what [if (v)], [!v] and [Array.prototype.some] test. *)
Definition truthy (v : JsVal) : bool :=
  match v with
  | JUndefined | JNull => false
  | JBool b => b
  | JNum n => negb (n =? 0)
  | JStr s => negb (s =? "")%string
  | JArr _ | JObj _ => true
  end.

Definition nullish (v : JsVal) : bool :=
  match v with
  | JUndefined | JNull => true
  | _ => false
  end.

Fixpoint lookup (k : string) (props : list (string * JsVal)) : JsVal :=
  match props with
  | [] => JUndefined
  | (k', v) :: rest => if (k =? k')%string then v else lookup k rest
  end.

(** [o.k] on a value that is neither [undefined] nor [null].  None of the
    property names read by the class is a property of the boxed
    primitives or of arrays, so those yield [undefined]. *)
Definition member (o : JsVal) (k : string) : JsVal :=
  match o with
  | JObj props => lookup k props
  | _ => JUndefined
  end.

(** [a === b].  Primitives compare by type and value.  Objects and arrays
    compare by reference; a value held by a listener and a value read
    from an update are never the same reference. *)
Definition strict_eq (a b : JsVal) : bool :=
  match a, b with
  | JUndefined, JUndefined => true
  | JNull, JNull => true
  | JBool x, JBool y => Bool.eqb x y
  | JNum x, JNum y => (x =? y)
  | JStr x, JStr y => (x =? y)%string
  | _, _ => false
  end.

(** [typeof v === 'undefined'] *)
Definition typeof_undefined (v : JsVal) : bool :=
  match v with
  | JUndefined => true
  | _ => false
  end.

(** The [TypeError] of a property read on [undefined] or [null]. *)
Definition TypeError (k : string) : JsVal :=
  JObj [("name", JStr "TypeError");
        ("message", JStr ("Cannot read property '" ++ k ++ "' of undefined"))].

(** ** Errors ([src/errors.ts]) *)

Module Errors.

(** The built-in [Error]: a message and a stack. *)
Record Error : Type := mkError {
  error_message : string;
  error_stack : string
}.

(** [stack] is [None] for the stack captured where the error is built. *)
Record BaseError : Type := mkBaseError {
  code : string;
  message : string;
  stack : option string
}.

Definition newBaseError (code message : string) : BaseError :=
  {| code := code; message := code ++ ": " ++ message; stack := None |}.

(** [new FatalError(data)], [data : Error | string]. *)
Definition FatalError (data : Error + string) : BaseError :=
  let error := match data with inr _ => None | inl e => Some e end in
  let message :=
    match error with
    | Some e => error_message e
    | None => match data with inr s => s | inl e => error_message e end
    end in
  let base := newBaseError "EFATAL" message in
  match error with
  | Some e => {| code := code base; message := Errors.message base;
                 stack := Some (error_stack e) |}
  | None => base
  end.

End Errors.

(** ** Calls out of the class, and the free monad of methods *)

Definition Callback : Type := nat.

(** A registered regular expression, by what [exec] returns ([null] or
    the match array).  Without the [g] and [y] flags [exec] is a function
    of its argument; with one of them [exec] moves [lastIndex], and the
    expression is another [RegExp] after the call (see [live]). *)
Record RegExp : Type := mkRegExp {
  source : string;
  exec : JsVal -> JsVal
}.

Inductive Call : Type :=
| Emit (event : string) (payload : JsVal)
| Exec (re : RegExp) (text : JsVal)
| TextCallback (cb : Callback) (msg result : JsVal)
| ReplyCallback (cb : Callback) (msg : JsVal).

Definition isExec (c : Call) : bool :=
  match c with Exec _ _ => true | _ => false end.

Definition isTextCallback (c : Call) : bool :=
  match c with TextCallback _ _ _ => true | _ => false end.

Definition isReplyCallback (c : Call) : bool :=
  match c with ReplyCallback _ _ => true | _ => false end.

Section Monad.

Variable S : Type.

Inductive Prog (A : Type) : Type :=
| Ret (a : A)
| Throw (e : JsVal)
| Get (k : S -> Prog A)
| Put (s : S) (k : Prog A)
| Do (c : Call) (k : JsVal -> Prog A).

Arguments Ret {A} a.
Arguments Throw {A} e.

Fixpoint bind {A B : Type} (p : Prog A) (f : A -> Prog B) : Prog B :=
  match p with
  | Ret a => f a
  | Throw e => Throw e
  | Get k => Get (fun s => bind (k s) f)
  | Put s k => Put s (bind k f)
  | Do c k => Do c (fun v => bind (k v) f)
  end.

(** How a method ends: normally with a value, or by a thrown value. *)
Inductive Completion (A : Type) : Type :=
| Normal (a : A)
| Abrupt (e : JsVal).

Arguments Abrupt {A} e.

Record Outcome (A : Type) : Type := mkOutcome {
  final : S;
  trace : list Call;
  completion : Completion A
}.

(** The subscribers: for the calls made so far and the call at hand,
    [Some e] when the subscriber throws [e], [None] when it returns. *)
Definition Env : Type := list Call -> Call -> option JsVal.

(** The value a call returns.  [emit] and the callbacks are called for
    their effect and their result is discarded by every caller. *)
Definition result_of (c : Call) : JsVal :=
  match c with
  | Exec re text => exec re text
  | _ => JUndefined
  end.

(** What a call throws, if it does; [exec] of a regular expression does
    not throw. *)
Definition raised (env : Env) (h : list Call) (c : Call) : option JsVal :=
  if isExec c then None else env h c.

(** [run env p s h] runs [p] on the receiver [s] after the calls [h]. *)
Fixpoint run {A : Type} (env : Env) (p : Prog A) (s : S) (h : list Call)
  : Outcome A :=
  match p with
  | Ret a => mkOutcome s [] (Normal a)
  | Throw e => mkOutcome s [] (Abrupt e)
  | Get k => run env (k s) s h
  | Put s' k => run env k s' h
  | Do c k =>
      match raised env h c with
      | Some e => mkOutcome s [c] (Abrupt e)
      | None =>
          let r := run env (k (result_of c)) s (h ++ [c]) in
          mkOutcome (final r) (c :: trace r) (completion r)
      end
  end.

(** The environment in which no subscriber throws. *)
Definition calm : Env := fun _ _ => None.

Definition quiet (env : Env) : Prop := forall h c, env h c = None.

(** What a call does to the receiver while it runs: a subscriber may
    call the methods of the bot or write its fields, and [exec] of an
    expression with the [g] or [y] flag moves the [lastIndex] of an
    expression that the table holds.  [touch h c s] is the receiver [s]
    after the call [c], made after the calls [h]. *)
Definition Touch : Type := list Call -> Call -> S -> S.

(** The calls that leave the receiver alone. *)
Definition still : Touch := fun _ _ s => s.

(** [live env touch p s h] runs [p] as [run] does, among calls that
    change the receiver: what a call has done to it is there when the
    call returns, and when it throws. *)
Fixpoint live {A : Type} (env : Env) (touch : Touch) (p : Prog A) (s : S)
  (h : list Call) : Outcome A :=
  match p with
  | Ret a => mkOutcome s [] (Normal a)
  | Throw e => mkOutcome s [] (Abrupt e)
  | Get k => live env touch (k s) s h
  | Put s' k => live env touch k s' h
  | Do c k =>
      match raised env h c with
      | Some e => mkOutcome (touch h c s) [c] (Abrupt e)
      | None =>
          let r := live env touch (k (result_of c)) (touch h c s) (h ++ [c]) in
          mkOutcome (final r) (c :: trace r) (completion r)
      end
  end.

(** The receiver after the calls [t], made one after the other. *)
Fixpoint touched (touch : Touch) (h t : list Call) (s : S) : S :=
  match t with
  | [] => s
  | c :: t' => touched touch (h ++ [c]) t' (touch h c s)
  end.

End Monad.

Arguments Ret {S A} a.
Arguments Throw {S A} e.
Arguments Get {S A} k.
Arguments Put {S A} s k.
Arguments Do {S A} c k.
Arguments Normal {A} a.
Arguments Abrupt {A} e.
Arguments mkOutcome {S A} final trace completion.

Declare Scope prog_scope.
Delimit Scope prog_scope with prog.
Notation "x <- p ;; q" := (bind p (fun x => q))
  (at level 61, p at next level, right associativity) : prog_scope.
Notation "p ;; q" := (bind p (fun _ => q))
  (at level 61, right associativity) : prog_scope.
Open Scope prog_scope.

(** ** The bot ([src/telegram.ts]) *)

Definition _messageTypes : list string :=
  ["text"; "audio"; "document"; "photo"; "sticker"; "video"; "voice"; "contact";
   "location"; "new_chat_participant"; "left_chat_participant"; "new_chat_title";
   "new_chat_photo"; "delete_chat_photo"; "group_chat_created"].

(** [ITelegramBotOptions] *)
Record Options : Type := mkOptions {
  webHook : JsVal;
  polling : JsVal;
  baseApiUrl : JsVal;
  filepath : JsVal;
  request : JsVal;
  onlyFirstMatch : JsVal
}.

(** An entry of [_textRegexpCallbacks]: [{regexp, callback}]; its
    [callback] is [text_callback] here, to tell it from the field of the
    reply listeners. *)
Record TextRegexpCallback : Type := mkTextRegexpCallback {
  regexp : RegExp;
  text_callback : Callback
}.

(** An entry of [_replyListeners]: [{id, chatId, messageId, callback}]. *)
Record ReplyListener : Type := mkReplyListener {
  id : Z;
  chatId : JsVal;
  messageId : JsVal;
  callback : Callback
}.

(** The argument of [startPolling]: [{restart?: boolean}]. *)
Record StartOptions : Type := mkStartOptions {
  restart : option bool
}.

(** What a lifecycle method returns: [Promise.reject(err)],
    [Promise.resolve()], or the promise handed back by the transport. *)
Inductive Promise (D : Type) : Type :=
| PromiseReject (reason : Errors.BaseError)
| PromiseResolve
| FromTransport (d : D).

Arguments PromiseReject {D} reason.
Arguments PromiseResolve {D}.
Arguments FromTransport {D} d.

(** The classes [TelegramBotPolling] and [TelegramBotWebHook] are imported
    from [./telegramPolling] and [./telegramWebHook]; the bot uses them
    through this interface only.  [D] is the type of the promises they
    return.  An engine is an object that its methods change in place:
    here a method returns the engine as it has left it.  The constructors
    are handed the bot, [new TelegramBotPolling(this)]; of the bot they
    are given the options here. *)
Class Transports (Polling WebHook D : Type) : Type := {
  newPolling : Options -> Polling;
  polling_start : StartOptions -> Polling -> Polling * D;
  polling_stop : Polling -> Polling * D;
  polling_isPolling : Polling -> bool;
  newWebHook : Options -> WebHook;
  webHook_open : WebHook -> WebHook * D;
  webHook_close : WebHook -> WebHook * D;
  webHook_isOpen : WebHook -> bool
}.

Section TelegramBot.

Context {Polling WebHook D : Type} `{T : Transports Polling WebHook D}.

(** The fields of the class.  [_replyListenerId] counts in the integers:
    the counter of a running bot stays within the numbers that
    JavaScript represents exactly. *)
Record Bot : Type := mkBot {
  token : string;
  options : Options;
  _replyListeners : list ReplyListener;
  _textRegexpCallbacks : list TextRegexpCallback;
  _replyListenerId : Z;
  _polling : option Polling;
  _webHook : option WebHook
}.

Definition set_polling (p : option Polling) (this : Bot) : Bot :=
  mkBot (token this) (options this) (_replyListeners this)
        (_textRegexpCallbacks this) (_replyListenerId this) p (_webHook this).

Definition set_webHook (w : option WebHook) (this : Bot) : Bot :=
  mkBot (token this) (options this) (_replyListeners this)
        (_textRegexpCallbacks this) (_replyListenerId this) (_polling this) w.

Definition set_textRegexpCallbacks (l : list TextRegexpCallback) (this : Bot) : Bot :=
  mkBot (token this) (options this) (_replyListeners this)
        l (_replyListenerId this) (_polling this) (_webHook this).

Definition set_replyListeners (l : list ReplyListener) (this : Bot) : Bot :=
  mkBot (token this) (options this) l
        (_textRegexpCallbacks this) (_replyListenerId this) (_polling this)
        (_webHook this).

Definition set_replyListenerId (n : Z) (this : Bot) : Bot :=
  mkBot (token this) (options this) (_replyListeners this)
        (_textRegexpCallbacks this) n (_polling this) (_webHook this).

Definition M (A : Type) : Type := Prog Bot A.

Definition getThis : M Bot := Get (fun this => Ret this).

Definition putThis (this : Bot) : M unit := Put this (Ret tt).

(** [o.k] and [o[k]]: a [TypeError] on [undefined] and [null]. *)
Definition get (o : JsVal) (k : string) : M JsVal :=
  if nullish o then Throw (TypeError k) else Ret (member o k).

(** [this.emit(event, payload)] *)
Definition emit (event : string) (payload : JsVal) : M unit :=
  Do (Emit event payload) (fun _ => Ret tt).

(** [Array.prototype.forEach] on an array of constants. *)
Fixpoint forEach {A : Type} (f : A -> M unit) (l : list A) : M unit :=
  match l with
  | [] => Ret tt
  | x :: rest => f x ;; forEach f rest
  end.

(** [Array.prototype.forEach] on an array that is held in a field of the
    receiver, and that the callbacks can reach: the length is read once,
    before the first element; the indices below it are visited in turn,
    and each holds an element, or nothing, by what the array is when the
    loop gets there. *)
Fixpoint forEachFrom {A : Type} (array : Bot -> list A) (f : A -> M unit)
  (index count : nat) : M unit :=
  match count with
  | O => Ret tt
  | S count' =>
      this <- getThis ;;
      (match nth_error (array this) index with
       | Some x => f x
       | None => Ret tt
       end) ;;
      forEachFrom array f (S index) count'
  end.

Definition forEachOf {A : Type} (array : Bot -> list A) (f : A -> M unit)
  : M unit :=
  this <- getThis ;;
  forEachFrom array f 0 (List.length (array this)).

(** [Array.prototype.some] on such an array: it stops at the first
    element for which the callback returns a truthy value. *)
Fixpoint someFrom {A : Type} (array : Bot -> list A) (f : A -> M JsVal)
  (index count : nat) : M bool :=
  match count with
  | O => Ret false
  | S count' =>
      this <- getThis ;;
      v <- (match nth_error (array this) index with
            | Some x => f x
            | None => Ret (JBool false)
            end) ;;
      if truthy v then Ret true else someFrom array f (S index) count'
  end.

Definition someOf {A : Type} (array : Bot -> list A) (f : A -> M JsVal)
  : M bool :=
  this <- getThis ;;
  someFrom array f 0 (List.length (array this)).

(** *** Transport lifecycle *)

Definition isPolling : M bool :=
  this <- getThis ;;
  match _polling this with
  | Some p => Ret (polling_isPolling p)
  | None => Ret false
  end.

Definition hasOpenWebHook : M bool :=
  this <- getThis ;;
  match _webHook this with
  | Some w => Ret (webHook_isOpen w)
  | None => Ret false
  end.

Definition startPolling (options0 : StartOptions) : M (Promise D) :=
  open <- hasOpenWebHook ;;
  if open then
    Ret (PromiseReject
           (Errors.FatalError (inr "Polling and WebHook are mutually exclusive")))
  else
    let options1 :=
      mkStartOptions
        (match restart options0 with None => Some true | Some b => Some b end) in
    this <- getThis ;;
    (match _polling this with
     | None => putThis (set_polling (Some (newPolling (options this))) this)
     | Some _ => Ret tt
     end) ;;
    this <- getThis ;;
    match _polling this with
    | Some p =>
        let (p', d) := polling_start options1 p in
        putThis (set_polling (Some p') this) ;;
        Ret (FromTransport d)
    | None => Throw (TypeError "start")
    end.

Definition stopPolling : M (Promise D) :=
  this <- getThis ;;
  match _polling this with
  | None => Ret PromiseResolve
  | Some p =>
      let (p', d) := polling_stop p in
      putThis (set_polling (Some p') this) ;;
      Ret (FromTransport d)
  end.

Definition openWebHook : M (Promise D) :=
  polling0 <- isPolling ;;
  if polling0 then
    Ret (PromiseReject
           (Errors.FatalError (inr "WebHook and Polling are mutually exclusive")))
  else
    this <- getThis ;;
    (match _webHook this with
     | None => putThis (set_webHook (Some (newWebHook (options this))) this)
     | Some _ => Ret tt
     end) ;;
    this <- getThis ;;
    match _webHook this with
    | Some w =>
        let (w', d) := webHook_open w in
        putThis (set_webHook (Some w') this) ;;
        Ret (FromTransport d)
    | None => Throw (TypeError "open")
    end.

Definition closeWebHook : M (Promise D) :=
  this <- getThis ;;
  match _webHook this with
  | None => Ret PromiseResolve
  | Some w =>
      let (w', d) := webHook_close w in
      putThis (set_webHook (Some w') this) ;;
      Ret (FromTransport d)
  end.

(** *** Dispatch *)

(** The closure [processMessageType] of [processUpdate]. *)
Definition processMessageType (message : JsVal) (messageType : string) : M unit :=
  v <- get message messageType ;;
  if truthy v then emit messageType message else Ret tt.

(** The arrow function handed to [_textRegexpCallbacks.some]. *)
Definition matchText (message : JsVal) (reg : TextRegexpCallback) : M JsVal :=
  text <- get message "text" ;;
  result <- Do (Exec (regexp reg) text) (fun v => Ret v) ;;
  if negb (truthy result) then Ret (JBool false)
  else
    Do (TextCallback (text_callback reg) message result) (fun _ => Ret tt) ;;
    this <- getThis ;;
    Ret (onlyFirstMatch (options this)).

(** The arrow function handed to [_replyListeners.forEach]. *)
Definition matchReply (message : JsVal) (reply : ReplyListener) : M unit :=
  chat <- get message "chat" ;;
  chat_id <- get chat "id" ;;
  if strict_eq (chatId reply) chat_id then
    reply_to_message <- get message "reply_to_message" ;;
    message_id <- get reply_to_message "message_id" ;;
    if strict_eq (messageId reply) message_id then
      Do (ReplyCallback (callback reply) message) (fun _ => Ret tt)
    else Ret tt
  else Ret tt.

(** The [if (message) { ... }] block. *)
Definition onMessage (message : JsVal) : M unit :=
  emit "message" message ;;
  forEach (processMessageType message) _messageTypes ;;
  text <- get message "text" ;;
  (if truthy text then
     someOf _textRegexpCallbacks (matchText message) ;;
     Ret tt
   else Ret tt) ;;
  reply_to_message <- get message "reply_to_message" ;;
  if truthy reply_to_message then
    forEachOf _replyListeners (matchReply message)
  else Ret tt.

(** The [else if (editedMessage) { ... }] block. *)
Definition onEditedMessage (editedMessage : JsVal) : M unit :=
  emit "edited_message" editedMessage ;;
  text <- get editedMessage "text" ;;
  (if truthy text then emit "edited_message_text" editedMessage else Ret tt) ;;
  caption <- get editedMessage "caption" ;;
  if truthy caption then emit "edited_message_caption" editedMessage else Ret tt.

(** The [else if (channelPost) { ... }] block. *)
Definition onChannelPost (channelPost : JsVal) : M unit :=
  emit "channel_post" channelPost.

(** The [else if (editedChannelPost) { ... }] block. *)
Definition onEditedChannelPost (editedChannelPost : JsVal) : M unit :=
  emit "edited_channel_post" editedChannelPost ;;
  text <- get editedChannelPost "text" ;;
  (if truthy text then emit "edited_channel_post_text" editedChannelPost
   else Ret tt) ;;
  caption <- get editedChannelPost "caption" ;;
  if truthy caption then emit "edited_channel_post_caption" editedChannelPost
  else Ret tt.

(** [processUpdate(update)].  The [debug] lines only format their
    arguments and are left out. *)
Definition processUpdate (update : JsVal) : M unit :=
  message <- get update "message" ;;
  editedMessage <- get update "edited_message" ;;
  channelPost <- get update "channel_post" ;;
  editedChannelPost <- get update "edited_channel_post" ;;
  inlineQuery <- get update "inline_query" ;;
  chosenInlineResult <- get update "chosen_inline_result" ;;
  callbackQuery <- get update "callback_query" ;;
  if truthy message then onMessage message
  else if truthy editedMessage then onEditedMessage editedMessage
  else if truthy channelPost then onChannelPost channelPost
  else if truthy editedChannelPost then onEditedChannelPost editedChannelPost
  else if truthy inlineQuery then emit "inline_query" inlineQuery
  else if truthy chosenInlineResult then
    emit "chosen_inline_result" chosenInlineResult
  else if truthy callbackQuery then emit "callback_query" callbackQuery
  else Ret tt.

(** *** Listener tables *)

(** [onText(regexp, callback)] *)
Definition onText (regexp0 : RegExp) (callback0 : Callback) : M unit :=
  this <- getThis ;;
  putThis (set_textRegexpCallbacks
             (_textRegexpCallbacks this ++ [mkTextRegexpCallback regexp0 callback0])
             this).

(** [onReplyToMessage(chatId, messageId, callback)] *)
Definition onReplyToMessage (chatId0 messageId0 : JsVal) (callback0 : Callback)
  : M Z :=
  this <- getThis ;;
  let id0 := _replyListenerId this + 1 in
  putThis (set_replyListenerId id0 this) ;;
  this <- getThis ;;
  putThis (set_replyListeners
             (_replyListeners this ++ [mkReplyListener id0 chatId0 messageId0 callback0])
             this) ;;
  Ret id0.

(** [Array.prototype.findIndex]: the first index, or [-1]. *)
Fixpoint findIndex {A : Type} (f : A -> bool) (l : list A) : Z :=
  match l with
  | [] => -1
  | x :: rest =>
      if f x then 0
      else let i := findIndex f rest in if i =? -1 then -1 else i + 1
  end.

(** [Array.prototype.splice(start, deleteCount)]: what is left in the
    array, and the array of removed elements that is returned. *)
Definition splice {A : Type} (start deleteCount : Z) (l : list A)
  : list A * list A :=
  let len := Z.of_nat (List.length l) in
  let from := if start <? 0 then Z.max (len + start) 0 else Z.min start len in
  let count := Z.min (Z.max deleteCount 0) (len - from) in
  ((firstn (Z.to_nat from) l ++ skipn (Z.to_nat (from + count)) l)%list,
   firstn (Z.to_nat count) (skipn (Z.to_nat from) l)).

(** [removeReplyListener(replyListenerId)]; [None] is [null].  The array
    that [splice] returns has its element whenever the index was found. *)
Definition removeReplyListener (replyListenerId : Z)
  : M (option ReplyListener) :=
  this <- getThis ;;
  let index :=
    findIndex (fun replyListener => id replyListener =? replyListenerId)
              (_replyListeners this) in
  if index =? -1 then Ret None
  else
    let (left, removed) := splice index 1 (_replyListeners this) in
    putThis (set_replyListeners left this) ;;
    Ret (nth_error removed 0).

(** *** Construction *)

Definition isPollingOptions (obj : JsVal) : bool := true.

Definition isWebHookOptions (obj : JsVal) : bool := true.

(** [new TelegramBot(token, options)]: the receiver is written first, so
    the state the constructor starts from does not matter. *)
Definition constructor (token0 : string) (options0 : Options) : M unit :=
  let options1 :=
    mkOptions (webHook options0) (polling options0)
      (if truthy (baseApiUrl options0) then baseApiUrl options0
       else JStr "https://api.telegram.org")
      (if typeof_undefined (filepath options0) then JBool true
       else filepath options0)
      (request options0) (onlyFirstMatch options0) in
  putThis (mkBot token0 options1 [] [] 0 None None) ;;
  autoStart <- (if isPollingOptions (polling options1)
                then get (polling options1) "autoStart"
                else Ret (polling options1)) ;;
  (if typeof_undefined autoStart || strict_eq autoStart (JBool true)
   then startPolling (mkStartOptions None) ;; Ret tt
   else Ret tt) ;;
  autoOpen <- (if isWebHookOptions (webHook options1)
               then get (webHook options1) "autoOpen"
               else Ret (webHook options1)) ;;
  if typeof_undefined autoOpen || strict_eq autoOpen (JBool true)
  then openWebHook ;; Ret tt
  else Ret tt.

(** *** The states a bot can be in *)

Inductive Method : Type :=
| StartPolling (o : StartOptions)
| StopPolling
| OpenWebHook
| CloseWebHook
| ProcessUpdate (update : JsVal)
| OnText (re : RegExp) (cb : Callback)
| OnReplyToMessage (chatId0 messageId0 : JsVal) (cb : Callback)
| RemoveReplyListener (replyListenerId : Z).

Definition invoke (m : Method) : M unit :=
  match m with
  | StartPolling o => startPolling o ;; Ret tt
  | StopPolling => stopPolling ;; Ret tt
  | OpenWebHook => openWebHook ;; Ret tt
  | CloseWebHook => closeWebHook ;; Ret tt
  | ProcessUpdate update => processUpdate update
  | OnText re cb => onText re cb
  | OnReplyToMessage c m0 cb => onReplyToMessage c m0 cb ;; Ret tt
  | RemoveReplyListener i => removeReplyListener i ;; Ret tt
  end.

(** A bot is built by the constructor and then driven through its
    methods, under any subscribers. *)
Inductive Reachable : Bot -> Prop :=
| Reachable_new : forall env token0 options0 s0 h,
    completion (run env (constructor token0 options0) s0 h) = Normal tt ->
    Reachable (final (run env (constructor token0 options0) s0 h))
| Reachable_step : forall env m s h,
    Reachable s ->
    Reachable (final (run env (invoke m) s h)).

End TelegramBot.

(** ** What the subscribers can do to a run *)

(** [cut env h t]: the calls of [t] that are made when [t] is what the
    method calls if nobody throws: all of them, or those up to the first
    subscriber that throws, with what it throws. *)
Fixpoint cut (env : Env) (h t : list Call) : list Call * option JsVal :=
  match t with
  | [] => ([], None)
  | c :: t' =>
      match raised env h c with
      | Some e => ([c], Some e)
      | None => let (t1, e) := cut env (h ++ [c]) t' in (c :: t1, e)
      end
  end.

(** A method keeps [I] when every state it writes satisfies [I], given
    that the states it reads do. *)
Fixpoint keeps {S A : Type} (I : S -> Prop) (p : Prog S A) : Prop :=
  match p with
  | Ret _ | Throw _ => True
  | Get k => forall s, I s -> keeps I (k s)
  | Put s k => I s /\ keeps I k
  | Do _ k => forall v, keeps I (k v)
  end.

(** A method writes nothing of its own when none of its paths has a
    write of the receiver. *)
Fixpoint writesNothing {S A : Type} (p : Prog S A) : Prop :=
  match p with
  | Ret _ | Throw _ => True
  | Get k => forall s, writesNothing (k s)
  | Put _ _ => False
  | Do _ k => forall v, writesNothing (k v)
  end.

(** A method throws nothing of its own when none of its paths has a
    [throw]: it ends abruptly only when a subscriber throws. *)
Fixpoint throwsNothing {S A : Type} (p : Prog S A) : Prop :=
  match p with
  | Ret _ => True
  | Throw _ => False
  | Get k => forall s, throwsNothing (k s)
  | Put _ k => throwsNothing k
  | Do _ k => forall v, throwsNothing (k v)
  end.

(** Every call a method can make satisfies [P]. *)
Fixpoint callsOnly {S A : Type} (P : Call -> Prop) (p : Prog S A) : Prop :=
  match p with
  | Ret _ | Throw _ => True
  | Get k => forall s, callsOnly P (k s)
  | Put _ k => callsOnly P k
  | Do c k => P c /\ forall v, callsOnly P (k v)
  end.

(** ** The vocabulary of the dispatch rules *)

(** The variant fields of an update, in the order they are inspected. *)
Definition variants : list string :=
  ["message"; "edited_message"; "channel_post"; "edited_channel_post";
   "inline_query"; "chosen_inline_result"; "callback_query"].

(** The first populated variant field of an update, with its payload. *)
Fixpoint firstPopulated (update : JsVal) (fields : list string)
  : option (string * JsVal) :=
  match fields with
  | [] => None
  | k :: rest =>
      if truthy (member update k) then Some (k, member update k)
      else firstPopulated update rest
  end.

(** The notifications that belong to each variant. *)
Definition notifications (variant : string) : list string :=
  if (variant =? "message")%string then "message" :: _messageTypes
  else if (variant =? "edited_message")%string then
    ["edited_message"; "edited_message_text"; "edited_message_caption"]
  else if (variant =? "channel_post")%string then ["channel_post"]
  else if (variant =? "edited_channel_post")%string then
    ["edited_channel_post"; "edited_channel_post_text";
     "edited_channel_post_caption"]
  else [variant].

(** The payload a call hands to the subscriber. *)
Definition payload_of (c : Call) : option JsVal :=
  match c with
  | Emit _ p => Some p
  | TextCallback _ m _ => Some m
  | ReplyCallback _ m => Some m
  | Exec _ _ => None
  end.

Definition emitted (event : string) (c : Call) : bool :=
  match c with
  | Emit e _ => (e =? event)%string
  | _ => false
  end.

(** A matcher matches a text when [exec] returns a match. *)
Definition matches (text : JsVal) (reg : TextRegexpCallback) : bool :=
  truthy (exec (regexp reg) text).




(** A listener waits for a message when its chat and its message are
    those the message replies to. *)
Definition awaits (message : JsVal) (reply : ReplyListener) : bool :=
  strict_eq (chatId reply) (member (member message "chat") "id")
  && strict_eq (messageId reply)
       (member (member message "reply_to_message") "message_id").

Definition isString (v : JsVal) : bool :=
  match v with JStr _ => true | _ => false end.

Definition isNumber (v : JsVal) : bool :=
  match v with JNum _ => true | _ => false end.

(** An update as the interface [Update] declares it, as far as the
    dispatcher reads it: an object with a numeric [update_id] whose
    [message], when there is one, has a [chat]. *)
Definition wellFormed (update : JsVal) : bool :=
  negb (nullish update)
  && isNumber (member update "update_id")
  && (negb (truthy (member update "message"))
      || negb (nullish (member (member update "message") "chat"))).

(** The ids of the listener table are issued once each, from a counter. *)
Definition tableOk {Polling WebHook : Type} (this : @Bot Polling WebHook) : Prop :=
  NoDup (map id (_replyListeners this))
  /\ 0 <= _replyListenerId this
  /\ forall l, In l (_replyListeners this) -> 0 < id l <= _replyListenerId this.

(** The block of [processUpdate] that handles each variant. *)
Definition branch {Polling WebHook : Type} (variant : string) (payload : JsVal) : @M Polling WebHook unit :=
  if (variant =? "message")%string then onMessage payload
  else if (variant =? "edited_message")%string then onEditedMessage payload
  else if (variant =? "channel_post")%string then onChannelPost payload
  else if (variant =? "edited_channel_post")%string then
    onEditedChannelPost payload
  else emit variant payload.

(** An update is malformed, in the words of the specification, when it
    lacks [update_id] or has no populated variant field. *)
Definition malformed (update : JsVal) : bool :=
  typeof_undefined (member update "update_id")
  || match firstPopulated update variants with
     | None => true
     | Some _ => false
     end.

(** The callbacks among the calls: text matchers and reply listeners. *)
Definition isCallback (c : Call) : bool :=
  isTextCallback c || isReplyCallback c.

(** ** The calls of a dispatch in which no subscriber throws *)

(** The subtype notifications of a message. *)
Definition typeCalls (message : JsVal) : list Call :=
  map (fun messageType => Emit messageType message)
      (filter (fun messageType => truthy (member message messageType))
              _messageTypes).

(** The calls of [_textRegexpCallbacks.some(...)]. *)
Fixpoint textCalls (first : bool) (message text : JsVal)
  (l : list TextRegexpCallback) : list Call :=
  match l with
  | [] => []
  | reg :: rest =>
      Exec (regexp reg) text ::
      (if matches text reg then
         TextCallback (text_callback reg) message (exec (regexp reg) text) ::
         (if first then [] else textCalls first message text rest)
       else textCalls first message text rest)
  end.

(** The calls of [_replyListeners.forEach(...)], and how it ends: the
    first listener reads [message.chat.id]. *)
Definition replyCalls (message : JsVal) (l : list ReplyListener) : list Call :=
  if nullish (member message "chat") then []
  else map (fun reply => ReplyCallback (callback reply) message)
           (filter (awaits message) l).

Definition replyEnd (message : JsVal) (l : list ReplyListener)
  : Completion unit :=
  match l with
  | [] => Normal tt
  | _ :: _ =>
      if nullish (member message "chat") then Abrupt (TypeError "id")
      else Normal tt
  end.

Definition messageCalls {Polling WebHook : Type} (this : @Bot Polling WebHook)
  (message : JsVal) : list Call :=
  (Emit "message" message :: typeCalls message)
  ++ (if truthy (member message "text") then
        textCalls (truthy (onlyFirstMatch (options this))) message
                  (member message "text") (_textRegexpCallbacks this)
      else [])
  ++ (if truthy (member message "reply_to_message") then
        replyCalls message (_replyListeners this)
      else []).

Definition messageEnd {Polling WebHook : Type} (this : @Bot Polling WebHook)
  (message : JsVal) : Completion unit :=
  if truthy (member message "reply_to_message") then
    replyEnd message (_replyListeners this)
  else Normal tt.

(** The calls of the two branches for edited payloads. *)
Definition editedCalls (event event_text event_caption : string)
  (payload : JsVal) : list Call :=
  (Emit event payload ::
   (if truthy (member payload "text") then [Emit event_text payload] else []))
  ++ (if truthy (member payload "caption") then [Emit event_caption payload]
      else []).

(** The calls of each block, and how it ends. *)
Definition branchCalls {Polling WebHook : Type} (this : @Bot Polling WebHook)
  (variant : string) (payload : JsVal) : list Call :=
  if (variant =? "message")%string then messageCalls this payload
  else if (variant =? "edited_message")%string then
    editedCalls "edited_message" "edited_message_text"
                "edited_message_caption" payload
  else if (variant =? "channel_post")%string then [Emit "channel_post" payload]
  else if (variant =? "edited_channel_post")%string then
    editedCalls "edited_channel_post" "edited_channel_post_text"
                "edited_channel_post_caption" payload
  else [Emit variant payload].

Definition branchEnd {Polling WebHook : Type} (this : @Bot Polling WebHook)
  (variant : string) (payload : JsVal) : Completion unit :=
  if (variant =? "message")%string then messageEnd this payload else Normal tt.

(** The notifications of each variant, as calls. *)
Definition noticeCalls (variant : string) (payload : JsVal) : list Call :=
  if (variant =? "message")%string then Emit "message" payload :: typeCalls payload
  else if (variant =? "edited_message")%string then
    editedCalls "edited_message" "edited_message_text"
                "edited_message_caption" payload
  else if (variant =? "channel_post")%string then [Emit "channel_post" payload]
  else if (variant =? "edited_channel_post")%string then
    editedCalls "edited_channel_post" "edited_channel_post_text"
                "edited_channel_post_caption" payload
  else [Emit variant payload].

(** The notifications of an update: those of its first populated
    variant. *)
Definition emitsOf (update : JsVal) : list Call :=
  match firstPopulated update variants with
  | Some (variant, payload) => noticeCalls variant payload
  | None => []
  end.

Definition isOther (c : Call) : bool := negb (isReplyCallback c).

(** The calls never take a listener out of the table of reply
    listeners: what they do to it is to add listeners at its end. *)
Definition addsOnly {Polling WebHook : Type} (touch : Touch (@Bot Polling WebHook))
  : Prop :=
  forall h c s,
    exists added, _replyListeners (touch h c s) = (_replyListeners s ++ added)%list.

(** [scans touch message s h r]: the run [r], made on the receiver [s]
    after the calls [h], ends with the scan of the reply listeners for
    [message].  Its calls are calls of other kinds, then the reply
    callbacks of the listeners that await [message] in the table as those
    other calls have left it, each once and in table order; nothing is
    thrown; and the table at the end is the table scanned, with the
    listeners added since. *)
Definition scans {Polling WebHook : Type} (touch : Touch (@Bot Polling WebHook))
  (message : JsVal) (s : @Bot Polling WebHook) (h : list Call)
  (r : Outcome (@Bot Polling WebHook) unit) : Prop :=
  let pre := filter isOther (trace r) in
  let table := _replyListeners (touched touch h pre s) in
  trace r =
    (pre ++ map (fun reply => ReplyCallback (callback reply) message)
                (filter (awaits message) table))%list
  /\ (exists added, _replyListeners (final r) = (table ++ added)%list)
  /\ completion r = Normal tt.

(** ** Concrete transports, matchers and updates *)

Module Sample.

(** Modelled from the spec: the classes [TelegramBotPolling] and
    [TelegramBotWebHook] are not part of the sources at hand.  Each is
    reduced to the flag its [isPolling()] / [isOpen()] reports: starting
    or opening sets it, stopping or closing clears it. *)
#[global] Instance flags : Transports bool bool unit := {
  newPolling := fun _ => false;
  polling_start := fun _ _ => (true, tt);
  polling_stop := fun _ => (false, tt);
  polling_isPolling := fun p => p;
  newWebHook := fun _ => false;
  webHook_open := fun _ => (true, tt);
  webHook_close := fun _ => (false, tt);
  webHook_isOpen := fun w => w
}.

Definition FlagBot : Type := @Bot bool bool.

(** [/hello/] and [/^h/], on strings. *)
Definition reHello : RegExp :=
  mkRegExp "hello"
    (fun v => match v with
              | JStr s => if String.eqb s "hello" then JArr [JStr "hello"] else JNull
              | _ => JNull
              end).

Definition reH : RegExp :=
  mkRegExp "^h"
    (fun v => match v with
              | JStr s => if String.prefix "h" s then JArr [JStr "h"] else JNull
              | _ => JNull
              end).

Definition options0 (first : JsVal) : Options :=
  mkOptions (JObj [("autoOpen", JBool false)]) (JObj [("autoStart", JBool false)])
            JUndefined JUndefined JUndefined first.

(** The bot [new TelegramBot("t", options0 first)]. *)
Definition fresh (first : JsVal) : FlagBot :=
  final (run calm (constructor "t" (options0 first))
           (mkBot "" (options0 first) [] [] 0 None None) []).

Definition after (ms : list Method) (s : FlagBot) : FlagBot :=
  fold_left (fun s m => final (run calm (invoke m) s [])) ms s.

(** [{update_id: 100, message: {message_id: 7, chat: {id: 1}, text: "hello"}}] *)
Definition hello : JsVal :=
  JObj [("message_id", JNum 7); ("chat", JObj [("id", JNum 1)]);
        ("text", JStr "hello")].

Definition helloUpdate : JsVal :=
  JObj [("update_id", JNum 100); ("message", hello)].

(** A message of chat 1 that replies to message 5. *)
Definition answer : JsVal :=
  JObj [("message_id", JNum 8); ("chat", JObj [("id", JNum 1)]);
        ("reply_to_message", JObj [("message_id", JNum 5)])].

Definition answerUpdate : JsVal :=
  JObj [("update_id", JNum 101); ("message", answer)].

(** A message whose text is the empty string. *)
Definition blank : JsVal :=
  JObj [("message_id", JNum 9); ("chat", JObj [("id", JNum 1)]);
        ("text", JStr ""); ("photo", JArr [])].

Definition blankUpdate : JsVal :=
  JObj [("update_id", JNum 102); ("message", blank)].

(** The subscribers among which callback [1] throws. *)
Definition firstThrows : Env :=
  fun _ c =>
    match c with
    | TextCallback 1%nat _ _ => Some (JStr "boom")
    | ReplyCallback 1%nat _ => Some (JStr "boom")
    | _ => None
    end.

(** A bot with the matchers [/hello/] (callback 1) and [/^h/]
    (callback 2), registered in that order. *)
Definition twoMatchers (first : JsVal) : FlagBot :=
  after [OnText reHello 1%nat; OnText reH 2%nat] (fresh first).

(** A bot with two listeners for chat 1 and message 5. *)
Definition twoListeners : FlagBot :=
  after [OnReplyToMessage (JNum 1) (JNum 5) 1%nat;
         OnReplyToMessage (JNum 1) (JNum 5) 2%nat] (fresh JUndefined).

(** A bot with one listener, for the chat ["1"] and message 5. *)
Definition stringListener : FlagBot :=
  after [OnReplyToMessage (JStr "1") (JNum 5) 1%nat] (fresh JUndefined).

(** A channel post with text and caption. *)
Definition post : JsVal :=
  JObj [("message_id", JNum 4); ("chat", JObj [("id", JNum (-100))]);
        ("text", JStr "news"); ("caption", JStr "c")].

Definition postUpdate : JsVal :=
  JObj [("update_id", JNum 104); ("channel_post", post)].

(** An edited message with text and no caption, in an update that also
    populates two fields of lower priority. *)
Definition edited : JsVal :=
  JObj [("message_id", JNum 3); ("chat", JObj [("id", JNum 1)]);
        ("text", JStr "fixed")].

Definition severalUpdate : JsVal :=
  JObj [("update_id", JNum 103);
        ("callback_query", JObj [("data", JStr "d")]);
        ("edited_message", edited);
        ("inline_query", JObj [("query", JStr "q")])].

(** The update [helloUpdate] without its [update_id]. *)
Definition headless : JsVal := JObj [("message", hello)].

(** The subscribers among which the reply callback [1] removes the
    listener with the id 1 when it is called: on [twoListeners], the
    first listener removes itself. *)
Definition oneShot : Touch FlagBot :=
  fun _ c s =>
    match c with
    | ReplyCallback 1%nat _ => final (run calm (removeReplyListener 1) s [])
    | _ => s
    end.

(** [/hello/g] after a match: [lastIndex] is behind the match, and the
    next [exec] on the same text finds nothing. *)
Definition reSpent : RegExp := mkRegExp "hello" (fun _ => JNull).

(** The calls among which [exec] moves [lastIndex]: after a call of
    [exec] the expressions of the table are spent. *)
Definition advancing : Touch FlagBot :=
  fun _ c s =>
    match c with
    | Exec _ _ =>
        set_textRegexpCallbacks
          (map (fun reg => mkTextRegexpCallback reSpent (text_callback reg))
               (_textRegexpCallbacks s))
          s
    | _ => s
    end.

(** The subscribers among which the listener of "message" registers a
    reply listener, with the callback [3], for chat 1 and message 5. *)
Definition registrar : Touch FlagBot :=
  fun _ c s =>
    match c with
    | Emit event _ =>
        if (event =? "message")%string then
          final (run calm (onReplyToMessage (JNum 1) (JNum 5) 3%nat) s [])
        else s
    | _ => s
    end.

End Sample.

(** ** Vocabulary for the life of a bot *)

Definition isEmit (c : Call) : bool :=
  match c with Emit _ _ => true | _ => false end.

(** The calls of the matching of text: the tests and the callbacks. *)
Definition isMatching (c : Call) : bool := isExec c || isTextCallback c.


Definition isObject (v : JsVal) : bool :=
  match v with JObj _ => true | _ => false end.

(** The condition under which the constructor starts a transport by
    itself: [typeof auto === 'undefined' || auto === true]. *)
Definition automatic (auto : JsVal) : bool :=
  typeof_undefined auto || strict_eq auto (JBool true).

(** The options as the constructor stores them. *)
Definition normalised (options0 : Options) : Options :=
  mkOptions (webHook options0) (polling options0)
    (if truthy (baseApiUrl options0) then baseApiUrl options0
     else JStr "https://api.telegram.org")
    (if typeof_undefined (filepath options0) then JBool true
     else filepath options0)
    (request options0) (onlyFirstMatch options0).

Section Histories.

Context {Polling WebHook D : Type} `{T : Transports Polling WebHook D}.

(** [Reaches s s']: the bot in state [s] gets to state [s'] through
    calls of its methods, under any subscribers. *)
Inductive Reaches : @Bot Polling WebHook -> @Bot Polling WebHook -> Prop :=
| Reaches_here : forall s, Reaches s s
| Reaches_next : forall env m s s' h,
    Reaches s s' ->
    Reaches s (final (run env (invoke m) s' h)).

(** What [isPolling()] and [hasOpenWebHook()] report in a state. *)
Definition pollingNow (this : @Bot Polling WebHook) : bool :=
  match _polling this with
  | Some p => polling_isPolling p
  | None => false
  end.

Definition openNow (this : @Bot Polling WebHook) : bool :=
  match _webHook this with
  | Some w => webHook_isOpen w
  | None => false
  end.

(** The argument handed to the engine by [startPolling]. *)
Definition started (options0 : StartOptions) : StartOptions :=
  mkStartOptions
    (match restart options0 with None => Some true | Some b => Some b end).

(** [PollingSteps p p']: the engine [p'] is the engine [p] as calls of
    [start] and [stop] have left it; [WebHookSteps w w']: the receiver
    [w'] is the receiver [w] as calls of [open] and [close] have left
    it. *)
Inductive PollingSteps : Polling -> Polling -> Prop :=
| PollingSteps_here : forall p, PollingSteps p p
| PollingSteps_start : forall options0 p p',
    PollingSteps p p' -> PollingSteps p (fst (polling_start options0 p'))
| PollingSteps_stop : forall p p',
    PollingSteps p p' -> PollingSteps p (fst (polling_stop p')).

Inductive WebHookSteps : WebHook -> WebHook -> Prop :=
| WebHookSteps_here : forall w, WebHookSteps w w
| WebHookSteps_open : forall w w',
    WebHookSteps w w' -> WebHookSteps w (fst (webHook_open w'))
| WebHookSteps_close : forall w w',
    WebHookSteps w w' -> WebHookSteps w (fst (webHook_close w')).

End Histories.

(** The methods of the transport lifecycle. *)
Definition isLifecycle (m : Method) : bool :=
  match m with
  | StartPolling _ | StopPolling | OpenWebHook | CloseWebHook => true
  | _ => false
  end.

(** ** The request layer ([src/telegram.ts]) *)

Module Replies.

(** [Response<string>] of [web-request], by what the class reads. *)
Record Response : Type := mkResponse {
  statusCode : Z;
  content : string
}.

(** The errors of [src/errors.ts] that carry a response. *)
Record ResponseError : Type := mkResponseError {
  base : Errors.BaseError;
  response : option Response
}.

(** [new ParseError(message, response)]: the response is set when one is
    given. *)
Definition ParseError (message : string) (response : option Response)
  : ResponseError :=
  mkResponseError (Errors.newBaseError "EPARSE" message) response.

(** [new TelegramError(message, response)] *)
Definition TelegramError (message : string) (response : Response)
  : ResponseError :=
  mkResponseError (Errors.newBaseError "ETELEGRAM" message) (Some response).

(** What a method of the request layer throws, or rejects its promise
    with. *)
Inductive Failure : Type :=
| Fatal (e : Errors.BaseError)
| Telegram (e : ResponseError)
| Thrown (v : JsVal).

End Replies.

(** [String(v)], as template literals and [toString()] compute it; the
    numbers are taken below 10^21, where they print in decimal. *)
Fixpoint toStr (v : JsVal) : string :=
  match v with
  | JUndefined => "undefined"
  | JNull => "null"
  | JBool true => "true"
  | JBool false => "false"
  | JNum n => NilZero.string_of_int (Z.to_int n)
  | JStr s => s
  | JArr items =>
      (fix join (l : list JsVal) : string :=
         match l with
         | [] => ""
         | [x] => if nullish x then "" else toStr x
         | x :: rest =>
             ((if nullish x then "" else toStr x) ++ "," ++ join rest)%string
         end) items
  | JObj _ => "[object Object]"
  end.

(** [o[k] = v] on the properties of an object: the value is replaced
    where the key is, and added at the end otherwise. *)
Fixpoint setProp {V : Type} (k : string) (v : V) (props : list (string * V))
  : list (string * V) :=
  match props with
  | [] => [(k, v)]
  | (k', v') :: rest =>
      if (k =? k')%string then (k, v) :: rest
      else (k', v') :: setProp k v rest
  end.

Fixpoint getProp {V : Type} (k : string) (props : list (string * V))
  : option V :=
  match props with
  | [] => None
  | (k', v) :: rest => if (k =? k')%string then Some v else getProp k rest
  end.

(** [o.hasOwnProperty(k)] on the properties of an object. *)
Definition hasKey {V : Type} (k : string) (props : list (string * V)) : bool :=
  match getProp k props with Some _ => true | None => false end.

Definition indexName (i : nat) : string :=
  NilZero.string_of_uint (Nat.to_uint i).

Fixpoint indexed {V : Type} (i : nat) (l : list V) : list (string * V) :=
  match l with
  | [] => []
  | x :: rest => (indexName i, x) :: indexed (S i) rest
  end.

Fixpoint characters (s : string) : list JsVal :=
  match s with
  | EmptyString => []
  | String a rest => JStr (String a EmptyString) :: characters rest
  end.

(** The own enumerable properties that [Object.assign] copies from a
    source: those of an object, the elements of an array, the characters
    of a string (taken here one by one), none of the other values. *)
Definition ownEntries (source : JsVal) : list (string * JsVal) :=
  match source with
  | JObj props => props
  | JArr items => indexed 0 items
  | JStr s => indexed 0 (characters s)
  | _ => []
  end.

(** What is handed to [_formatSendData] as data: a stream (with its
    [path] property), a [Buffer] (with its bytes), or any other value. *)
Inductive SendData : Type :=
| DataStream (path : JsVal)
| DataBuffer (bytes : string)
| DataValue (v : JsVal).

(** A part of the form data: [{value, options}]. *)
Record FilePart : Type := mkFilePart {
  value : SendData;
  part_options : list (string * JsVal)
}.

Definition FormData : Type := list (string * FilePart).

(** A property of the request options: a plain value, or form data. *)
Inductive RVal : Type :=
| Plain (v : JsVal)
| Files (f : FormData).

Definition RequestOptions : Type := list (string * RVal).

(** The functions of the platform and of the libraries that the request
    layer calls: [path.basename], [URL.parse(...).pathname],
    [qs.unescape], [mime.lookup], [fileType] (extension and type, or
    [null]), [JSON.stringify] and [JSON.parse] (the value, or what it
    throws). *)
Class Library : Type := {
  basename : string -> string;
  urlPathname : string -> JsVal;
  unescape : string -> string;
  mimeLookup : string -> JsVal;
  fileType : string -> option (string * string);
  stringify : JsVal -> JsVal;
  parse : string -> JsVal + JsVal
}.

(** [fs.existsSync]: the state of the file system; [false] for what is
    not a path. *)
Definition FileSystem : Type := string -> bool.

(** [WebRequest.post(url, requestOptions, content)]: the promise is
    rejected with a value or fulfilled with the response. *)
Definition Network : Type :=
  string -> RequestOptions -> list (string * JsVal) -> JsVal + Replies.Response.

(** [String.prototype.lastIndexOf] for a single character. *)
Fixpoint lastIndexOf (c : ascii) (s : string) : Z :=
  match s with
  | EmptyString => -1
  | String a rest =>
      let i := lastIndexOf c rest in
      if i =? -1 then (if Ascii.eqb a c then 0 else -1) else i + 1
  end.

Fixpoint dropChars (n : nat) (s : string) : string :=
  match n, s with
  | O, _ => s
  | S n', EmptyString => EmptyString
  | S n', String _ rest => dropChars n' rest
  end.

(** [String.prototype.slice(start)] *)
Definition slice (start : Z) (s : string) : string :=
  let len := Z.of_nat (String.length s) in
  let from := if start <? 0 then Z.max (len + start) 0 else Z.min start len in
  dropChars (Z.to_nat from) s.

Section Requests.

Context {Polling WebHook : Type} {L : Library}.

Implicit Types (this : @Bot Polling WebHook).

Definition Settled : Type := (Replies.Failure + JsVal)%type.

(** [_buildURL(path)] *)
Definition _buildURL this (path : string) : string :=
  (toStr (baseApiUrl (options this)) ++ "/bot" ++ token this ++ "/" ++ path)%string.

(** [_fixReplyMarkup(replyMarkup)] *)
Definition _fixReplyMarkup (replyMarkup : JsVal) : JsVal :=
  if truthy replyMarkup && negb (isString replyMarkup)
  then stringify replyMarkup
  else replyMarkup.

(** [Object.assign(target, source)] on request options. *)
Definition assign (target : RequestOptions) (source : JsVal) : RequestOptions :=
  fold_left (fun t kv => setProp (fst kv) (Plain (snd kv)) t)
            (ownEntries source) target.

(** [_request(_path, requestOptions, options)], in the three parts of
    its body.  First, the arguments it hands to [WebRequest.post]: the
    URL, the request options and the content. *)
Definition requestArguments this (_path : string)
  (requestOptions : RequestOptions) (options0 : list (string * JsVal))
  : string * RequestOptions * list (string * JsVal) :=
  let requestOptions1 :=
    if truthy (request (options this))
    then assign requestOptions (request (options this))
    else requestOptions in
  let options1 :=
    setProp "reply_markup" (_fixReplyMarkup (lookup "reply_markup" options0))
            options0 in
  let requestOptions2 := setProp "forever" (Plain (JBool true)) requestOptions1 in
  (_buildURL this _path, requestOptions2, options1).

(** Then, what follows the [await]: the promise of [post] rejected with
    a reason, or fulfilled with a response whose content is parsed. *)
Definition settle (answer : JsVal + Replies.Response) : Settled :=
  match answer with
  | inl reason => inl (Replies.Thrown reason)
  | inr resp =>
      match parse (Replies.content resp) with
      | inl syntaxError => inl (Replies.Thrown syntaxError)
      | inr data =>
          if nullish data then inl (Replies.Thrown (TypeError "ok"))
          else if negb (truthy (member data "ok")) then
            inl (Replies.Telegram
                   (Replies.TelegramError
                      (toStr (member data "error_code") ++ " "
                       ++ toStr (member data "description"))%string
                      resp))
          else inr (member data "result")
      end
  end.

(** The whole: what the promise returned by [_request] settles to. *)
Definition _request (post : Network) this (_path : string)
  (requestOptions : RequestOptions) (options0 : list (string * JsVal))
  : Settled :=
  if (token this =? "")%string then
    inl (Replies.Fatal
           (Errors.FatalError (inr "Telegram Bot Token not provided!")))
  else
    let '(url, requestOptions2, options1) :=
      requestArguments this _path requestOptions options0 in
    settle (post url requestOptions2 options1).

(** [_formatSendData(type, data)]: what it throws, or the pair
    [[formData, fileId]].  [fs.existsSync] is [false] on what is not a
    string. *)
Definition _formatSendData (existsSync : FileSystem) this (type : string)
  (data : SendData) : Replies.Failure + (option FormData * JsVal) :=
  let onPath (p : JsVal) :=
    if nullish p then inl (Replies.Thrown (TypeError "toString"))
    else
      let parsed := urlPathname (basename (toStr p)) in
      let fileName := if truthy parsed then toStr parsed else "filename" in
      inr (Some [(type,
                  mkFilePart data
                    [("filename", JStr (unescape fileName));
                     ("contentType", mimeLookup fileName)])],
           JUndefined) in
  match data with
  | DataStream p => onPath p
  | DataBuffer bytes =>
      match fileType bytes with
      | None =>
          inl (Replies.Fatal
                 (Errors.FatalError (inr "Unsupported Buffer file type")))
      | Some (ext, mime) =>
          inr (Some [(type,
                      mkFilePart data
                        [("filename", JStr ("data." ++ ext)%string);
                         ("contentType", JStr mime)])],
               JUndefined)
      end
  | DataValue v =>
      if nullish v then inl (Replies.Thrown (TypeError "hasOwnProperty"))
      else if match v with JObj props => hasKey "path" props | _ => false end
      then onPath (member v "path")
      else if negb (truthy (filepath (options this))) then inr (None, v)
      else
        match v with
        | JStr s =>
            if existsSync s then
              inr (Some [(type,
                          mkFilePart (DataStream (JStr s))
                            [("filename", JStr (basename s));
                             ("contentType", mimeLookup (basename s))])],
                   JUndefined)
            else inr (None, v)
        | _ => inr (None, v)
        end
  end.

(** The shape shared by [sendPhoto], [sendAudio], [sendSticker],
    [sendVideo] and [sendVoice], which differ by the name of the method
    and of the field only. *)
Definition sendFile (post : Network) (existsSync : FileSystem) this
  (method type : string) (chatId : JsVal) (data : SendData)
  (options0 : list (string * JsVal)) : Settled :=
  let qs1 := setProp "chat_id" chatId options0 in
  match _formatSendData existsSync this type data with
  | inl ex => inl ex
  | inr (formData, fileId) =>
      let qs2 := setProp type fileId qs1 in
      let opts :=
        [("qs", Plain (JObj qs2));
         ("formData", match formData with
                      | Some f => Files f
                      | None => Plain JUndefined
                      end)] in
      _request post this method opts []
  end.

Definition sendPhoto post existsSync this chatId photo options0 : Settled :=
  sendFile post existsSync this "sendPhoto" "photo" chatId photo options0.

Definition sendAudio post existsSync this chatId audio options0 : Settled :=
  sendFile post existsSync this "sendAudio" "audio" chatId audio options0.

Definition sendSticker post existsSync this chatId sticker options0 : Settled :=
  sendFile post existsSync this "sendSticker" "sticker" chatId sticker options0.

Definition sendVideo post existsSync this chatId video options0 : Settled :=
  sendFile post existsSync this "sendVideo" "video" chatId video options0.

Definition sendVoice post existsSync this chatId voice options0 : Settled :=
  sendFile post existsSync this "sendVoice" "voice" chatId voice options0.

(** [sendMessage(chatId, text, options)] *)
Definition sendMessage (post : Network) this (chatId text : JsVal)
  (options0 : list (string * JsVal)) : Settled :=
  let opts := setProp "text" text (setProp "chat_id" chatId options0) in
  _request post this "sendMessage" [] opts.

(** [forwardMessage(chatId, fromChatId, messageId, form)] *)
Definition forwardMessage (post : Network) this
  (chatId fromChatId messageId0 : JsVal) (form : list (string * JsVal))
  : Settled :=
  let form1 :=
    setProp "message_id" messageId0
      (setProp "from_chat_id" fromChatId (setProp "chat_id" chatId form)) in
  _request post this "forwardMessage" [("form", Plain (JObj form1))] [].

(** [getFile(fileId)] *)
Definition getFile (post : Network) this (fileId : JsVal) : Settled :=
  _request post this "getFile"
    [("form", Plain (JObj [("file_id", fileId)]))] [].

(** [getFileLink(fileId)] *)
Definition getFileLink (post : Network) this (fileId : JsVal) : Settled :=
  match getFile post this fileId with
  | inl failure => inl failure
  | inr resp =>
      if nullish resp then inl (Replies.Thrown (TypeError "file_path"))
      else
        inr (JStr (toStr (baseApiUrl (options this)) ++ "/file/bot"
                   ++ token this ++ "/" ++ toStr (member resp "file_path"))%string)
  end.

(** [downloadFile(fileId, downloadDir)]: the path the promise is
    fulfilled with once [pump] has called back, which it does whether the
    transfer has succeeded or not. *)
Definition downloadFile (post : Network) this (fileId : JsVal)
  (downloadDir : string) : Settled :=
  match getFileLink post this fileId with
  | inl failure => inl failure
  | inr fileURI =>
      let uri := toStr fileURI in
      let fileName := slice (lastIndexOf "/" uri + 1) uri in
      inr (JStr (downloadDir ++ "/" ++ fileName)%string)
  end.

End Requests.

(** ** Concrete libraries, networks and bots *)

Module Desk.

(** Stand-ins for the library functions: the base name is what follows
    the last slash, every name is its own URL path, nothing is escaped,
    no type is known by name, a buffer is a JPEG when it starts with
    "JPG", [stringify] wraps the printed value, and [parse] knows the
    contents "null", "ERR" and "OK:<path>". *)
Definition shelf : Library := {|
  basename := fun s => slice (lastIndexOf "/" s + 1) s;
  urlPathname := fun s => if (s =? "")%string then JNull else JStr s;
  unescape := fun s => s;
  mimeLookup := fun _ => JBool false;
  fileType := fun bytes =>
    if String.prefix "JPG" bytes then Some ("jpg", "image/jpeg") else None;
  stringify := fun v =>
    match v with
    | JUndefined => JUndefined
    | _ => JStr ("<" ++ toStr v ++ ">")%string
    end;
  parse := fun s =>
    if (s =? "null")%string then inr JNull
    else if (s =? "ERR")%string then
      inr (JObj [("ok", JBool false); ("error_code", JNum 400);
                 ("description", JStr "Bad Request")])
    else if String.prefix "OK:" s then
      inr (JObj [("ok", JBool true);
                 ("result", JObj [("file_path", JStr (slice 3 s))])])
    else inl (JStr "SyntaxError")
|}.

(** A bot with the given token, [options.request] and
    [options.filepath], no matcher, no listener and no engine. *)
Definition bot (token0 : string) (request0 filepath0 : JsVal) : Sample.FlagBot :=
  mkBot token0
    (mkOptions JUndefined JUndefined (JStr "https://api.telegram.org")
               filepath0 request0 JUndefined)
    [] [] 0 None None.

(** The network that answers every request with the same content, and
    the one that refuses every connection. *)
Definition answers (body : string) : Network :=
  fun _ _ _ => inr (Replies.mkResponse 200 body).

Definition down : Network := fun _ _ _ => inl (JStr "ECONNREFUSED").

(** The file system that holds ["/tmp/cat.jpg"] and nothing else. *)
Definition disk : FileSystem := fun s => (s =? "/tmp/cat.jpg")%string.




(** The options [{polling: false, webHook: false}]. *)
Definition off : Options :=
  mkOptions (JBool false) (JBool false) JUndefined JUndefined JUndefined
            JUndefined.

End Desk.

(* ================================================================== *)
(** * Properties *)

Open Scope list_scope.

(** ** Runs of the free monad *)

Section Runs.

Variable S : Type.

Lemma raised_quiet (env : Env) h c : quiet env -> raised env h c = None.
Proof.
  intros Hq. unfold raised. destruct (isExec c); [reflexivity | apply Hq].
Qed.

Lemma outcome_eta A (r : Outcome S A) :
  mkOutcome (final r) (trace r) (completion r) = r.
Proof. destruct r; reflexivity. Qed.

(** A sequence runs its first part, then the rest after the calls of the
    first part, unless the first part throws. *)
Lemma run_bind A B (env : Env) (p : Prog S A) (f : A -> Prog S B) s h :
  run env (bind p f) s h =
  match completion (run env p s h) with
  | Normal a =>
      let r := run env p s h in
      let r' := run env (f a) (final r) (h ++ trace r) in
      mkOutcome (final r') (trace r ++ trace r') (completion r')
  | Abrupt e =>
      mkOutcome (final (run env p s h)) (trace (run env p s h)) (Abrupt e)
  end.
Proof.
  revert s h. induction p as [a | e | k IH | s' k IH | c k IH]; intros s h; simpl.
  - rewrite app_nil_r. symmetry. apply outcome_eta.
  - reflexivity.
  - apply IH.
  - apply IH.
  - destruct (raised env h c) as [e |]; simpl; [reflexivity |].
    rewrite IH.
    destruct (completion (run env (k (result_of c)) s (h ++ [c]))); simpl;
      rewrite <- ?app_assoc; reflexivity.
Qed.

(** A run among subscribers that never throw is the calm run. *)
Lemma run_quiet A (env : Env) (p : Prog S A) s h :
  quiet env -> run env p s h = run calm p s h.
Proof.
  intros Hq. revert s h.
  induction p as [a | e | k IH | s' k IH | c k IH]; intros s h; simpl; auto.
  rewrite (raised_quiet h c Hq), (raised_quiet h c (env := calm)) by (intros ? ?; reflexivity).
  rewrite IH. reflexivity.
Qed.

(** Any run is the calm run, cut at the first subscriber that throws. *)
Lemma run_cut A (env : Env) (p : Prog S A) s h :
  trace (run env p s h) = fst (cut env h (trace (run calm p s h)))
  /\ completion (run env p s h) =
     match snd (cut env h (trace (run calm p s h))) with
     | Some e => Abrupt e
     | None => completion (run calm p s h)
     end
  /\ (snd (cut env h (trace (run calm p s h))) = None ->
      final (run env p s h) = final (run calm p s h)).
Proof.
  revert s h.
  induction p as [a | e | k IH | s' k IH | c k IH]; intros s h; simpl; auto.
  rewrite (raised_quiet h c (env := calm)) by (intros ? ?; reflexivity). simpl.
  destruct (raised env h c) as [e |] eqn:Hr; simpl.
  - repeat split; try reflexivity. discriminate.
  - destruct (IH (result_of c) s (h ++ [c])) as (Ht & Hc & Hf).
    destruct (cut env (h ++ [c]) (trace (run calm (k (result_of c)) s (h ++ [c]))))
      as [t1 e1]; simpl in *.
    repeat split; [f_equal; exact Ht | exact Hc | exact Hf].
Qed.

Lemma cut_prefix (env : Env) h t :
  exists rest, t = (fst (cut env h t) ++ rest)%list.
Proof.
  revert h. induction t as [| c t IH]; intros h; simpl.
  - exists []. reflexivity.
  - destruct (raised env h c).
    + exists t. reflexivity.
    + destruct (IH (h ++ [c])) as [rest Hrest].
      destruct (cut env (h ++ [c]) t) as [t1 e1]; simpl in *.
      exists rest. f_equal. exact Hrest.
Qed.

(** When a subscriber throws, its call is the last one. *)
Lemma cut_stops (env : Env) h t e :
  snd (cut env h t) = Some e ->
  exists before c,
    fst (cut env h t) = (before ++ [c])%list
    /\ isExec c = false
    /\ env (h ++ before)%list c = Some e.
Proof.
  revert h. induction t as [| c t IH]; intros h; simpl; [discriminate |].
  destruct (raised env h c) as [e' |] eqn:Hr; simpl.
  - intros [= ->]. exists [], c. rewrite app_nil_r.
    unfold raised in Hr. destruct (isExec c); [discriminate | auto].
  - specialize (IH (h ++ [c])%list).
    destruct (cut env (h ++ [c]) t) as [t1 e1]; simpl in *.
    intros He. destruct (IH He) as (before & c' & Ht & Hx & Henv).
    exists (c :: before), c'. rewrite Ht. rewrite <- app_assoc in Henv. auto.
Qed.

Lemma cut_all (env : Env) h t :
  snd (cut env h t) = None -> fst (cut env h t) = t.
Proof.
  revert h. induction t as [| c t IH]; intros h; simpl; [reflexivity |].
  destruct (raised env h c); simpl; [discriminate |].
  specialize (IH (h ++ [c])%list).
  destruct (cut env (h ++ [c]) t) as [t1 e1]; simpl in *.
  intros He. f_equal. auto.
Qed.

Lemma keeps_bind A B (I : S -> Prop) (p : Prog S A) (f : A -> Prog S B) :
  keeps I p -> (forall a, keeps I (f a)) -> keeps I (bind p f).
Proof.
  intros Hp Hf.
  induction p as [a | e | k IH | s' k IH | c k IH]; simpl in *; auto.
  destruct Hp; auto.
Qed.

Lemma keeps_run A (I : S -> Prop) (env : Env) (p : Prog S A) s h :
  keeps I p -> I s -> I (final (run env p s h)).
Proof.
  revert s h.
  induction p as [a | e | k IH | s' k IH | c k IH]; intros s h Hp Hs; simpl in *; auto.
  - destruct Hp; auto.
  - destruct (raised env h c); simpl; auto.
Qed.

(** *** Runs among calls that change the receiver *)

Lemma live_still A (env : Env) (p : Prog S A) s h :
  live env (@still S) p s h = run env p s h.
Proof.
  revert s h.
  induction p as [a | e | k IH | s' k IH | c k IH]; intros s h; simpl; auto.
  destruct (raised env h c); [reflexivity |].
  change (still h c s) with s. rewrite IH. reflexivity.
Qed.

Lemma live_bind A B (env : Env) (touch : Touch S) (p : Prog S A)
  (f : A -> Prog S B) s h :
  live env touch (bind p f) s h =
  match completion (live env touch p s h) with
  | Normal a =>
      let r := live env touch p s h in
      let r' := live env touch (f a) (final r) (h ++ trace r) in
      mkOutcome (final r') (trace r ++ trace r') (completion r')
  | Abrupt e =>
      mkOutcome (final (live env touch p s h)) (trace (live env touch p s h))
                (Abrupt e)
  end.
Proof.
  revert s h. induction p as [a | e | k IH | s' k IH | c k IH]; intros s h; simpl.
  - rewrite app_nil_r. symmetry. apply outcome_eta.
  - reflexivity.
  - apply IH.
  - apply IH.
  - destruct (raised env h c) as [e |]; simpl; [reflexivity |].
    rewrite IH.
    destruct (completion (live env touch (k (result_of c)) (touch h c s)
                               (h ++ [c]))); simpl;
      rewrite <- ?app_assoc; reflexivity.
Qed.

Lemma touched_app (touch : Touch S) h t t' s :
  touched touch h (t ++ t') s = touched touch (h ++ t) t' (touched touch h t s).
Proof.
  revert h s. induction t as [| c t IH]; intros h s; simpl.
  - rewrite app_nil_r. reflexivity.
  - rewrite IH, <- app_assoc. reflexivity.
Qed.

(** A method that writes nothing leaves the receiver as its calls have
    left it. *)
Lemma live_writesNothing A (env : Env) (touch : Touch S) (p : Prog S A) s h :
  writesNothing p ->
  final (live env touch p s h) = touched touch h (trace (live env touch p s h)) s.
Proof.
  revert s h.
  induction p as [a | e | k IH | s' k IH | c k IH]; intros s h Hp; simpl in *;
    auto; try contradiction.
  destruct (raised env h c); simpl; auto.
Qed.

Lemma live_throwsNothing A (env : Env) (touch : Touch S) (p : Prog S A) s h :
  quiet env -> throwsNothing p ->
  exists a, completion (live env touch p s h) = Normal a.
Proof.
  intros Hq. revert s h.
  induction p as [a | e | k IH | s' k IH | c k IH]; intros s h Hp; simpl in *;
    eauto; try contradiction.
  rewrite (raised_quiet h c Hq). simpl. auto.
Qed.

Lemma live_callsOnly A (P : Call -> Prop) (env : Env) (touch : Touch S)
  (p : Prog S A) s h c :
  callsOnly P p -> In c (trace (live env touch p s h)) -> P c.
Proof.
  revert s h.
  induction p as [a | e | k IH | s' k IH | c' k IH]; intros s h Hp; simpl in *;
    try tauto; eauto.
  destruct Hp as (Hc & Hk).
  destruct (raised env h c'); simpl; intros [<- | Hin]; eauto. destruct Hin.
Qed.

Lemma writesNothing_bind A B (p : Prog S A) (f : A -> Prog S B) :
  writesNothing p -> (forall a, writesNothing (f a)) -> writesNothing (bind p f).
Proof.
  intros Hp Hf.
  induction p as [a | e | k IH | s' k IH | c k IH]; simpl in *; auto.
Qed.

Lemma throwsNothing_bind A B (p : Prog S A) (f : A -> Prog S B) :
  throwsNothing p -> (forall a, throwsNothing (f a)) -> throwsNothing (bind p f).
Proof.
  intros Hp Hf.
  induction p as [a | e | k IH | s' k IH | c k IH]; simpl in *; auto.
Qed.

Lemma callsOnly_bind A B (P : Call -> Prop) (p : Prog S A) (f : A -> Prog S B) :
  callsOnly P p -> (forall a, callsOnly P (f a)) -> callsOnly P (bind p f).
Proof.
  intros Hp Hf.
  induction p as [a | e | k IH | s' k IH | c k IH]; simpl in *; auto.
  destruct Hp; auto.
Qed.

(** A method that makes no call runs as among subscribers that leave
    the receiver alone. *)
Lemma live_noCalls A (env : Env) (touch : Touch S) (p : Prog S A) s h :
  callsOnly (fun _ => False) p -> live env touch p s h = run env p s h.
Proof.
  revert s h.
  induction p as [a | e | k IH | s' k IH | c k IH]; intros s h Hp; simpl in *;
    auto.
  destruct Hp as ([] & _).
Qed.

(** The first part of a sequence, when it writes and throws nothing of
    its own and nobody throws: the rest runs on the receiver as the calls
    of the first part have left it. *)
Lemma live_then A B (env : Env) (touch : Touch S) (p : Prog S A)
  (f : A -> Prog S B) s h :
  quiet env -> writesNothing p -> throwsNothing p ->
  exists a,
    let t := trace (live env touch p s h) in
    let r := live env touch (f a) (touched touch h t s) (h ++ t) in
    live env touch (bind p f) s h =
    mkOutcome (final r) (t ++ trace r) (completion r).
Proof.
  intros Hq Hw Ht.
  destruct (live_throwsNothing touch p s h Hq Ht) as [a Ha].
  exists a. cbv zeta. rewrite live_bind, Ha. cbv zeta.
  rewrite (live_writesNothing env touch p s h Hw). reflexivity.
Qed.

End Runs.

(** ** Transport lifecycle *)

Section Lifecycle.

Context {Polling WebHook D : Type} `{T : Transports Polling WebHook D}.

Lemma run_hasOpenWebHook (env : Env) (this : Bot) h :
  run env hasOpenWebHook this h =
  mkOutcome this []
    (Normal match _webHook this with
            | Some w => webHook_isOpen w
            | None => false
            end).
Proof. unfold hasOpenWebHook. simpl. destruct (_webHook this); reflexivity. Qed.

Lemma run_isPolling (env : Env) (this : Bot) h :
  run env isPolling this h =
  mkOutcome this []
    (Normal match _polling this with
            | Some p => polling_isPolling p
            | None => false
            end).
Proof. unfold isPolling. simpl. destruct (_polling this); reflexivity. Qed.

(** C1.  On every bot, [startPolling] called while [hasOpenWebHook()]
    returns [true] returns a promise rejected with the [FatalError]
    "Polling and WebHook are mutually exclusive" and leaves the bot, hence
    its webhook, as it was; and [openWebHook] called while [isPolling()]
    returns [true] returns a promise rejected with the [FatalError]
    "WebHook and Polling are mutually exclusive" and leaves the bot, hence
    its polling engine, as it was.  Neither makes a call. *)
Theorem transports_mutually_exclusive (env : Env) (this : Bot) (h : list Call) :
  (completion (run env hasOpenWebHook this h) = Normal true ->
   forall options0,
     run env (startPolling options0) this h =
     mkOutcome this []
       (Normal (PromiseReject
          (Errors.FatalError (inr "Polling and WebHook are mutually exclusive")))))
  /\
  (completion (run env isPolling this h) = Normal true ->
   run env openWebHook this h =
   mkOutcome this []
     (Normal (PromiseReject
        (Errors.FatalError (inr "WebHook and Polling are mutually exclusive"))))).
Proof.
  split.
  - rewrite run_hasOpenWebHook. simpl. intros [= Hopen] options0.
    unfold startPolling, hasOpenWebHook. simpl.
    destruct (_webHook this) as [w |]; [| discriminate].
    simpl. rewrite Hopen. reflexivity.
  - rewrite run_isPolling. simpl. intros [= Hpoll].
    unfold openWebHook, isPolling. simpl.
    destruct (_polling this) as [p |]; [| discriminate].
    simpl. rewrite Hpoll. reflexivity.
Qed.

End Lifecycle.

(** On a bot with an open webhook [startPolling] is rejected with code
    [EFATAL], and on a polling bot [openWebHook] is. *)
Lemma transports_mutually_exclusive_witness :
  (let this : Sample.FlagBot := mkBot "t" (Sample.options0 JUndefined) [] [] 0 None (Some true) in
   run calm (startPolling (mkStartOptions None)) this [] =
   mkOutcome this []
     (Normal (PromiseReject
        (Errors.mkBaseError "EFATAL"
           "EFATAL: Polling and WebHook are mutually exclusive" None))))
  /\
  (let this : Sample.FlagBot := mkBot "t" (Sample.options0 JUndefined) [] [] 0 (Some true) None in
   run calm openWebHook this [] =
   mkOutcome this []
     (Normal (PromiseReject
        (Errors.mkBaseError "EFATAL"
           "EFATAL: WebHook and Polling are mutually exclusive" None)))).
Proof.
  split.
  - exact (proj1 (transports_mutually_exclusive calm
             (mkBot "t" (Sample.options0 JUndefined) [] [] 0 None (Some true)) [])
             eq_refl (mkStartOptions None)).
  - exact (proj2 (transports_mutually_exclusive calm
             (mkBot "t" (Sample.options0 JUndefined) [] [] 0 (Some true) None) [])
             eq_refl).
Defined.

(** ** Dispatch: the calm run of each block *)

Section Dispatch.

Context {Polling WebHook : Type}.

Implicit Types (this : @Bot Polling WebHook) (h : list Call).

Lemma truthy_not_nullish v : truthy v = true -> nullish v = false.
Proof. destruct v; simpl; congruence. Qed.

Lemma run_emit (env : Env) event payload this h :
  quiet env ->
  run env (emit event payload) this h =
  mkOutcome this [Emit event payload] (Normal tt).
Proof. intros Hq. unfold emit. simpl. unfold raised. simpl. rewrite Hq. reflexivity. Qed.

Lemma run_processMessageType message messageType this h :
  nullish message = false ->
  run calm (processMessageType message messageType) this h =
  mkOutcome this
    (if truthy (member message messageType) then [Emit messageType message]
     else [])
    (Normal tt).
Proof.
  intros Hm. unfold processMessageType, get. rewrite Hm. cbn [bind].
  destruct (truthy (member message messageType)); reflexivity.
Qed.

Lemma run_types message types this h :
  nullish message = false ->
  run calm (forEach (processMessageType message) types) this h =
  mkOutcome this
    (map (fun messageType => Emit messageType message)
         (filter (fun messageType => truthy (member message messageType)) types))
    (Normal tt).
Proof.
  intros Hm. revert h. induction types as [| t types IH]; intros h.
  - reflexivity.
  - cbn [forEach]. rewrite run_bind, run_processMessageType by exact Hm.
    cbn [completion final trace filter]. rewrite IH.
    destruct (truthy (member message t)); reflexivity.
Qed.

Lemma run_matchText message reg this h :
  nullish message = false ->
  run calm (matchText message reg) this h =
  mkOutcome this
    (Exec (regexp reg) (member message "text") ::
     (if matches (member message "text") reg then
        [TextCallback (text_callback reg) message
           (exec (regexp reg) (member message "text"))]
      else []))
    (Normal (if matches (member message "text") reg
             then onlyFirstMatch (options this) else JBool false)).
Proof.
  intros Hm. unfold matchText, get, matches. rewrite Hm. cbn.
  destruct (truthy (exec (regexp reg) (member message "text"))); reflexivity.
Qed.

Lemma skipn_nth A (l : list A) k x :
  nth_error l k = Some x -> skipn k l = x :: skipn (S k) l.
Proof.
  revert k. induction l as [| y l IH]; intros [| k]; simpl; try discriminate.
  - intros [= ->]. reflexivity.
  - intros Hk. exact (IH k Hk).
Qed.

Lemma skipn_none A (l : list A) k :
  nth_error l k = None -> skipn k l = [] /\ nth_error l (S k) = None.
Proof.
  intros Hk. apply nth_error_None in Hk. split.
  - apply skipn_all2. exact Hk.
  - apply nth_error_None. lia.
Qed.

Lemma run_some_matchText message this h index count :
  nullish message = false ->
  let l := firstn count (skipn index (_textRegexpCallbacks this)) in
  run calm (someFrom _textRegexpCallbacks (matchText message) index count) this h =
  mkOutcome this
    (textCalls (truthy (onlyFirstMatch (options this))) message
               (member message "text") l)
    (Normal (truthy (onlyFirstMatch (options this))
             && existsb (matches (member message "text")) l)).
Proof.
  intros Hm. cbv zeta. revert h index.
  induction count as [| count IH]; intros h index.
  - cbn. rewrite andb_false_r. reflexivity.
  - cbn [someFrom getThis bind run].
    destruct (nth_error (_textRegexpCallbacks this) index) as [reg |] eqn:Hk.
    + rewrite (skipn_nth _ _ Hk). cbn [firstn textCalls existsb].
      rewrite run_bind, run_matchText by exact Hm.
      cbn [completion final trace].
      destruct (matches (member message "text") reg).
      * destruct (truthy (onlyFirstMatch (options this))) eqn:Hfirst.
        -- reflexivity.
        -- rewrite IH. reflexivity.
      * cbn [truthy]. rewrite IH. reflexivity.
    + destruct (skipn_none _ _ Hk) as (Hnil & _). rewrite Hnil.
      cbn [bind truthy]. rewrite IH.
      apply nth_error_None in Hk.
      rewrite skipn_all2 by lia.
      destruct count; cbn; rewrite andb_false_r; reflexivity.
Qed.

Lemma run_matchReply message reply this h :
  nullish message = false ->
  nullish (member message "chat") = false ->
  truthy (member message "reply_to_message") = true ->
  run calm (matchReply message reply) this h =
  mkOutcome this
    (if awaits message reply then [ReplyCallback (callback reply) message] else [])
    (Normal tt).
Proof.
  intros Hm Hc Hr. unfold matchReply, get, awaits.
  rewrite Hm. cbn [bind]. rewrite Hc. cbn [bind].
  destruct (strict_eq (chatId reply) (member (member message "chat") "id"));
    [| reflexivity].
  cbn [bind andb]. rewrite (truthy_not_nullish _ Hr). cbn [bind].
  destruct (strict_eq (messageId reply)
              (member (member message "reply_to_message") "message_id"));
    reflexivity.
Qed.

Lemma run_matchReply_nochat (env : Env) message reply this h :
  nullish message = false ->
  nullish (member message "chat") = true ->
  run env (matchReply message reply) this h =
  mkOutcome this [] (Abrupt (TypeError "id")).
Proof.
  intros Hm Hc. unfold matchReply, get.
  rewrite Hm. cbn [bind]. rewrite Hc. reflexivity.
Qed.

Lemma run_forEach_matchReply message this h index count :
  nullish message = false ->
  truthy (member message "reply_to_message") = true ->
  let l := firstn count (skipn index (_replyListeners this)) in
  run calm (forEachFrom _replyListeners (matchReply message) index count) this h =
  mkOutcome this (replyCalls message l) (replyEnd message l).
Proof.
  intros Hm Hr. cbv zeta. unfold replyCalls, replyEnd.
  revert h index. induction count as [| count IH]; intros h index.
  - cbn. destruct (nullish (member message "chat")); reflexivity.
  - cbn [forEachFrom getThis bind run].
    destruct (nth_error (_replyListeners this) index) as [reply |] eqn:Hk.
    + rewrite (skipn_nth _ _ Hk). cbn [firstn].
      destruct (nullish (member message "chat")) eqn:Hc.
      * rewrite run_bind, run_matchReply_nochat by assumption. reflexivity.
      * rewrite run_bind, run_matchReply by assumption.
        cbn [completion final trace filter map]. rewrite IH.
        cbn [completion final trace].
        destruct (awaits message reply);
          destruct (firstn count (skipn (S index) (_replyListeners this)));
          reflexivity.
    + cbn [bind]. rewrite IH.
      apply nth_error_None in Hk.
      rewrite !skipn_all2 by lia.
      destruct count; cbn; destruct (nullish (member message "chat"));
        reflexivity.
Qed.

Lemma run_textBlock message this h :
  nullish message = false ->
  run calm
    (if truthy (member message "text") then
       someOf _textRegexpCallbacks (matchText message) ;;
       Ret tt
     else Ret tt) this h =
  mkOutcome this
    (if truthy (member message "text") then
       textCalls (truthy (onlyFirstMatch (options this))) message
                 (member message "text") (_textRegexpCallbacks this)
     else [])
    (Normal tt).
Proof.
  intros Hm. destruct (truthy (member message "text")); [| reflexivity].
  unfold someOf. cbn [getThis bind run].
  rewrite run_bind, run_some_matchText by exact Hm.
  cbn [completion final trace run skipn]. rewrite firstn_all, app_nil_r.
  reflexivity.
Qed.

Lemma run_replyBlock message this h :
  nullish message = false ->
  run calm
    (if truthy (member message "reply_to_message") then
       forEachOf _replyListeners (matchReply message)
     else Ret tt) this h =
  mkOutcome this
    (if truthy (member message "reply_to_message") then
       replyCalls message (_replyListeners this)
     else [])
    (messageEnd this message).
Proof.
  intros Hm. unfold messageEnd.
  destruct (truthy (member message "reply_to_message")) eqn:Hr; [| reflexivity].
  unfold forEachOf. cbn [getThis bind run].
  rewrite run_forEach_matchReply by assumption.
  cbn [skipn]. rewrite firstn_all. reflexivity.
Qed.

Lemma run_onMessage message this h :
  truthy message = true ->
  run calm (onMessage message) this h =
  mkOutcome this (messageCalls this message) (messageEnd this message).
Proof.
  intros Ht. pose proof (truthy_not_nullish _ Ht) as Hm.
  unfold onMessage, messageCalls, typeCalls.
  rewrite run_bind, (run_emit (env := calm)) by (intros ? ?; reflexivity).
  cbn [completion final trace].
  rewrite run_bind, run_types by exact Hm.
  cbn [completion final trace].
  unfold get. rewrite Hm. cbn [bind].
  rewrite run_bind, run_textBlock by exact Hm.
  cbn [completion final trace].
  rewrite run_replyBlock by exact Hm.
  cbn [completion final trace]. reflexivity.
Qed.

Lemma run_edited (env : Env) payload this h :
  quiet env -> truthy payload = true ->
  run env (onEditedMessage payload) this h =
  mkOutcome this
    (editedCalls "edited_message" "edited_message_text"
                 "edited_message_caption" payload)
    (Normal tt)
  /\ run env (onEditedChannelPost payload) this h =
     mkOutcome this
       (editedCalls "edited_channel_post" "edited_channel_post_text"
                    "edited_channel_post_caption" payload)
       (Normal tt).
Proof.
  intros Hq Ht. pose proof (truthy_not_nullish _ Ht) as Hm.
  unfold onEditedMessage, onEditedChannelPost, editedCalls, get, emit.
  rewrite Hm. cbn. unfold raised. cbn. rewrite !Hq.
  destruct (truthy (member payload "text")),
           (truthy (member payload "caption")); cbn; unfold raised; cbn;
    rewrite ?Hq; cbn; unfold raised; cbn; rewrite ?Hq; split; reflexivity.
Qed.

End Dispatch.

(** ** Dispatch among calls that change the bot *)

Section LiveDispatch.

Context {Polling WebHook : Type}.

Implicit Types (this : @Bot Polling WebHook) (h : list Call).

Lemma writesNothing_get o k : writesNothing (@get Polling WebHook o k).
Proof. unfold get. destruct (nullish o); exact Logic.I. Qed.

Lemma callsOnly_get (P : Call -> Prop) o k : callsOnly P (@get Polling WebHook o k).
Proof. unfold get. destruct (nullish o); exact Logic.I. Qed.

Lemma throwsNothing_get o k :
  nullish o = false -> throwsNothing (@get Polling WebHook o k).
Proof. intros Ho. unfold get. rewrite Ho. exact Logic.I. Qed.

Lemma writesNothing_forEach A (f : A -> @M Polling WebHook unit) l :
  (forall x, writesNothing (f x)) -> writesNothing (forEach f l).
Proof.
  intros Hf. induction l as [| x l IH]; [exact Logic.I |].
  cbn [forEach]. apply writesNothing_bind; auto.
Qed.

Lemma throwsNothing_forEach A (f : A -> @M Polling WebHook unit) l :
  (forall x, throwsNothing (f x)) -> throwsNothing (forEach f l).
Proof.
  intros Hf. induction l as [| x l IH]; [exact Logic.I |].
  cbn [forEach]. apply throwsNothing_bind; auto.
Qed.

Lemma callsOnly_forEach A (P : Call -> Prop) (f : A -> @M Polling WebHook unit) l :
  (forall x, In x l -> callsOnly P (f x)) -> callsOnly P (forEach f l).
Proof.
  induction l as [| x l IH]; intros Hf; [exact Logic.I |].
  cbn [forEach]. apply callsOnly_bind.
  - apply Hf. left. reflexivity.
  - intros _. apply IH. intros y Hy. apply Hf. right. exact Hy.
Qed.

Lemma writesNothing_forEachFrom A (array : @Bot Polling WebHook -> list A)
  (f : A -> @M Polling WebHook unit) index count :
  (forall x, writesNothing (f x)) ->
  writesNothing (forEachFrom array f index count).
Proof.
  intros Hf. revert index. induction count as [| count IH]; intros index;
    [exact Logic.I |].
  cbn [forEachFrom getThis bind writesNothing]. intros s.
  apply writesNothing_bind; [| intros _; apply IH].
  destruct (nth_error (array s) index); [apply Hf | exact Logic.I].
Qed.

Lemma callsOnly_forEachFrom A (P : Call -> Prop)
  (array : @Bot Polling WebHook -> list A)
  (f : A -> @M Polling WebHook unit) index count :
  (forall x, callsOnly P (f x)) ->
  callsOnly P (forEachFrom array f index count).
Proof.
  intros Hf. revert index. induction count as [| count IH]; intros index;
    [exact Logic.I |].
  cbn [forEachFrom getThis bind callsOnly]. intros s.
  apply callsOnly_bind; [| intros _; apply IH].
  destruct (nth_error (array s) index); [apply Hf | exact Logic.I].
Qed.

Lemma writesNothing_someFrom A (array : @Bot Polling WebHook -> list A)
  (f : A -> @M Polling WebHook JsVal) index count :
  (forall x, writesNothing (f x)) ->
  writesNothing (someFrom array f index count).
Proof.
  intros Hf. revert index. induction count as [| count IH]; intros index;
    [exact Logic.I |].
  cbn [someFrom getThis bind writesNothing]. intros s.
  apply writesNothing_bind.
  - destruct (nth_error (array s) index); [apply Hf | exact Logic.I].
  - intros v. destruct (truthy v); [exact Logic.I | apply IH].
Qed.

Lemma throwsNothing_someFrom A (array : @Bot Polling WebHook -> list A)
  (f : A -> @M Polling WebHook JsVal) index count :
  (forall x, throwsNothing (f x)) ->
  throwsNothing (someFrom array f index count).
Proof.
  intros Hf. revert index. induction count as [| count IH]; intros index;
    [exact Logic.I |].
  cbn [someFrom getThis bind throwsNothing]. intros s.
  apply throwsNothing_bind.
  - destruct (nth_error (array s) index); [apply Hf | exact Logic.I].
  - intros v. destruct (truthy v); [exact Logic.I | apply IH].
Qed.

Lemma callsOnly_someFrom A (P : Call -> Prop)
  (array : @Bot Polling WebHook -> list A)
  (f : A -> @M Polling WebHook JsVal) index count :
  (forall x, callsOnly P (f x)) ->
  callsOnly P (someFrom array f index count).
Proof.
  intros Hf. revert index. induction count as [| count IH]; intros index;
    [exact Logic.I |].
  cbn [someFrom getThis bind callsOnly]. intros s.
  apply callsOnly_bind.
  - destruct (nth_error (array s) index); [apply Hf | exact Logic.I].
  - intros v. destruct (truthy v); [exact Logic.I | apply IH].
Qed.

End LiveDispatch.

Ltac shape_step :=
  match goal with
  | |- writesNothing (bind getThis _) => cbn [bind getThis writesNothing]; intros ?
  | |- throwsNothing (bind getThis _) => cbn [bind getThis throwsNothing]; intros ?
  | |- callsOnly _ (bind getThis _) => cbn [bind getThis callsOnly]; intros ?
  | |- writesNothing (bind _ _) => apply writesNothing_bind; [| intros ?]
  | |- throwsNothing (bind _ _) => apply throwsNothing_bind; [| intros ?]
  | |- callsOnly _ (bind _ _) => apply callsOnly_bind; [| intros ?]
  | |- writesNothing (get _ _) => apply writesNothing_get
  | |- throwsNothing (get _ _) => apply throwsNothing_get; assumption
  | |- callsOnly _ (get _ _) => apply callsOnly_get
  | |- writesNothing (forEach _ _) => apply writesNothing_forEach; intros ?
  | |- throwsNothing (forEach _ _) => apply throwsNothing_forEach; intros ?
  | |- callsOnly _ (forEach _ _) => apply callsOnly_forEach; intros ? ?
  | |- writesNothing (forEachFrom _ _ _ _) =>
      apply writesNothing_forEachFrom; intros ?
  | |- callsOnly _ (forEachFrom _ _ _ _) =>
      apply callsOnly_forEachFrom; intros ?
  | |- writesNothing (someFrom _ _ _ _) => apply writesNothing_someFrom; intros ?
  | |- throwsNothing (someFrom _ _ _ _) => apply throwsNothing_someFrom; intros ?
  | |- callsOnly _ (someFrom _ _ _ _) => apply callsOnly_someFrom; intros ?
  | |- writesNothing (emit _ _) => exact (fun _ => Logic.I)
  | |- throwsNothing (emit _ _) => exact (fun _ => Logic.I)
  | |- callsOnly _ (emit _ _) => split; [| exact (fun _ => Logic.I)]
  | |- writesNothing (Do _ _) => cbn [writesNothing]; intros ?
  | |- throwsNothing (Do _ _) => cbn [throwsNothing]; intros ?
  | |- callsOnly _ (Do _ _) => cbn [callsOnly]; split; [| intros ?]
  | |- writesNothing (Ret _) => exact Logic.I
  | |- throwsNothing (Ret _) => exact Logic.I
  | |- callsOnly _ (Ret _) => exact Logic.I
  | |- writesNothing (if ?b then _ else _) => destruct b
  | |- throwsNothing (if ?b then _ else _) => destruct b
  | |- callsOnly _ (if ?b then _ else _) => destruct b
  | |- _ -> True => exact (fun _ => Logic.I)
  | |- True => exact Logic.I
  end.

(** ** Dispatch: which block runs *)

Section Classification.

Context {Polling WebHook : Type}.

Implicit Types (this : @Bot Polling WebHook) (h : list Call).

Lemma truthy_member_not_nullish update k :
  truthy (member update k) = true -> nullish update = false.
Proof. destruct update; simpl; congruence. Qed.

Lemma firstPopulated_not_nullish update fields r :
  firstPopulated update fields = Some r -> nullish update = false.
Proof.
  induction fields as [| k fields IH]; simpl; [discriminate |].
  destruct (truthy (member update k)) eqn:Hk; [| exact IH].
  intros _. exact (truthy_member_not_nullish _ _ Hk).
Qed.

Lemma firstPopulated_truthy update fields variant payload :
  firstPopulated update fields = Some (variant, payload) ->
  truthy payload = true /\ In variant fields /\ payload = member update variant.
Proof.
  induction fields as [| k fields IH]; simpl; [discriminate |].
  destruct (truthy (member update k)) eqn:Hk.
  - intros [= <- <-]. auto.
  - intros Hf. destruct (IH Hf) as (? & ? & ?). auto.
Qed.

(** The chain of [if]s runs the block of the first populated field. *)
Lemma processUpdate_branch update variant payload :
  firstPopulated update variants = Some (variant, payload) ->
  @processUpdate Polling WebHook update = branch variant payload.
Proof.
  intros Hf. pose proof (firstPopulated_not_nullish _ _ Hf) as Hn.
  unfold processUpdate, get. rewrite Hn. cbn [bind].
  unfold variants in Hf. cbn [firstPopulated] in Hf.
  repeat match type of Hf with
         | (if truthy ?v then _ else _) = _ =>
             destruct (truthy v);
             [injection Hf as <- <-; reflexivity |]
         end.
  discriminate.
Qed.

Lemma processUpdate_none update :
  nullish update = false ->
  firstPopulated update variants = None ->
  @processUpdate Polling WebHook update = Ret tt.
Proof.
  intros Hn Hf. unfold processUpdate, get. rewrite Hn. cbn [bind].
  unfold variants in Hf. cbn [firstPopulated] in Hf.
  repeat match type of Hf with
         | (if truthy ?v then _ else _) = _ =>
             destruct (truthy v); [discriminate |]
         end.
  reflexivity.
Qed.

Lemma run_branch variant payload this h :
  truthy payload = true ->
  run calm (branch variant payload) this h =
  mkOutcome this (branchCalls this variant payload)
            (branchEnd this variant payload).
Proof.
  intros Ht. unfold branch, branchCalls, branchEnd.
  destruct (variant =? "message")%string; [apply run_onMessage; exact Ht |].
  destruct (variant =? "edited_message")%string.
  { apply run_edited; [intros ? ?; reflexivity | exact Ht]. }
  destruct (variant =? "channel_post")%string; [reflexivity |].
  destruct (variant =? "edited_channel_post")%string; [| reflexivity].
  apply run_edited; [intros ? ?; reflexivity | exact Ht].
Qed.

Lemma in_textCalls first message text l c :
  In c (textCalls first message text l) ->
  (exists re, c = Exec re text) \/ (exists cb result, c = TextCallback cb message result).
Proof.
  induction l as [| reg l IH]; simpl; [tauto |].
  intros [<- | Hin]; [left; eauto |].
  destruct (matches text reg); [| auto].
  destruct Hin as [<- | Hin]; [right; eauto |].
  destruct first; [destruct Hin | auto].
Qed.

Lemma in_replyCalls message l c :
  In c (replyCalls message l) -> exists cb, c = ReplyCallback cb message.
Proof.
  unfold replyCalls. destruct (nullish (member message "chat")); [intros [] |].
  rewrite in_map_iff. intros (reply & <- & _). eauto.
Qed.

Lemma in_typeCalls message c :
  In c (typeCalls message) ->
  exists messageType,
    c = Emit messageType message /\ In messageType _messageTypes
    /\ truthy (member message messageType) = true.
Proof.
  unfold typeCalls. rewrite in_map_iff. intros (t & <- & Hin).
  apply filter_In in Hin. exists t. tauto.
Qed.

Lemma in_editedCalls event event_text event_caption payload c :
  In c (editedCalls event event_text event_caption payload) ->
  c = Emit event payload \/ c = Emit event_text payload
  \/ c = Emit event_caption payload.
Proof.
  unfold editedCalls. rewrite in_app_iff. simpl.
  destruct (truthy (member payload "text")),
           (truthy (member payload "caption")); simpl; intuition auto.
Qed.

(** Every call of a block hands over the payload of its variant, and
    every notification is one of that variant. *)
Lemma branchCalls_owned this variant payload c :
  In variant variants ->
  In c (branchCalls this variant payload) ->
  (forall p, payload_of c = Some p -> p = payload)
  /\ (forall event p, c = Emit event p -> In event (notifications variant)).
Proof.
  intros Hv Hc. unfold variants in Hv. simpl in Hv.
  destruct Hv as [<- | [<- | [<- | [<- | [<- | [<- | [<- | []]]]]]]];
    unfold branchCalls in Hc; cbn [String.eqb Ascii.eqb Bool.eqb] in Hc.
  - unfold messageCalls in Hc. rewrite !in_app_iff in Hc.
    destruct Hc as [[<- | Hc] | [Hc | Hc]].
    + split; [intros p [= <-]; reflexivity | intros event p [= <- <-]; cbn; auto].
    + apply in_typeCalls in Hc. destruct Hc as (t & -> & Ht & _).
      split; [intros p [= <-]; reflexivity |].
      intros event p [= <- <-]. right. exact Ht.
    + destruct (truthy (member payload "text")); [| destruct Hc].
      apply in_textCalls in Hc. destruct Hc as [[re ->] | (cb & result & ->)].
      * split; [discriminate | discriminate].
      * split; [intros p [= <-]; reflexivity | discriminate].
    + destruct (truthy (member payload "reply_to_message")); [| destruct Hc].
      apply in_replyCalls in Hc. destruct Hc as [cb ->].
      split; [intros p [= <-]; reflexivity | discriminate].
  - apply in_editedCalls in Hc. destruct Hc as [-> | [-> | ->]];
      (split; [intros p [= <-]; reflexivity | intros event p [= <- <-]; cbn; auto]).
  - destruct Hc as [<- | []].
    split; [intros p [= <-]; reflexivity | intros event p [= <- <-]; cbn; auto].
  - apply in_editedCalls in Hc. destruct Hc as [-> | [-> | ->]];
      (split; [intros p [= <-]; reflexivity | intros event p [= <- <-]; cbn; auto]).
  - destruct Hc as [<- | []].
    split; [intros p [= <-]; reflexivity | intros event p [= <- <-]; cbn; auto].
  - destruct Hc as [<- | []].
    split; [intros p [= <-]; reflexivity | intros event p [= <- <-]; cbn; auto].
  - destruct Hc as [<- | []].
    split; [intros p [= <-]; reflexivity | intros event p [= <- <-]; cbn; auto].
Qed.

(** What is called among any subscribers is called among calm ones. *)
Lemma in_trace_calm A (env : Env) (p : @M Polling WebHook A) this h c :
  In c (trace (run env p this h)) -> In c (trace (run calm p this h)).
Proof.
  destruct (run_cut env p this h) as (Ht & _).
  destruct (cut_prefix env h (trace (run calm p this h))) as [rest Hrest].
  rewrite Ht. intros Hin. rewrite Hrest. apply in_or_app. left. exact Hin.
Qed.

(** Every call that a block can make hands over the payload of its
    variant, and every notification is one of that variant: by the shape
    of the block, whatever the calls do to the bot. *)
Lemma callsOnly_branch variant payload :
  In variant variants ->
  callsOnly
    (fun c => (forall p, payload_of c = Some p -> p = payload)
              /\ (forall event p, c = Emit event p ->
                               In event (notifications variant)))
    (@branch Polling WebHook variant payload).
Proof.
  intros Hv. unfold variants in Hv. simpl in Hv.
  destruct Hv as [<- | [<- | [<- | [<- | [<- | [<- | [<- | []]]]]]]];
    unfold branch; cbn [String.eqb Ascii.eqb Bool.eqb];
    unfold onMessage, onEditedMessage, onChannelPost, onEditedChannelPost,
      processMessageType, matchText, matchReply, someOf, forEachOf;
    repeat shape_step;
    (split;
     [intros p0 Hp; cbn in Hp; try discriminate Hp; injection Hp as <-;
      reflexivity
     | intros event p0 He; try discriminate He; injection He as <- <-;
       first [right; assumption | cbn; auto]]).
Qed.

(** Every block begins with the notification of its variant. *)
Lemma live_branch_head (env : Env) (touch : Touch (@Bot Polling WebHook))
  variant payload this h :
  exists rest,
    trace (live env touch (branch variant payload) this h)
    = Emit variant payload :: rest.
Proof.
  unfold branch.
  destruct (String.eqb_spec variant "message") as [-> | _].
  { unfold onMessage, emit. cbn [bind live].
    destruct (raised env h (Emit "message" payload)); eexists; reflexivity. }
  destruct (String.eqb_spec variant "edited_message") as [-> | _].
  { unfold onEditedMessage, emit. cbn [bind live].
    destruct (raised env h (Emit "edited_message" payload)); eexists;
      reflexivity. }
  destruct (String.eqb_spec variant "channel_post") as [-> | _].
  { unfold onChannelPost, emit. cbn [bind live].
    destruct (raised env h (Emit "channel_post" payload)); eexists;
      reflexivity. }
  destruct (String.eqb_spec variant "edited_channel_post") as [-> | _].
  { unfold onEditedChannelPost, emit. cbn [bind live].
    destruct (raised env h (Emit "edited_channel_post" payload)); eexists;
      reflexivity. }
  unfold emit. cbn [live].
  destruct (raised env h (Emit variant payload)); eexists; reflexivity.
Qed.

(** C3.  For every update, the variant fields are inspected in the order
    message, edited_message, channel_post, edited_channel_post,
    inline_query, chosen_inline_result, callback_query.  When [variant]
    is the first populated one, with payload [payload], then among any
    subscribers, whatever they throw and whatever they do to the bot:
    [processUpdate] runs the block of that variant; its first call is the
    notification [variant], with [payload]; every call it makes hands
    over [payload] and every notification it emits is one of [variant];
    and the other fields of the update have no part in the outcome, which
    is that of any update with the same first populated variant and
    payload. *)
Theorem first_populated_variant_wins (env : Env)
  (touch : Touch (@Bot Polling WebHook)) this h update variant payload :
  firstPopulated update variants = Some (variant, payload) ->
  let r := live env touch (processUpdate update) this h in
  r = live env touch (branch variant payload) this h
  /\ (exists rest, trace r = Emit variant payload :: rest)
  /\ (forall c, In c (trace r) ->
        (forall p, payload_of c = Some p -> p = payload)
        /\ (forall event p, c = Emit event p ->
            In event (notifications variant)))
  /\ (forall update',
        firstPopulated update' variants = Some (variant, payload) ->
        live env touch (processUpdate update') this h = r).
Proof.
  intros Hf r. subst r. rewrite (processUpdate_branch _ Hf).
  destruct (firstPopulated_truthy _ _ Hf) as (Ht & Hv & _).
  split; [reflexivity |]. split; [apply live_branch_head |]. split.
  - intros c Hc.
    exact (live_callsOnly _ env touch _ this h c (callsOnly_branch payload Hv) Hc).
  - intros update' Hf'. rewrite (processUpdate_branch _ Hf'). reflexivity.
Qed.

End Classification.

(** ** Dispatch of a message *)

Section Messages.

Context {Polling WebHook : Type}.

Implicit Types (this : @Bot Polling WebHook) (h : list Call).

Lemma filter_none A (f : A -> bool) (l : list A) :
  (forall x, In x l -> f x = false) -> filter f l = [].
Proof.
  induction l as [| x l IH]; simpl; [reflexivity |].
  intros Hl. rewrite (Hl x) by auto. apply IH. auto.
Qed.

Lemma filter_all A (f : A -> bool) (l : list A) :
  (forall x, In x l -> f x = true) -> filter f l = l.
Proof.
  induction l as [| x l IH]; simpl; [reflexivity |].
  intros Hl. rewrite (Hl x) by auto. f_equal. apply IH. auto.
Qed.

Lemma filter_prefix_nil A (f : A -> bool) (l l' : list A) :
  filter f (l ++ l') = [] -> filter f l = [].
Proof.
  rewrite filter_app. intros Hf. apply app_eq_nil in Hf. tauto.
Qed.

Lemma firstPopulated_message update :
  truthy (member update "message") = true ->
  firstPopulated update variants = Some ("message", member update "message").
Proof. intros Ht. unfold variants. cbn [firstPopulated]. rewrite Ht. reflexivity. Qed.

(** The calm dispatch of a message. *)
Lemma run_processUpdate_message update this h :
  truthy (member update "message") = true ->
  run calm (processUpdate update) this h =
  mkOutcome this (messageCalls this (member update "message"))
            (messageEnd this (member update "message")).
Proof.
  intros Ht. rewrite (processUpdate_branch _ (firstPopulated_message _ Ht)).
  apply (run_branch "message"). exact Ht.
Qed.



Lemma filter_typeCalls (f : Call -> bool) message :
  (forall event, f (Emit event message) = false) ->
  filter f (typeCalls message) = [].
Proof.
  intros Hf. apply filter_none. intros c Hc.
  apply in_typeCalls in Hc. destruct Hc as (t & -> & _). apply Hf.
Qed.

Lemma filter_replyCalls (f : Call -> bool) message l :
  (forall cb, f (ReplyCallback cb message) = false) ->
  filter f (replyCalls message l) = [].
Proof.
  intros Hf. apply filter_none. intros c Hc.
  apply in_replyCalls in Hc. destruct Hc as (cb & ->). apply Hf.
Qed.

Lemma filter_textCalls (f : Call -> bool) first message text l :
  (forall re, f (Exec re text) = false) ->
  (forall cb result, f (TextCallback cb message result) = false) ->
  filter f (textCalls first message text l) = [].
Proof.
  intros He Hf. apply filter_none. intros c Hc.
  apply in_textCalls in Hc. destruct Hc as [[re ->] | (cb & result & ->)]; auto.
Qed.


Lemma replyEnd_chat message l :
  nullish (member message "chat") = false -> replyEnd message l = Normal tt.
Proof. intros Hc. unfold replyEnd. rewrite Hc. destruct l; reflexivity. Qed.

Lemma touched_addsOnly (touch : Touch (@Bot Polling WebHook)) h t this :
  addsOnly touch ->
  exists added,
    _replyListeners (touched touch h t this) = _replyListeners this ++ added.
Proof.
  intros Hadds. revert h this. induction t as [| c t IH]; intros h this.
  - exists []. symmetry. apply app_nil_r.
  - cbn [touched]. destruct (IH (h ++ [c]) (touch h c this)) as [added Ha].
    destruct (Hadds h c this) as [added0 Ha0].
    exists (added0 ++ added). rewrite Ha, Ha0, app_assoc. reflexivity.
Qed.

Lemma live_matchReply (env : Env) (touch : Touch (@Bot Polling WebHook))
  message reply this h :
  quiet env ->
  nullish message = false ->
  nullish (member message "chat") = false ->
  truthy (member message "reply_to_message") = true ->
  live env touch (matchReply message reply) this h =
  if awaits message reply then
    mkOutcome (touch h (ReplyCallback (callback reply) message) this)
              [ReplyCallback (callback reply) message] (Normal tt)
  else mkOutcome this [] (Normal tt).
Proof.
  intros Hq Hm Hc Hr. unfold matchReply, get, awaits.
  rewrite Hm. cbn [bind]. rewrite Hc. cbn [bind].
  destruct (strict_eq (chatId reply) (member (member message "chat") "id"));
    [| reflexivity].
  cbn [bind andb]. rewrite (truthy_not_nullish _ Hr). cbn [bind].
  destruct (strict_eq (messageId reply)
              (member (member message "reply_to_message") "message_id"));
    [| reflexivity].
  cbn [live]. rewrite (raised_quiet h _ Hq). reflexivity.
Qed.

(** The scan of a table to which the callbacks only add: the listeners
    visited are those the table held when the scan began. *)
Lemma live_replyScan_from (env : Env) (touch : Touch (@Bot Polling WebHook))
  message table count :
  quiet env -> addsOnly touch ->
  nullish message = false ->
  nullish (member message "chat") = false ->
  truthy (member message "reply_to_message") = true ->
  forall index this h extra,
    _replyListeners this = table ++ extra ->
    (index + count = List.length table)%nat ->
    let r := live env touch
               (forEachFrom _replyListeners (matchReply message) index count)
               this h in
    trace r = map (fun reply => ReplyCallback (callback reply) message)
                  (filter (awaits message) (skipn index table))
    /\ (exists added,
          _replyListeners (final r) = _replyListeners this ++ added)
    /\ completion r = Normal tt.
Proof.
  intros Hq Hadds Hm Hc Hr.
  induction count as [| count IH]; intros index this h extra Htable Hlen;
    cbv zeta.
  - cbn [forEachFrom live trace final completion].
    rewrite skipn_all2 by lia. split; [reflexivity |].
    split; [exists []; symmetry; apply app_nil_r | reflexivity].
  - cbn [forEachFrom getThis bind live].
    assert (Hlt : (index < List.length table)%nat) by lia.
    destruct (nth_error table index) as [x |] eqn:Hx;
      [| apply nth_error_None in Hx; lia].
    rewrite Htable, nth_error_app1, Hx by exact Hlt.
    rewrite (skipn_nth _ _ Hx). cbn [filter].
    rewrite live_bind, live_matchReply by assumption.
    destruct (awaits message x); cbn [completion final trace].
    + destruct (Hadds h (ReplyCallback (callback x) message) this)
        as [added Hadded].
      destruct (IH (S index)
                   (touch h (ReplyCallback (callback x) message) this)
                   (h ++ [ReplyCallback (callback x) message])
                   (extra ++ added)) as (H1 & (added' & H2) & H3).
      * rewrite Hadded, Htable, app_assoc. reflexivity.
      * lia.
      * cbv zeta in H1, H2, H3. cbn [map app]. rewrite H1, H3.
        split; [reflexivity |]. split; [| reflexivity].
        exists (added ++ added').
        rewrite H2, Hadded, Htable, <- !app_assoc. reflexivity.
    + destruct (IH (S index) this (h ++ []) extra Htable)
        as (H1 & H2 & H3); [lia |].
      cbv zeta in H1, H2, H3. cbn [app]. rewrite H1, H3.
      split; [reflexivity |]. split; [rewrite <- Htable; exact H2 | reflexivity].
Qed.

Lemma filter_isOther_replies message (l : list ReplyListener) :
  filter isOther
    (map (fun reply => ReplyCallback (callback reply) message) l) = [].
Proof. induction l as [| x l IH]; [reflexivity | exact IH]. Qed.

Lemma scans_forEachOf (env : Env) (touch : Touch (@Bot Polling WebHook))
  message this h :
  quiet env -> addsOnly touch ->
  nullish message = false ->
  nullish (member message "chat") = false ->
  truthy (member message "reply_to_message") = true ->
  scans touch message this h
    (live env touch (forEachOf _replyListeners (matchReply message)) this h).
Proof.
  intros Hq Hadds Hm Hc Hr. unfold forEachOf. cbn [getThis bind live].
  destruct (@live_replyScan_from env touch message (_replyListeners this)
              (List.length (_replyListeners this)) Hq Hadds Hm Hc Hr
              0%nat this h [])
    as (H1 & H2 & H3); [symmetry; apply app_nil_r | reflexivity |].
  cbv zeta in H1, H2, H3. cbn [skipn] in H1.
  unfold scans. rewrite H1, filter_isOther_replies. cbn [touched app].
  split; [reflexivity |]. split; [exact H2 | exact H3].
Qed.

(** A first part that writes and throws nothing of its own and makes no
    reply callback, before a part that ends with the scan. *)
Lemma scans_then A (env : Env) (touch : Touch (@Bot Polling WebHook))
  message (p : @M Polling WebHook A) (f : A -> @M Polling WebHook unit) this h :
  quiet env -> writesNothing p -> throwsNothing p ->
  callsOnly (fun c => isOther c = true) p ->
  (forall a this' h', scans touch message this' h' (live env touch (f a) this' h')) ->
  scans touch message this h (live env touch (bind p f) this h).
Proof.
  intros Hq Hw Ht Hc Hf.
  destruct (live_then touch p f this h Hq Hw Ht) as [a He].
  cbv zeta in He. rewrite He.
  set (t := trace (live env touch p this h)).
  assert (Hother : filter isOther t = t).
  { apply filter_all. intros c Hin.
    exact (live_callsOnly _ env touch p this h c Hc Hin). }
  specialize (Hf a (touched touch h t this) (h ++ t)).
  unfold scans in Hf |- *. cbn [trace final completion].
  destruct Hf as (H1 & H2 & H3).
  rewrite filter_app, Hother, touched_app.
  split; [| split; [exact H2 | exact H3]].
  rewrite <- app_assoc. f_equal. exact H1.
Qed.

(** The dispatch of a reply ends with the scan. *)
Lemma live_message_scans (env : Env) (touch : Touch (@Bot Polling WebHook))
  this h update :
  quiet env -> addsOnly touch ->
  truthy (member update "message") = true ->
  truthy (member (member update "message") "reply_to_message") = true ->
  nullish (member (member update "message") "chat") = false ->
  scans touch (member update "message") this h
    (live env touch (processUpdate update) this h).
Proof.
  intros Hq Hadds Ht Hr Hc.
  pose proof (truthy_not_nullish _ Ht) as Hm.
  rewrite (processUpdate_branch _ (firstPopulated_message _ Ht)).
  unfold branch. cbn [String.eqb Ascii.eqb Bool.eqb]. unfold onMessage.
  apply scans_then; [exact Hq | repeat shape_step .. | intros _ this1 h1];
    try reflexivity.
  apply scans_then; [exact Hq | | | | intros _ this2 h2].
  { unfold processMessageType. repeat shape_step. }
  { unfold processMessageType. repeat shape_step. }
  { unfold processMessageType. repeat shape_step; reflexivity. }
  unfold get at 1. rewrite Hm. cbn [bind].
  apply scans_then; [exact Hq | | | | intros _ this3 h3].
  { unfold someOf, matchText. repeat shape_step. }
  { unfold someOf, matchText. repeat shape_step. }
  { unfold someOf, matchText. repeat shape_step; reflexivity. }
  unfold get. rewrite Hm. cbn [bind]. rewrite Hr.
  apply scans_forEachOf; assumption.
Qed.

Lemma writesNothing_processUpdate update :
  writesNothing (@processUpdate Polling WebHook update).
Proof.
  unfold processUpdate, onMessage, onEditedMessage, onChannelPost,
    onEditedChannelPost, processMessageType, matchText, matchReply,
    someOf, forEachOf.
  repeat shape_step.
Qed.

(** C5.  For every message that is a reply, in every state of the
    listener table, among subscribers that do not throw and that take
    no listener out of the table while the update is dispatched (they may
    add listeners, and change the rest of the bot): after its other
    calls, [processUpdate] invokes the reply callbacks of the listeners
    whose [chatId] is the chat id of the message and whose [messageId] is
    the id of the message replied to, each once and in table order --
    none, one or several --, over the table as it is when the scan
    begins, which holds every listener of the table at the start;
    [processUpdate] itself takes no listener out of the table and writes
    nothing: the bot at the end is the bot as the calls have left it. *)
Theorem reply_listeners_all_fire (env : Env)
  (touch : Touch (@Bot Polling WebHook)) this h update :
  quiet env ->
  addsOnly touch ->
  truthy (member update "message") = true ->
  truthy (member (member update "message") "reply_to_message") = true ->
  nullish (member (member update "message") "chat") = false ->
  let message := member update "message" in
  let r := live env touch (processUpdate update) this h in
  let pre := filter isOther (trace r) in
  let table := _replyListeners (touched touch h pre this) in
  trace r =
    pre ++ map (fun reply => ReplyCallback (callback reply) message)
               (filter (awaits message) table)
  /\ (exists added, table = _replyListeners this ++ added)
  /\ (exists added, _replyListeners (final r) = table ++ added)
  /\ completion r = Normal tt
  /\ final r = touched touch h (trace r) this.
Proof.
  intros Hq Hadds Hm Hr Hc message r pre table.
  destruct (live_message_scans this h update Hq Hadds Hm Hr Hc)
    as (H1 & H2 & H3).
  split; [exact H1 |]. split; [apply touched_addsOnly; exact Hadds |].
  split; [exact H2 |]. split; [exact H3 |].
  apply live_writesNothing. apply writesNothing_processUpdate.
Qed.

Lemma cut_head (env : Env) h c t :
  exists rest, fst (cut env h (c :: t)) = c :: rest.
Proof.
  simpl. destruct (raised env h c); [exists []; reflexivity |].
  destruct (cut env (h ++ [c]) t) as [t1 e1]. exists t1. reflexivity.
Qed.

Lemma filter_trace_nil A (f : Call -> bool) (env : Env)
  (p : @M Polling WebHook A) this h :
  filter f (trace (run calm p this h)) = [] ->
  filter f (trace (run env p this h)) = [].
Proof.
  destruct (run_cut env p this h) as (Ht & _).
  destruct (cut_prefix env h (trace (run calm p this h))) as [rest Hrest].
  rewrite Ht, Hrest at 1. apply filter_prefix_nil.
Qed.

(** C9.  For every message whose text is the empty string, among any
    subscribers: [processUpdate] first emits "message" with the message,
    never emits "text", tests no matcher and invokes no matcher callback. *)
Theorem empty_text_is_absent (env : Env) this h update :
  truthy (member update "message") = true ->
  member (member update "message") "text" = JStr "" ->
  let message := member update "message" in
  let calls := trace (run env (processUpdate update) this h) in
  (exists rest, calls = Emit "message" message :: rest)
  /\ filter (emitted "text") calls = []
  /\ filter isExec calls = []
  /\ filter isTextCallback calls = [].
Proof.
  intros Hm Ht message calls. subst calls.
  assert (Hcalm : trace (run calm (processUpdate update) this h) =
                  (Emit "message" message :: typeCalls message)
                  ++ (if truthy (member message "reply_to_message")
                      then replyCalls message (_replyListeners this) else [])).
  { rewrite run_processUpdate_message by exact Hm. cbn [trace].
    unfold messageCalls. fold message. fold message in Ht. rewrite Ht.
    reflexivity. }
  assert (Hr : forall f, (forall cb, f (ReplyCallback cb message) = false) ->
                filter f (if truthy (member message "reply_to_message")
                          then replyCalls message (_replyListeners this)
                          else []) = []).
  { intros f Hf. destruct (truthy (member message "reply_to_message"));
      [apply filter_replyCalls; exact Hf | reflexivity]. }
  split; [| split; [| split]].
  - destruct (run_cut env (processUpdate update) this h) as (Hcut & _).
    rewrite Hcut, Hcalm. apply cut_head.
  - apply filter_trace_nil. rewrite Hcalm, filter_app, Hr by reflexivity.
    rewrite app_nil_r. cbn [filter emitted String.eqb Ascii.eqb Bool.eqb].
    apply filter_none. intros c Hc. apply in_typeCalls in Hc.
    destruct Hc as (t & -> & _ & Htruthy). cbn [emitted].
    destruct (String.eqb_spec t "text") as [-> | _]; [| reflexivity].
    fold message in Ht. rewrite Ht in Htruthy. discriminate.
  - apply filter_trace_nil. rewrite Hcalm, filter_app, Hr by reflexivity.
    rewrite app_nil_r. cbn [filter isExec].
    apply filter_typeCalls. reflexivity.
  - apply filter_trace_nil. rewrite Hcalm, filter_app, Hr by reflexivity.
    rewrite app_nil_r. cbn [filter isTextCallback].
    apply filter_typeCalls. reflexivity.
Qed.

Lemma isNumber_member o k :
  isNumber (member o k) = true -> truthy o = true /\ nullish o = false.
Proof. destruct o; simpl; intros; try discriminate; auto. Qed.

Lemma awaits_string message reply :
  isString (chatId reply) || isString (messageId reply) = true ->
  isNumber (member (member message "chat") "id") = true ->
  isNumber (member (member message "reply_to_message") "message_id") = true ->
  awaits message reply = false.
Proof.
  unfold awaits. intros Hs Hc Hr.
  destruct (member (member message "chat") "id"); try discriminate.
  destruct (member (member message "reply_to_message") "message_id");
    try discriminate.
  destruct (chatId reply), (messageId reply); try discriminate;
    cbn [strict_eq]; rewrite ?andb_false_r; reflexivity.
Qed.

(** C10.  Reply correlation is strict equality: a listener whose [chatId]
    or [messageId] is a string does not wait for a message whose chat id
    and replied-to message id are numbers, whatever the values; among any
    subscribers the dispatch of such a message makes the same calls and
    ends the same way as on the bot without that listener. *)
Theorem string_keys_never_match_numbers (env : Env) this h update
  before reply after :
  _replyListeners this = before ++ reply :: after ->
  isString (chatId reply) || isString (messageId reply) = true ->
  let message := member update "message" in
  isNumber (member (member message "chat") "id") = true ->
  isNumber (member (member message "reply_to_message") "message_id") = true ->
  awaits message reply = false
  /\ let without := set_replyListeners (before ++ after) this in
     trace (run env (processUpdate update) this h) =
     trace (run env (processUpdate update) without h)
     /\ completion (run env (processUpdate update) this h) =
        completion (run env (processUpdate update) without h).
Proof.
  intros Htable Hs message Hc Hr.
  pose proof (awaits_string message reply Hs Hc Hr) as Hno.
  split; [exact Hno |]. intros without.
  destruct (isNumber_member _ _ Hc) as (_ & Hchat).
  assert (Hm : truthy message = true).
  { destruct message; try discriminate; reflexivity. }
  destruct (run_cut env (processUpdate update) this h) as (Ht1 & Hc1 & _).
  destruct (run_cut env (processUpdate update) without h) as (Ht2 & Hc2 & _).
  rewrite Ht1, Hc1, Ht2, Hc2.
  rewrite !run_processUpdate_message by exact Hm. cbn [trace completion].
  fold message.
  assert (Hcalls : messageCalls this message = messageCalls without message).
  { unfold messageCalls. cbn [without set_replyListeners options
      _textRegexpCallbacks _replyListeners].
    rewrite Htable. unfold replyCalls. rewrite Hchat.
    rewrite !filter_app. cbn [filter]. rewrite Hno. reflexivity. }
  assert (Hend : messageEnd this message = messageEnd without message).
  { unfold messageEnd. rewrite !replyEnd_chat by exact Hchat. reflexivity. }
  rewrite Hcalls, Hend. split; reflexivity.
Qed.

End Messages.

(** ** Exceptions of subscribers, and updates without a variant *)

Section Failures.

Context {Polling WebHook : Type}.

Implicit Types (this : @Bot Polling WebHook) (h : list Call).

Lemma cut_thrower (env : Env) h t before c after e :
  fst (cut env h t) = before ++ c :: after ->
  raised env (h ++ before) c = Some e ->
  after = [] /\ snd (cut env h t) = Some e.
Proof.
  revert h before. induction t as [| c0 t IH]; intros h before; simpl.
  - destruct before; discriminate.
  - destruct (raised env h c0) as [e0 |] eqn:Hr0; simpl.
    + destruct before as [| b before]; simpl.
      * intros [= -> <-]. rewrite app_nil_r, Hr0. intros [= ->]. auto.
      * intros [= _ Hnil]. destruct before; discriminate.
    + specialize (IH (h ++ [c0])).
      destruct (cut env (h ++ [c0]) t) as [t1 e1]; simpl in *.
      destruct before as [| b before]; simpl.
      * intros [= -> _]. rewrite app_nil_r, Hr0. discriminate.
      * intros [= -> Ht1] Hr. apply (IH before Ht1).
        rewrite <- app_assoc. exact Hr.
Qed.

Lemma cut_nobody (env : Env) h t :
  (forall before c after,
     fst (cut env h t) = before ++ c :: after ->
     raised env (h ++ before) c = None) ->
  snd (cut env h t) = None.
Proof.
  intros Hnone. destruct (snd (cut env h t)) as [e |] eqn:He; [| reflexivity].
  destruct (@cut_stops env h t e He) as (before & c & Ht & Hx & Henv).
  specialize (Hnone before c [] Ht). unfold raised in Hnone.
  rewrite Hx in Hnone. congruence.
Qed.

(** C4, as the code has it.  [processUpdate] does not catch what a
    subscriber throws.  Among any subscribers, the calls it makes are an
    initial part of the calls of the dispatch in which nobody throws; a
    subscriber that throws is the last one called, and what it throws is
    what [processUpdate] throws; when no subscriber called throws, the
    dispatch is the one in which nobody throws. *)
Theorem subscriber_exception_ends_dispatch (env : Env) this h update :
  let r := run env (processUpdate update) this h in
  let r0 := run calm (processUpdate update) this h in
  (exists rest, trace r0 = trace r ++ rest)
  /\ (forall before c after e,
        trace r = before ++ c :: after ->
        raised env (h ++ before) c = Some e ->
        after = [] /\ completion r = Abrupt e)
  /\ ((forall before c after,
         trace r = before ++ c :: after ->
         raised env (h ++ before) c = None) ->
      r = r0).
Proof.
  intros r r0. subst r r0.
  destruct (run_cut env (processUpdate update) this h) as (Ht & Hc & Hf).
  split; [| split].
  - rewrite Ht. apply cut_prefix.
  - intros before c after e Htrace Hr. rewrite Ht in Htrace.
    destruct (@cut_thrower env h _ before c after e Htrace Hr) as (-> & He).
    rewrite Hc, He. auto.
  - intros Hnone. rewrite Ht in Hnone.
    pose proof (@cut_nobody env h _ Hnone) as He.
    rewrite He in Hc. specialize (Hf He).
    rewrite (@cut_all env h _ He) in Ht.
    destruct (run env (processUpdate update) this h),
             (run calm (processUpdate update) this h); simpl in *.
    congruence.
Qed.

Lemma wellFormed_chat update :
  wellFormed update = true ->
  nullish update = false
  /\ (truthy (member update "message") = true ->
      nullish (member (member update "message") "chat") = false).
Proof.
  unfold wellFormed. rewrite !andb_true_iff, orb_true_iff, !negb_true_iff.
  intros ((Hn & _) & [Hm | Hc]); split; auto; congruence.
Qed.

Lemma branchEnd_wellFormed this update variant payload :
  wellFormed update = true ->
  firstPopulated update variants = Some (variant, payload) ->
  branchEnd this variant payload = Normal tt.
Proof.
  intros Hwf Hf. destruct (firstPopulated_truthy _ _ Hf) as (Ht & _ & Hp).
  unfold branchEnd. destruct (String.eqb_spec variant "message") as [-> | _];
    [| reflexivity].
  unfold messageEnd. destruct (truthy (member payload "reply_to_message"));
    [| reflexivity].
  apply replyEnd_chat. subst payload. apply (wellFormed_chat _ Hwf). exact Ht.
Qed.

(** C8, as the code has it.  Among any subscribers: an update object
    with no populated variant field makes [processUpdate] emit nothing
    and return; [update_id] is never read, so that an update dispatches
    the same with or without it; and on a well-formed update
    [processUpdate] raises no error of its own -- it returns, or throws
    what the subscriber it called last has thrown. *)
Theorem unpopulated_update_is_ignored (env : Env) this h update :
  (nullish update = false ->
   firstPopulated update variants = None ->
   run env (processUpdate update) this h = mkOutcome this [] (Normal tt))
  /\ (forall props v,
        run env (processUpdate (JObj (("update_id", v) :: props))) this h =
        run env (processUpdate (JObj props)) this h)
  /\ (wellFormed update = true ->
      match completion (run env (processUpdate update) this h) with
      | Normal _ => True
      | Abrupt e =>
          exists before c,
            trace (run env (processUpdate update) this h) = before ++ [c]
            /\ isExec c = false
            /\ env (h ++ before) c = Some e
      end).
Proof.
  split; [| split].
  - intros Hn Hf. rewrite (processUpdate_none _ Hn Hf). reflexivity.
  - intros props v. reflexivity.
  - intros Hwf. destruct (wellFormed_chat _ Hwf) as (Hn & _).
    destruct (firstPopulated update variants) as [[variant payload] |] eqn:Hf.
    + destruct (run_cut env (processUpdate update) this h) as (Ht & Hc & _).
      rewrite Hc, Ht.
      destruct (snd (cut env h (trace (run calm (processUpdate update) this h))))
        as [e |] eqn:He.
      * exact (@cut_stops env h _ e He).
      * rewrite (processUpdate_branch _ Hf).
        destruct (firstPopulated_truthy _ _ Hf) as (Htruthy & _).
        rewrite run_branch by exact Htruthy. cbn [completion].
        rewrite (branchEnd_wellFormed this _ Hwf Hf). exact I.
    + rewrite (processUpdate_none _ Hn Hf). exact I.
Qed.

(** C7, as the code has it.  Among subscribers that do not throw, for an
    update whose first populated variant is [edited_message] or
    [edited_channel_post], [processUpdate] emits the notification of the
    variant, then the derived "..._text" notification when the payload has
    a (non-empty) text, then the derived "..._caption" notification when
    it has a (non-empty) caption; for [channel_post] it emits the
    "channel_post" notification and nothing else. *)
Theorem edited_variants_derive_notifications (env : Env) this h update
  variant payload :
  quiet env ->
  firstPopulated update variants = Some (variant, payload) ->
  let calls := trace (run env (processUpdate update) this h) in
  (variant = "edited_message" ->
   calls = editedCalls "edited_message" "edited_message_text"
                       "edited_message_caption" payload)
  /\ (variant = "edited_channel_post" ->
      calls = editedCalls "edited_channel_post" "edited_channel_post_text"
                          "edited_channel_post_caption" payload)
  /\ (variant = "channel_post" -> calls = [Emit "channel_post" payload]).
Proof.
  intros Hq Hf calls. subst calls.
  destruct (firstPopulated_truthy _ _ Hf) as (Ht & _).
  rewrite (run_quiet _ _ _ Hq), (processUpdate_branch _ Hf), run_branch
    by exact Ht.
  cbn [trace]. repeat split; intros ->; reflexivity.
Qed.

End Failures.

(** ** The listener table *)

Section Table.

Context {Polling WebHook D : Type} `{T : Transports Polling WebHook D}.

Implicit Types (this : @Bot Polling WebHook) (h : list Call).

Lemma findIndex_lower A (f : A -> bool) (l : list A) : -1 <= findIndex f l.
Proof.
  induction l as [| x l IH]; simpl; [lia |].
  destruct (f x); [lia |]. destruct (findIndex f l =? -1); lia.
Qed.

Lemma findIndex_none A (f : A -> bool) (l : list A) :
  (forall x, In x l -> f x = false) -> findIndex f l = -1.
Proof.
  induction l as [| x l IH]; simpl; [reflexivity |].
  intros Hl. rewrite (Hl x) by auto. rewrite IH by auto. reflexivity.
Qed.

Lemma findIndex_found A (f : A -> bool) (before : list A) x after :
  (forall y, In y before -> f y = false) -> f x = true ->
  findIndex f (before ++ x :: after) = Z.of_nat (List.length before).
Proof.
  intros Hb Hx. induction before as [| y before IH]; simpl.
  - rewrite Hx. reflexivity.
  - rewrite (Hb y) by (left; reflexivity).
    rewrite IH by (intros; apply Hb; right; assumption).
    destruct (Z.eqb_spec (Z.of_nat (List.length before)) (-1)); lia.
Qed.

Lemma splice_one A (before : list A) x after :
  splice (Z.of_nat (List.length before)) 1 (before ++ x :: after) =
  (before ++ after, [x]).
Proof.
  unfold splice. rewrite length_app. cbn [List.length].
  destruct (Z.ltb_spec (Z.of_nat (List.length before)) 0); [lia |].
  rewrite Z.min_l by lia.
  replace (Z.min (Z.max 1 0)
             (Z.of_nat (List.length before + S (List.length after))
              - Z.of_nat (List.length before))) with 1 by lia.
  rewrite Nat2Z.id.
  replace (Z.to_nat (Z.of_nat (List.length before) + 1))
    with (List.length before + 1)%nat by lia.
  rewrite firstn_app, Nat.sub_diag, firstn_all. cbn [firstn].
  rewrite app_nil_r.
  rewrite !skipn_app, !skipn_all2 by lia.
  replace (List.length before + 1 - List.length before)%nat with 1%nat by lia.
  rewrite Nat.sub_diag, ?skipn_all.
  change (Z.to_nat 1) with 1%nat. reflexivity.
Qed.

Lemma first_split A (f : A -> bool) (l : list A) x :
  In x l -> f x = true ->
  exists before y after,
    l = before ++ y :: after /\ f y = true
    /\ forall z, In z before -> f z = false.
Proof.
  induction l as [| a l IH]; simpl; [tauto |].
  intros Hin Hx. destruct (f a) eqn:Ha.
  - exists [], a, l. simpl. tauto.
  - destruct Hin as [-> | Hin]; [congruence |].
    destruct (IH Hin Hx) as (before & y & after & -> & Hy & Hb).
    exists (a :: before), y, after. simpl. repeat split; auto.
    intros z [<- | Hz]; auto.
Qed.

Lemma NoDup_map_same A B (f : A -> B) (l : list A) x y :
  NoDup (map f l) -> In x l -> In y l -> f x = f y -> x = y.
Proof.
  induction l as [| a l IH]; simpl; [tauto |].
  intros Hnd Hx Hy Hf. inversion Hnd as [| ? ? Hnotin Hnd']; subst.
  destruct Hx as [-> | Hx], Hy as [-> | Hy]; auto.
  - exfalso. apply Hnotin. rewrite Hf. apply in_map. exact Hy.
  - exfalso. apply Hnotin. rewrite <- Hf. apply in_map. exact Hx.
Qed.

(** What [removeReplyListener] does, by whether the id is in the table. *)
Lemma run_removeReplyListener_found (env : Env) this h before x after :
  _replyListeners this = before ++ x :: after ->
  (forall y, In y before -> id y <> id x) ->
  run env (removeReplyListener (id x)) this h =
  mkOutcome (set_replyListeners (before ++ after) this) [] (Normal (Some x)).
Proof.
  intros Htable Hb. unfold removeReplyListener. cbn [getThis bind run].
  rewrite Htable.
  rewrite (findIndex_found (fun replyListener => id replyListener =? id x));
    [| intros y Hy; apply Z.eqb_neq; auto | apply Z.eqb_refl].
  destruct (Z.eqb_spec (Z.of_nat (List.length before)) (-1)); [lia |].
  rewrite splice_one. reflexivity.
Qed.

Lemma run_removeReplyListener_missing (env : Env) this h i :
  (forall y, In y (_replyListeners this) -> id y <> i) ->
  run env (removeReplyListener i) this h = mkOutcome this [] (Normal None).
Proof.
  intros Hl. unfold removeReplyListener. cbn [getThis bind run].
  rewrite findIndex_none; [reflexivity |].
  intros y Hy. apply Z.eqb_neq. auto.
Qed.

Lemma run_onReplyToMessage (env : Env) this h chatId0 messageId0 callback0 :
  run env (onReplyToMessage chatId0 messageId0 callback0) this h =
  mkOutcome
    (set_replyListeners
       (_replyListeners this
        ++ [mkReplyListener (_replyListenerId this + 1) chatId0 messageId0
                            callback0])
       (set_replyListenerId (_replyListenerId this + 1) this))
    [] (Normal (_replyListenerId this + 1)).
Proof. reflexivity. Qed.

Lemma keeps_get (Inv : @Bot Polling WebHook -> Prop) o k : keeps Inv (get o k).
Proof. unfold get. destruct (nullish o); exact Logic.I. Qed.

Lemma keeps_forEach A (Inv : @Bot Polling WebHook -> Prop) (f : A -> @M Polling WebHook unit) (l : list A) :
  (forall x, keeps Inv (f x)) -> keeps Inv (forEach f l).
Proof.
  intros Hf. induction l as [| x l IH]; [exact Logic.I |].
  cbn [forEach]. apply keeps_bind; auto.
Qed.

Lemma keeps_forEachFrom A (Inv : @Bot Polling WebHook -> Prop)
  (array : @Bot Polling WebHook -> list A) (f : A -> @M Polling WebHook unit)
  index count :
  (forall x, keeps Inv (f x)) -> keeps Inv (forEachFrom array f index count).
Proof.
  intros Hf. revert index. induction count as [| count IH]; intros index;
    [exact Logic.I |].
  cbn [forEachFrom getThis bind keeps]. intros s _.
  apply keeps_bind; [| intros _; apply IH].
  destruct (nth_error (array s) index); [apply Hf | exact Logic.I].
Qed.

Lemma keeps_someFrom A (Inv : @Bot Polling WebHook -> Prop)
  (array : @Bot Polling WebHook -> list A) (f : A -> @M Polling WebHook JsVal)
  index count :
  (forall x, keeps Inv (f x)) -> keeps Inv (someFrom array f index count).
Proof.
  intros Hf. revert index. induction count as [| count IH]; intros index;
    [exact Logic.I |].
  cbn [someFrom getThis bind keeps]. intros s _.
  apply keeps_bind.
  - destruct (nth_error (array s) index); [apply Hf | exact Logic.I].
  - intros v. destruct (truthy v); [exact Logic.I | apply IH].
Qed.

Ltac keeps_step :=
  match goal with
  | |- keeps _ (bind getThis _) => cbn [bind getThis keeps]; intros ? ?
  | |- keeps _ (bind _ _) => apply keeps_bind; [| intros ?]
  | |- keeps _ (get _ _) => apply keeps_get
  | |- keeps _ (emit _ _) => exact (fun _ => Logic.I)
  | |- keeps _ (Ret _) => exact Logic.I
  | |- keeps _ (Throw _) => exact Logic.I
  | |- keeps _ (Do _ _) => cbn [keeps]; intros ?
  | |- keeps _ (Get _) => cbn [keeps]; intros ? ?
  | |- keeps _ (forEach _ _) => apply keeps_forEach; intros ?
  | |- keeps _ (forEachFrom _ _ _ _) => apply keeps_forEachFrom; intros ?
  | |- keeps _ (someFrom _ _ _ _) => apply keeps_someFrom; intros ?
  | |- keeps _ (if ?b then _ else _) => destruct b
  | |- keeps _ (putThis _) => split; [| exact Logic.I]
  | |- keeps _ (match ?x with _ => _ end) => destruct x
  | |- True => exact Logic.I
  | |- _ /\ _ => split
  | |- forall _, _ => intro
  end.

(** [processUpdate] writes nothing. *)
Lemma keeps_processUpdate (Inv : @Bot Polling WebHook -> Prop) update :
  keeps Inv (processUpdate update).
Proof.
  unfold processUpdate, onMessage, onEditedMessage, onChannelPost,
    onEditedChannelPost, processMessageType, matchText, matchReply,
    someOf, forEachOf.
  repeat keeps_step.
Qed.

Lemma processUpdate_final (env : Env) this h update :
  final (run env (processUpdate update) this h) = this.
Proof.
  apply (@keeps_run _ _ (fun s => s = this)); [| reflexivity].
  apply keeps_processUpdate.
Qed.

Lemma tableOk_same this this' :
  _replyListeners this' = _replyListeners this ->
  _replyListenerId this' = _replyListenerId this ->
  tableOk this -> tableOk this'.
Proof. unfold tableOk. intros -> ->. auto. Qed.

Lemma keeps_lifecycle :
  (forall o, keeps tableOk (startPolling o))
  /\ keeps tableOk stopPolling
  /\ keeps tableOk openWebHook
  /\ keeps tableOk closeWebHook.
Proof.
  unfold startPolling, stopPolling, openWebHook, closeWebHook,
    hasOpenWebHook, isPolling.
  repeat split; intros;
    repeat (keeps_step; try (eapply tableOk_same; [| | eassumption]; reflexivity)).
Qed.

Lemma keeps_onText re cb : keeps (@tableOk Polling WebHook) (onText re cb).
Proof.
  unfold onText. cbn [bind getThis keeps putThis]. intros s Hs.
  split; [| exact Logic.I].
  eapply tableOk_same; [| | exact Hs]; reflexivity.
Qed.

Lemma tableOk_onReplyToMessage this chatId0 messageId0 callback0 :
  tableOk this ->
  tableOk (set_replyListeners
             (_replyListeners this
              ++ [mkReplyListener (_replyListenerId this + 1) chatId0
                                  messageId0 callback0])
             (set_replyListenerId (_replyListenerId this + 1) this)).
Proof.
  unfold tableOk. cbn [set_replyListeners set_replyListenerId _replyListeners
    _replyListenerId]. intros (Hnd & Hpos & Hids). split; [| split].
  - rewrite map_app. cbn [map id]. apply NoDup_app; [exact Hnd | | ].
    + constructor; [intros [] | constructor].
    + intros i Hi [<- | []]. apply in_map_iff in Hi.
      destruct Hi as (l & Hl & Hin). specialize (Hids l Hin). lia.
  - lia.
  - intros l Hin. apply in_app_or in Hin. destruct Hin as [Hin | [<- | []]].
    + specialize (Hids l Hin). lia.
    + cbn [id]. lia.
Qed.

Lemma tableOk_remove this before x after :
  _replyListeners this = before ++ x :: after ->
  tableOk this ->
  tableOk (set_replyListeners (before ++ after) this)
  /\ forall y, In y (before ++ after) -> id y <> id x.
Proof.
  unfold tableOk. cbn [set_replyListeners _replyListeners _replyListenerId].
  intros Htable (Hnd & Hpos & Hids). rewrite Htable in Hnd, Hids.
  rewrite map_app in Hnd. cbn [map] in Hnd.
  pose proof (NoDup_remove_1 _ _ _ Hnd) as Hnd1.
  pose proof (NoDup_remove_2 _ _ _ Hnd) as Hnd2.
  rewrite <- map_app in Hnd1, Hnd2.
  split; [split; [exact Hnd1 | split; [exact Hpos |]] |].
  - intros l Hin. apply Hids. apply in_app_or in Hin. apply in_or_app.
    destruct Hin; [left | right; right]; assumption.
  - intros y Hy Heq. apply Hnd2. rewrite <- Heq. apply in_map. exact Hy.
Qed.

Lemma keeps_constructor token0 options0 :
  keeps tableOk (constructor token0 options0).
Proof.
  destruct keeps_lifecycle as (Hstart & _ & Hopen & _).
  unfold constructor.
  repeat first [apply Hstart | apply Hopen | keeps_step].
  split; [constructor | split; [reflexivity | intros l []]].
Qed.

Lemma keeps_run_put A (Inv : @Bot Polling WebHook -> Prop) (env : Env) s
  (f : unit -> M A) s0 h :
  keeps Inv (bind (putThis s) f) ->
  Inv (final (run env (bind (putThis s) f) s0 h)).
Proof.
  cbn [putThis bind keeps run]. intros [Hs Hk]. apply keeps_run; assumption.
Qed.

(** Every bot keeps its table in order. *)
Lemma Reachable_tableOk this : Reachable this -> tableOk this.
Proof.
  induction 1 as [env token0 options0 s0 h _ | env m s h _ IH].
  - unfold constructor. apply keeps_run_put.
    exact (keeps_constructor token0 options0).
  - destruct keeps_lifecycle as (Hstart & Hstop & Hopen & Hclose).
    destruct m; cbn [invoke].
    + apply keeps_run; [| exact IH]. apply keeps_bind; [apply Hstart | intros; exact Logic.I].
    + apply keeps_run; [| exact IH]. apply keeps_bind; [apply Hstop | intros; exact Logic.I].
    + apply keeps_run; [| exact IH]. apply keeps_bind; [apply Hopen | intros; exact Logic.I].
    + apply keeps_run; [| exact IH]. apply keeps_bind; [apply Hclose | intros; exact Logic.I].
    + rewrite processUpdate_final. exact IH.
    + apply keeps_run; [| exact IH]. apply keeps_onText.
    + rewrite run_bind, run_onReplyToMessage. cbn [completion final trace run].
      apply tableOk_onReplyToMessage. exact IH.
    + rewrite run_bind.
      destruct (in_dec Z.eq_dec replyListenerId (map id (_replyListeners s)))
        as [Hin | Hout].
      * apply in_map_iff in Hin. destruct Hin as (x & Hx & Hin).
        destruct (first_split (fun l => id l =? replyListenerId) _ x Hin)
          as (before & y & after & Htable & Hy & Hb);
          [apply Z.eqb_eq; exact Hx |].
        apply Z.eqb_eq in Hy. rewrite <- Hy in Hb |- *.
        rewrite (@run_removeReplyListener_found env s h before y after Htable).
        -- cbn [completion final trace run].
           apply (@tableOk_remove s before y after Htable IH).
        -- intros z Hz. apply Z.eqb_neq. apply Hb. exact Hz.
      * rewrite run_removeReplyListener_missing.
        -- exact IH.
        -- intros y Hy Heq. apply Hout. rewrite <- Heq. apply in_map. exact Hy.
Qed.

(** C6.  On every bot: [onReplyToMessage] returns the id of the entry
    it appends to the table, an id no older entry has.  For every entry of
    the table -- every id that was returned and not yet removed -- the
    first [removeReplyListener(id)] returns that entry, with its id,
    chatId, messageId and callback, and deletes it and nothing else; any
    further call with the same id returns [null] and leaves the bot as it
    is.  For an id that was never issued [removeReplyListener] returns
    [null] and leaves the bot as it is. *)
Theorem removeReplyListener_removes_once (env : Env) this h :
  Reachable this ->
  (forall chatId0 messageId0 callback0,
     let r := run env (onReplyToMessage chatId0 messageId0 callback0) this h in
     exists i,
       completion r = Normal i
       /\ _replyListeners (final r) =
          _replyListeners this
          ++ [mkReplyListener i chatId0 messageId0 callback0]
       /\ forall l, In l (_replyListeners this) -> id l <> i)
  /\ (forall entry,
        In entry (_replyListeners this) ->
        let r1 := run env (removeReplyListener (id entry)) this h in
        completion r1 = Normal (Some entry)
        /\ (exists before after,
              _replyListeners this = before ++ entry :: after
              /\ final r1 = set_replyListeners (before ++ after) this)
        /\ ~ In entry (_replyListeners (final r1))
        /\ forall env' h',
             run env' (removeReplyListener (id entry)) (final r1) h' =
             mkOutcome (final r1) [] (Normal None))
  /\ (forall i,
        i <= 0 \/ _replyListenerId this < i ->
        run env (removeReplyListener i) this h = mkOutcome this [] (Normal None)).
Proof.
  intros Hreach. pose proof (Reachable_tableOk Hreach) as Hok.
  destruct Hok as (Hnd & Hpos & Hids). split; [| split].
  - intros chatId0 messageId0 callback0 r. subst r.
    rewrite run_onReplyToMessage. cbn [completion final].
    exists (_replyListenerId this + 1). repeat split.
    intros l Hl. specialize (Hids l Hl). lia.
  - intros entry Hin r1. subst r1.
    destruct (first_split (fun l => id l =? id entry) _ entry Hin (Z.eqb_refl _))
      as (before & y & after & Htable & Hy & Hb).
    apply Z.eqb_eq in Hy.
    assert (y = entry) as ->.
    { apply (NoDup_map_same id (_replyListeners this)); auto.
      rewrite Htable. apply in_or_app. right. left. reflexivity. }
    assert (Hb' : forall z, In z before -> id z <> id entry).
    { intros z Hz. apply Z.eqb_neq. apply Hb. exact Hz. }
    rewrite (@run_removeReplyListener_found env this h before entry after Htable Hb').
    cbn [completion final].
    destruct (@tableOk_remove this before entry after Htable
                (conj Hnd (conj Hpos Hids))) as (_ & Hgone).
    repeat split.
    + exists before, after. split; [exact Htable | reflexivity].
    + intros Hstill. exact (Hgone entry Hstill eq_refl).
    + intros env' h'. apply run_removeReplyListener_missing. exact Hgone.
  - intros i Hi. apply run_removeReplyListener_missing.
    intros y Hy. specialize (Hids y Hy). lia.
Qed.

End Table.

(** ** The rules on concrete bots *)

Lemma quiet_calm : quiet calm.
Proof. intros h c. reflexivity. Qed.


(** An update that populates [callback_query], [edited_message] and
    [inline_query] is dispatched as an edited message. *)
Lemma first_populated_variant_wins_witness :
  let r := live Sample.firstThrows Sample.oneShot
             (processUpdate Sample.severalUpdate) (Sample.fresh JUndefined) [] in
  firstPopulated Sample.severalUpdate variants
  = Some ("edited_message", Sample.edited)
  /\ r = live Sample.firstThrows Sample.oneShot
           (branch "edited_message" Sample.edited) (Sample.fresh JUndefined) []
  /\ (exists rest, trace r = Emit "edited_message" Sample.edited :: rest)
  /\ (forall c, In c (trace r) ->
        (forall p, payload_of c = Some p -> p = Sample.edited)
        /\ (forall event p, c = Emit event p ->
            In event (notifications "edited_message")))
  /\ (forall update',
        firstPopulated update' variants
        = Some ("edited_message", Sample.edited) ->
        live Sample.firstThrows Sample.oneShot (processUpdate update')
             (Sample.fresh JUndefined) [] = r).
Proof.
  split; [reflexivity |].
  exact (first_populated_variant_wins Sample.firstThrows Sample.oneShot
           (Sample.fresh JUndefined) [] Sample.severalUpdate eq_refl).
Defined.

(** On a bot with two listeners for chat 1 and message 5, among
    subscribers of which one registers a third such listener when
    "message" is emitted: a message of chat 1 that replies to message 5
    fires the three callbacks, once each and in table order, and the
    three listeners are in the table at the end. *)
Lemma reply_listeners_all_fire_witness :
  let r := live calm Sample.registrar (processUpdate Sample.answerUpdate)
             Sample.twoListeners [] in
  addsOnly Sample.registrar
  /\ trace r =
       filter isOther (trace r)
       ++ [ReplyCallback 1%nat Sample.answer; ReplyCallback 2%nat Sample.answer;
           ReplyCallback 3%nat Sample.answer]
  /\ (exists added,
        _replyListeners
          (touched Sample.registrar [] (filter isOther (trace r))
                   Sample.twoListeners)
        = _replyListeners Sample.twoListeners ++ added)
  /\ (exists added,
        _replyListeners (final r)
        = _replyListeners
            (touched Sample.registrar [] (filter isOther (trace r))
                     Sample.twoListeners) ++ added)
  /\ completion r = Normal tt
  /\ final r = touched Sample.registrar [] (trace r) Sample.twoListeners.
Proof.
  assert (Hadds : addsOnly Sample.registrar).
  { intros h c s.
    destruct c as [event payload | | |];
      try (exists []; symmetry; apply app_nil_r).
    unfold Sample.registrar.
    destruct (event =? "message")%string;
      [| exists []; symmetry; apply app_nil_r].
    eexists. reflexivity. }
  split; [exact Hadds |].
  exact (reply_listeners_all_fire Sample.twoListeners [] Sample.answerUpdate
           quiet_calm Hadds eq_refl eq_refl eq_refl).
Defined.

(** On the same bot, among subscribers of which the first reply callback
    removes its own listener: both listeners await the message, the first
    callback is invoked and the second is not, although nobody throws. *)
Lemma self_removing_listener_skips_next :
  let r := live calm Sample.oneShot (processUpdate Sample.answerUpdate)
             Sample.twoListeners [] in
  map callback (filter (awaits Sample.answer) (_replyListeners Sample.twoListeners))
  = [1%nat; 2%nat]
  /\ filter isReplyCallback (trace r) = [ReplyCallback 1%nat Sample.answer]
  /\ ~ In (ReplyCallback 2%nat Sample.answer) (trace r)
  /\ completion r = Normal tt
  /\ map callback (_replyListeners (final r)) = [2%nat].
Proof.
  vm_compute. repeat split; try reflexivity.
  intros H. repeat (destruct H as [H | H]; [discriminate H |]). exact H.
Qed.

(** A message with the empty text and a photo: "message" and "photo" are
    emitted, "text" is not. *)
Lemma empty_text_is_absent_witness :
  let calls :=
    trace (run calm (processUpdate Sample.blankUpdate)
               (Sample.twoMatchers JUndefined) []) in
  (exists rest, calls = Emit "message" Sample.blank :: rest)
  /\ filter (emitted "text") calls = []
  /\ filter isExec calls = []
  /\ filter isTextCallback calls = [].
Proof.
  exact (empty_text_is_absent calm (Sample.twoMatchers JUndefined) []
           Sample.blankUpdate eq_refl eq_refl).
Defined.

(** The listener registered for the chat ["1"] does not fire for a reply
    in the chat [1]. *)
Lemma string_keys_never_match_numbers_witness :
  awaits Sample.answer (mkReplyListener 1 (JStr "1") (JNum 5) 1%nat) = false
  /\ trace (run calm (processUpdate Sample.answerUpdate) Sample.stringListener [])
     = trace (run calm (processUpdate Sample.answerUpdate)
                  (set_replyListeners [] Sample.stringListener) [])
  /\ completion (run calm (processUpdate Sample.answerUpdate)
                     Sample.stringListener [])
     = completion (run calm (processUpdate Sample.answerUpdate)
                       (set_replyListeners [] Sample.stringListener) []).
Proof.
  exact (string_keys_never_match_numbers calm Sample.stringListener []
           Sample.answerUpdate [] (mkReplyListener 1 (JStr "1") (JNum 5) 1%nat) []
           eq_refl eq_refl eq_refl eq_refl).
Defined.

(** Both matchers match "hello"; the callback of the first one throws.
    The callback of the second one, which the calm dispatch invokes, is
    never invoked, and the dispatch ends by the exception. *)
Lemma callback_exception_not_isolated :
  let this := Sample.twoMatchers JUndefined in
  let second := TextCallback 2%nat Sample.hello (JArr [JStr "h"]) in
  isCallback second = true
  /\ In second (trace (run calm (processUpdate Sample.helloUpdate) this []))
  /\ ~ In second
        (trace (run Sample.firstThrows (processUpdate Sample.helloUpdate) this []))
  /\ run Sample.firstThrows (processUpdate Sample.helloUpdate) this [] =
     mkOutcome this
       [Emit "message" Sample.hello; Emit "text" Sample.hello;
        Exec Sample.reHello (JStr "hello");
        TextCallback 1%nat Sample.hello (JArr [JStr "hello"])]
       (Abrupt (JStr "boom")).
Proof.
  cbv zeta. split; [reflexivity | split; [| split; [| reflexivity]]].
  - vm_compute. tauto.
  - vm_compute. intros [H | [H | [H | [H | []]]]]; discriminate H.
Qed.

(** The callback that throws is the last call, and its exception is the
    one of the dispatch. *)
Lemma subscriber_exception_ends_dispatch_witness :
  completion (run Sample.firstThrows (processUpdate Sample.helloUpdate)
                  (Sample.twoMatchers JUndefined) [])
  = Abrupt (JStr "boom").
Proof.
  exact (proj2
           (proj1 (proj2 (subscriber_exception_ends_dispatch Sample.firstThrows
                            (Sample.twoMatchers JUndefined) [] Sample.helloUpdate))
              [Emit "message" Sample.hello; Emit "text" Sample.hello;
               Exec Sample.reHello (JStr "hello")]
              (TextCallback 1%nat Sample.hello (JArr [JStr "hello"]))
              [] (JStr "boom") eq_refl eq_refl)).
Defined.

(** A channel post with a text and a caption: only "channel_post" is
    emitted. *)
Lemma channel_post_derives_nothing :
  let calls :=
    trace (run calm (processUpdate Sample.postUpdate) (Sample.fresh JUndefined) []) in
  firstPopulated Sample.postUpdate variants = Some ("channel_post", Sample.post)
  /\ truthy (member Sample.post "text") = true
  /\ truthy (member Sample.post "caption") = true
  /\ calls = [Emit "channel_post" Sample.post]
  /\ ~ In (Emit "channel_post_text" Sample.post) calls
  /\ ~ In (Emit "channel_post_caption" Sample.post) calls.
Proof.
  cbv zeta. repeat split; try reflexivity;
    vm_compute; intros [H | []]; discriminate H.
Qed.

(** The edited message of [severalUpdate] has a text and no caption. *)
Lemma edited_variants_derive_notifications_witness :
  trace (run calm (processUpdate Sample.severalUpdate) (Sample.fresh JUndefined) [])
  = [Emit "edited_message" Sample.edited;
     Emit "edited_message_text" Sample.edited].
Proof.
  exact (proj1 (edited_variants_derive_notifications
                  (Sample.fresh JUndefined) [] Sample.severalUpdate
                  quiet_calm eq_refl) eq_refl).
Defined.

(** An update without [update_id] is malformed in the words of the
    specification, and its message is dispatched all the same. *)
Lemma missing_update_id_still_dispatched :
  malformed Sample.headless = true
  /\ trace (run calm (processUpdate Sample.headless) (Sample.fresh JUndefined) [])
     = [Emit "message" Sample.hello; Emit "text" Sample.hello].
Proof. split; reflexivity. Qed.

(** An update with an [update_id] and nothing else is ignored, and the
    well-formed [helloUpdate] is dispatched without an error. *)
Lemma unpopulated_update_is_ignored_witness :
  run calm (processUpdate (JObj [("update_id", JNum 1)]))
      (Sample.fresh JUndefined) []
  = mkOutcome (Sample.fresh JUndefined) [] (Normal tt)
  /\ match completion (run calm (processUpdate Sample.helloUpdate)
                           (Sample.twoMatchers JUndefined) []) with
     | Normal _ => True
     | Abrupt e =>
         exists before c,
           trace (run calm (processUpdate Sample.helloUpdate)
                      (Sample.twoMatchers JUndefined) []) = before ++ [c]
           /\ isExec c = false
           /\ calm ([] ++ before) c = Some e
     end.
Proof.
  split.
  - exact (proj1 (unpopulated_update_is_ignored calm (Sample.fresh JUndefined) []
                    (JObj [("update_id", JNum 1)])) eq_refl eq_refl).
  - exact (proj2 (proj2 (unpopulated_update_is_ignored calm
                           (Sample.twoMatchers JUndefined) []
                           Sample.helloUpdate)) eq_refl).
Defined.

(** On the bot with two listeners: the first removal of id 1 returns the
    first entry, the second returns [null]. *)
Lemma removeReplyListener_removes_once_witness :
  let entry := mkReplyListener 1 (JNum 1) (JNum 5) 1%nat in
  let r1 := run calm (removeReplyListener 1) Sample.twoListeners [] in
  Reachable Sample.twoListeners
  /\ completion r1 = Normal (Some entry)
  /\ run calm (removeReplyListener 1) (final r1) [] =
     mkOutcome (final r1) [] (Normal None).
Proof.
  intros entry r1.
  assert (Hreach : Reachable Sample.twoListeners).
  { exact (Reachable_step calm
             (OnReplyToMessage (JNum 1) (JNum 5) 2%nat) []
             (Reachable_step calm
                (OnReplyToMessage (JNum 1) (JNum 5) 1%nat) []
                (Reachable_new calm "t" (Sample.options0 JUndefined)
                   (mkBot "" (Sample.options0 JUndefined) [] [] 0 None None) []
                   eq_refl))). }
  split; [exact Hreach |].
  destruct (proj1 (proj2 (removeReplyListener_removes_once calm [] Hreach))
              entry (or_introl eq_refl)) as (Hfirst & _ & _ & Hsecond).
  split; [exact Hfirst | exact (Hsecond calm [])].
Defined.

(** * Further properties of the code *)

(** ** Dispatch *)

Section MoreDispatch.

Context {Polling WebHook : Type}.

Implicit Types (this : @Bot Polling WebHook) (h : list Call).

Lemma forallb_textCalls first message text l :
  forallb isMatching (textCalls first message text l) = true.
Proof.
  apply forallb_forall. intros c Hc. apply in_textCalls in Hc.
  destruct Hc as [[re ->] | (cb & result & ->)]; reflexivity.
Qed.

Lemma forallb_replyCalls message l :
  forallb isReplyCallback (replyCalls message l) = true.
Proof.
  apply forallb_forall. intros c Hc. apply in_replyCalls in Hc.
  destruct Hc as [cb ->]. reflexivity.
Qed.

(** The dispatch of a message goes through three stages, in this order:
    the notifications -- "message", then one for each key of
    [_messageTypes] that the message populates, in the order of that
    list --, then the matching of the text, then the reply callbacks. *)
Theorem message_dispatch_in_stages (env : Env) this h update :
  quiet env ->
  truthy (member update "message") = true ->
  let message := member update "message" in
  exists matching replies,
    trace (run env (processUpdate update) this h) =
      (Emit "message" message ::
       map (fun messageType => Emit messageType message)
           (filter (fun messageType => truthy (member message messageType))
                   _messageTypes))
      ++ matching ++ replies
    /\ forallb isMatching matching = true
    /\ forallb isReplyCallback replies = true.
Proof.
  intros Hq Hm message.
  rewrite (run_quiet _ _ _ Hq), run_processUpdate_message by exact Hm.
  cbn [trace]. fold message. unfold messageCalls, typeCalls.
  eexists. eexists. split; [reflexivity |]. split.
  - destruct (truthy (member message "text"));
      [apply forallb_textCalls | reflexivity].
  - destruct (truthy (member message "reply_to_message"));
      [apply forallb_replyCalls | reflexivity].
Qed.


(** Among any subscribers, a message without a text (none, or a falsy
    one) emits no "text" and has no matcher tested or called, and a
    message that does not reply to another has no reply callback called,
    whatever the tables hold. *)
Theorem absent_fields_skip_stages (env : Env) this h update :
  truthy (member update "message") = true ->
  let message := member update "message" in
  let calls := trace (run env (processUpdate update) this h) in
  (truthy (member message "text") = false ->
   filter (emitted "text") calls = [] /\ filter isMatching calls = [])
  /\ (truthy (member message "reply_to_message") = false ->
      filter isReplyCallback calls = []).
Proof.
  intros Hm message calls. subst calls.
  assert (Hcalm : trace (run calm (processUpdate update) this h) =
                  messageCalls this message).
  { rewrite run_processUpdate_message by exact Hm. reflexivity. }
  assert (Hreply : forall f, (forall cb, f (ReplyCallback cb message) = false) ->
                filter f (if truthy (member message "reply_to_message")
                          then replyCalls message (_replyListeners this)
                          else []) = []).
  { intros f Hf. destruct (truthy (member message "reply_to_message"));
      [apply filter_replyCalls; exact Hf | reflexivity]. }
  split.
  - intros Ht. split; apply filter_trace_nil; rewrite Hcalm;
      unfold messageCalls; rewrite Ht;
      change (Emit "message" message :: typeCalls message)
        with ([Emit "message" message] ++ typeCalls message);
      rewrite !filter_app, Hreply by reflexivity; rewrite !app_nil_r.
    + cbn [filter emitted String.eqb Ascii.eqb Bool.eqb app].
      apply filter_none. intros c Hc. apply in_typeCalls in Hc.
      destruct Hc as (t & -> & _ & Htruthy). cbn [emitted].
      destruct (String.eqb_spec t "text") as [-> | _]; [| reflexivity].
      rewrite Ht in Htruthy. discriminate.
    + cbn [filter isMatching isExec isTextCallback orb app].
      apply filter_typeCalls. reflexivity.
  - intros Hr. apply filter_trace_nil. rewrite Hcalm.
    unfold messageCalls. rewrite Hr.
    change (Emit "message" message :: typeCalls message)
      with ([Emit "message" message] ++ typeCalls message).
    rewrite !filter_app, filter_typeCalls by reflexivity.
    rewrite !app_nil_r. cbn [filter isReplyCallback app].
    destruct (truthy (member message "text"));
      [apply filter_textCalls; reflexivity | reflexivity].
Qed.


(** An update that is not an object: [processUpdate(undefined)] and
    [processUpdate(null)] throw the [TypeError] of reading [message] and
    emit nothing; on a boolean, a number, a string or an array
    [processUpdate] emits nothing and returns. *)
Theorem update_that_is_no_object (env : Env) this h update :
  (nullish update = true ->
   run env (processUpdate update) this h =
   mkOutcome this [] (Abrupt (TypeError "message")))
  /\ (nullish update = false -> isObject update = false ->
      run env (processUpdate update) this h = mkOutcome this [] (Normal tt)).
Proof.
  split.
  - intros Hn. unfold processUpdate, get. rewrite Hn. reflexivity.
  - intros Hn Ho. rewrite processUpdate_none; [reflexivity | exact Hn |].
    destruct update; try discriminate; reflexivity.
Qed.

Lemma live_emit (env : Env) (touch : Touch (@Bot Polling WebHook))
  event payload this h :
  quiet env ->
  live env touch (emit event payload) this h =
  mkOutcome (touch h (Emit event payload) this) [Emit event payload] (Normal tt).
Proof.
  intros Hq. unfold emit. cbn [live]. rewrite (raised_quiet h _ Hq). reflexivity.
Qed.

Lemma live_processMessageType (env : Env) (touch : Touch (@Bot Polling WebHook))
  message messageType this h :
  quiet env -> nullish message = false ->
  live env touch (processMessageType message messageType) this h =
  if truthy (member message messageType) then
    mkOutcome (touch h (Emit messageType message) this)
              [Emit messageType message] (Normal tt)
  else mkOutcome this [] (Normal tt).
Proof.
  intros Hq Hm. unfold processMessageType, get. rewrite Hm. cbn [bind].
  destruct (truthy (member message messageType)); [| reflexivity].
  apply live_emit. exact Hq.
Qed.

Lemma live_types (env : Env) (touch : Touch (@Bot Polling WebHook))
  message types this h :
  quiet env -> nullish message = false ->
  trace (live env touch (forEach (processMessageType message) types) this h) =
  map (fun messageType => Emit messageType message)
      (filter (fun messageType => truthy (member message messageType)) types).
Proof.
  intros Hq Hm. revert this h.
  induction types as [| t types IH]; intros this h; [reflexivity |].
  cbn [forEach filter].
  rewrite live_bind, live_processMessageType by assumption.
  destruct (truthy (member message t)); cbn [completion final trace map app].
  - rewrite IH. reflexivity.
  - apply IH.
Qed.

Lemma filter_isEmit_calls A (env : Env) (touch : Touch (@Bot Polling WebHook))
  (p : @M Polling WebHook A) this h :
  callsOnly (fun c => isEmit c = false) p ->
  filter isEmit (trace (live env touch p this h)) = [].
Proof.
  intros Hp. apply filter_none. intros c Hin.
  exact (live_callsOnly _ env touch p this h c Hp Hin).
Qed.

Lemma live_edited_emits (env : Env) (touch : Touch (@Bot Polling WebHook))
  payload this h :
  quiet env -> nullish payload = false ->
  trace (live env touch (onEditedMessage payload) this h) =
    editedCalls "edited_message" "edited_message_text"
                "edited_message_caption" payload
  /\ trace (live env touch (onEditedChannelPost payload) this h) =
       editedCalls "edited_channel_post" "edited_channel_post_text"
                   "edited_channel_post_caption" payload.
Proof.
  intros Hq Hm.
  unfold onEditedMessage, onEditedChannelPost, editedCalls, get.
  rewrite Hm. cbn [bind].
  split; rewrite live_bind, live_emit by exact Hq;
    cbn [completion final trace];
    (destruct (truthy (member payload "text"));
     [rewrite live_bind, live_emit by exact Hq | cbn [bind live]];
     cbn [completion final trace];
     (destruct (truthy (member payload "caption"));
      [rewrite live_emit by exact Hq | cbn [live]]; reflexivity)).
Qed.

(** The notifications of a block, among any calls that do not throw. *)
Lemma live_branch_emits (env : Env) (touch : Touch (@Bot Polling WebHook))
  variant payload this h :
  quiet env -> truthy payload = true ->
  filter isEmit (trace (live env touch (branch variant payload) this h))
  = noticeCalls variant payload.
Proof.
  intros Hq Ht. pose proof (truthy_not_nullish _ Ht) as Hm.
  unfold branch, noticeCalls.
  destruct (variant =? "message")%string.
  { unfold onMessage.
    destruct (live_then touch (emit "message" payload)
                (fun _ =>
                   forEach (processMessageType payload) _messageTypes ;;
                   text <- get payload "text" ;;
                   (if truthy text then
                      someOf _textRegexpCallbacks (matchText payload) ;; Ret tt
                    else Ret tt) ;;
                   reply_to_message <- get payload "reply_to_message" ;;
                   if truthy reply_to_message then
                     forEachOf _replyListeners (matchReply payload)
                   else Ret tt)
                this h Hq) as [a1 He1]; [repeat shape_step .. |].
    cbv zeta in He1. rewrite He1. clear He1.
    rewrite live_emit by exact Hq. cbn [trace app filter isEmit]. f_equal.
    match goal with
    | |- context [live env touch (bind ?p ?f) ?s1 ?h1] =>
        destruct (live_then touch p f s1 h1 Hq) as [a2 He2]
    end.
    { unfold processMessageType. repeat shape_step. }
    { unfold processMessageType. repeat shape_step. }
    cbv zeta in He2. rewrite He2. clear He2. cbn [trace].
    rewrite live_types by assumption. rewrite filter_app.
    rewrite filter_isEmit_calls.
    - rewrite app_nil_r. apply filter_all. intros c Hc.
      apply in_map_iff in Hc. destruct Hc as (t & <- & _). reflexivity.
    - unfold someOf, forEachOf, matchText, matchReply.
      repeat shape_step; reflexivity. }
  destruct (variant =? "edited_message")%string.
  { rewrite (proj1 (live_edited_emits touch payload this h Hq Hm)).
    unfold editedCalls.
    destruct (truthy (member payload "text")),
             (truthy (member payload "caption")); reflexivity. }
  destruct (variant =? "channel_post")%string.
  { unfold onChannelPost. rewrite live_emit by exact Hq. reflexivity. }
  destruct (variant =? "edited_channel_post")%string.
  { rewrite (proj2 (live_edited_emits touch payload this h Hq Hm)).
    unfold editedCalls.
    destruct (truthy (member payload "text")),
             (truthy (member payload "caption")); reflexivity. }
  rewrite live_emit by exact Hq. reflexivity.
Qed.

Lemma live_emits (env : Env) (touch : Touch (@Bot Polling WebHook))
  update this h :
  quiet env ->
  filter isEmit (trace (live env touch (processUpdate update) this h))
  = emitsOf update.
Proof.
  intros Hq. unfold emitsOf.
  destruct (firstPopulated update variants) as [[variant payload] |] eqn:Hf.
  - rewrite (processUpdate_branch _ Hf).
    destruct (firstPopulated_truthy _ _ Hf) as (Ht & _).
    apply live_branch_emits; assumption.
  - destruct (nullish update) eqn:Hn.
    + unfold processUpdate, get. rewrite Hn. reflexivity.
    + rewrite (processUpdate_none _ Hn Hf). reflexivity.
Qed.

(** [processUpdate] keeps no record of the updates it has seen.  Among
    calls that do not throw, whatever they do to the bot in between --
    subscribers that call its methods, [exec] that moves the [lastIndex]
    of a registered expression --, the notifications of a dispatch are
    those of the update, by its first populated variant; handed the same
    update a second time, [processUpdate] emits them a second time. *)
Theorem redelivery_dispatches_again (env : Env)
  (touch : Touch (@Bot Polling WebHook)) this h update :
  quiet env ->
  filter isEmit (trace (live env touch (processUpdate update) this h))
  = emitsOf update
  /\ (completion (live env touch (processUpdate update) this h) = Normal tt ->
      filter isEmit
        (trace (live env touch (processUpdate update ;; processUpdate update)
                     this h))
      = emitsOf update ++ emitsOf update).
Proof.
  intros Hq. split; [apply live_emits; exact Hq |].
  intros Hc. rewrite live_bind, Hc. cbv zeta. cbn [trace].
  rewrite filter_app, !live_emits by exact Hq. reflexivity.
Qed.

(** [processUpdate] writes nothing of its own.  Among any subscribers,
    whatever they throw and whatever they do to the bot while the update
    is dispatched, the bot at the end is the bot as the calls have left
    it; so among subscribers that leave the bot alone every field is as
    it was, also when one of them throws. *)
Theorem dispatch_never_writes (env : Env)
  (touch : Touch (@Bot Polling WebHook)) this h update :
  final (live env touch (processUpdate update) this h)
  = touched touch h (trace (live env touch (processUpdate update) this h)) this
  /\ final (run env (processUpdate update) this h) = this.
Proof.
  split.
  - apply live_writesNothing. apply writesNothing_processUpdate.
  - apply (@keeps_run _ _ (fun s => s = this)); [| reflexivity].
    apply keeps_processUpdate.
Qed.

End MoreDispatch.

(** ** The transports over the life of a bot *)

Section MoreLifecycle.

Context {Polling WebHook D : Type} `{T : Transports Polling WebHook D}.

Implicit Types (this : @Bot Polling WebHook) (h : list Call).

Lemma run_startPolling (env : Env) this h options0 :
  run env (startPolling options0) this h =
  if openNow this then
    mkOutcome this []
      (Normal (PromiseReject
         (Errors.FatalError (inr "Polling and WebHook are mutually exclusive"))))
  else
    let engine := match _polling this with
                  | Some p => p
                  | None => newPolling (options this)
                  end in
    mkOutcome
      (set_polling (Some (fst (polling_start (started options0) engine))) this)
      [] (Normal (FromTransport (snd (polling_start (started options0) engine)))).
Proof.
  unfold startPolling, hasOpenWebHook, openNow, started. simpl.
  destruct (_webHook this) as [w |]; simpl;
    [destruct (webHook_isOpen w); [reflexivity |] |]; simpl;
    destruct (_polling this) as [p |] eqn:Hp; simpl; rewrite ?Hp; simpl;
    match goal with
    | |- context [polling_start ?o ?p] => destruct (polling_start o p)
    end; reflexivity.
Qed.

Lemma run_openWebHook (env : Env) this h :
  run env openWebHook this h =
  if pollingNow this then
    mkOutcome this []
      (Normal (PromiseReject
         (Errors.FatalError (inr "WebHook and Polling are mutually exclusive"))))
  else
    let receiver := match _webHook this with
                    | Some w => w
                    | None => newWebHook (options this)
                    end in
    mkOutcome (set_webHook (Some (fst (webHook_open receiver))) this)
      [] (Normal (FromTransport (snd (webHook_open receiver)))).
Proof.
  unfold openWebHook, isPolling, pollingNow. simpl.
  destruct (_polling this) as [p |]; simpl;
    [destruct (polling_isPolling p); [reflexivity |] |]; simpl;
    destruct (_webHook this) as [w |] eqn:Hw; simpl; rewrite ?Hw; simpl;
    match goal with
    | |- context [webHook_open ?w] => destruct (webHook_open w)
    end; reflexivity.
Qed.

Lemma run_stopPolling (env : Env) this h :
  run env stopPolling this h =
  match _polling this with
  | None => mkOutcome this [] (Normal PromiseResolve)
  | Some p =>
      mkOutcome (set_polling (Some (fst (polling_stop p))) this) []
        (Normal (FromTransport (snd (polling_stop p))))
  end.
Proof.
  unfold stopPolling. simpl. destruct (_polling this) as [p |]; [| reflexivity].
  destruct (polling_stop p). reflexivity.
Qed.

Lemma run_closeWebHook (env : Env) this h :
  run env closeWebHook this h =
  match _webHook this with
  | None => mkOutcome this [] (Normal PromiseResolve)
  | Some w =>
      mkOutcome (set_webHook (Some (fst (webHook_close w))) this) []
        (Normal (FromTransport (snd (webHook_close w))))
  end.
Proof.
  unfold closeWebHook. simpl. destruct (_webHook this) as [w |]; [| reflexivity].
  destruct (webHook_close w). reflexivity.
Qed.

(** Where it is not rejected, [startPolling] hands the start to the
    engine the bot already has, and builds one, from the options of the
    bot, only when it has none; the engine receives [restart: true]
    unless the caller has set [restart]; the promise returned is the
    engine's.  [openWebHook] treats its receiver the same way. *)
Theorem transports_are_built_once (env : Env) this h :
  (forall options0,
     openNow this = false ->
     let engine := match _polling this with
                   | Some p => p
                   | None => newPolling (options this)
                   end in
     let options1 :=
       mkStartOptions (match restart options0 with
                       | None => Some true
                       | Some b => Some b
                       end) in
     run env (startPolling options0) this h =
     mkOutcome (set_polling (Some (fst (polling_start options1 engine))) this)
       [] (Normal (FromTransport (snd (polling_start options1 engine)))))
  /\ (pollingNow this = false ->
      let receiver := match _webHook this with
                      | Some w => w
                      | None => newWebHook (options this)
                      end in
      run env openWebHook this h =
      mkOutcome (set_webHook (Some (fst (webHook_open receiver))) this)
        [] (Normal (FromTransport (snd (webHook_open receiver))))).
Proof.
  split.
  - intros options0 Hopen. rewrite run_startPolling, Hopen. reflexivity.
  - intros Hpoll. rewrite run_openWebHook, Hpoll. reflexivity.
Qed.

(** A lifecycle method makes no call to a subscriber and writes nothing
    but its own engine: the token, the options, both tables, the id
    counter and the engine of the other transport are as before. *)
Theorem lifecycle_writes_its_engine_only (env : Env) this h m :
  isLifecycle m = true ->
  let r := run env (invoke m) this h in
  trace r = []
  /\ token (final r) = token this
  /\ options (final r) = options this
  /\ _replyListeners (final r) = _replyListeners this
  /\ _textRegexpCallbacks (final r) = _textRegexpCallbacks this
  /\ _replyListenerId (final r) = _replyListenerId this
  /\ match m with
     | StartPolling _ | StopPolling => _webHook (final r) = _webHook this
     | _ => _polling (final r) = _polling this
     end.
Proof.
  destruct m; try discriminate; intros _ r; subst r; cbn [invoke];
    rewrite run_bind.
  - rewrite run_startPolling. destruct (openNow this); repeat split.
  - rewrite run_stopPolling. destruct (_polling this); repeat split.
  - rewrite run_openWebHook. destruct (pollingNow this); repeat split.
  - rewrite run_closeWebHook. destruct (_webHook this); repeat split.
Qed.

End MoreLifecycle.

(** ** What the methods keep over the life of a bot *)

Ltac frame_step :=
  match goal with
  | |- keeps _ (bind getThis _) => cbn [bind getThis keeps]; intros ? ?
  | |- keeps _ (bind _ _) => apply keeps_bind; [| intros ?]
  | |- keeps _ (get _ _) => apply keeps_get
  | |- keeps _ (Ret _) => exact Logic.I
  | |- keeps _ (Throw _) => exact Logic.I
  | |- keeps _ (Get _) => cbn [keeps]; intros ? ?
  | |- keeps _ (if ?b then _ else _) => destruct b
  | |- keeps _ (putThis _) => split; [| exact Logic.I]
  | |- keeps _ (match ?x with _ => _ end) => destruct x
  | |- True => exact Logic.I
  | |- forall _, _ => intro
  end.

Section MoreInvariants.

Context {Polling WebHook D : Type} `{T : Transports Polling WebHook D}.

Implicit Types (this : @Bot Polling WebHook) (h : list Call).

Variable Inv : @Bot Polling WebHook -> Prop.

Lemma keeps_lifecycle_gen :
  (forall s p, Inv s -> Inv (set_polling (Some p) s)) ->
  (forall s w, Inv s -> Inv (set_webHook (Some w) s)) ->
  (forall o, keeps Inv (startPolling o))
  /\ keeps Inv stopPolling
  /\ keeps Inv openWebHook
  /\ keeps Inv closeWebHook.
Proof.
  intros H1 H2.
  unfold startPolling, stopPolling, openWebHook, closeWebHook,
    hasOpenWebHook, isPolling.
  repeat split; intros; repeat frame_step;
    first [apply H1 | apply H2]; assumption.
Qed.

Lemma keeps_tables_gen :
  (forall s x, Inv s ->
     Inv (set_textRegexpCallbacks (_textRegexpCallbacks s ++ [x]) s)) ->
  (forall s, Inv s -> Inv (set_replyListenerId (_replyListenerId s + 1) s)) ->
  (forall s l, Inv s -> Inv (set_replyListeners l s)) ->
  (forall re cb, keeps Inv (onText re cb))
  /\ (forall c m cb, keeps Inv (onReplyToMessage c m cb))
  /\ (forall i, keeps Inv (removeReplyListener i)).
Proof.
  intros H3 H4 H5.
  unfold onText, onReplyToMessage, removeReplyListener.
  repeat split; intros; cbv zeta; repeat frame_step;
    first [apply H3 | apply H4 | apply H5]; assumption.
Qed.

Lemma keeps_invoke :
  (forall s p, Inv s -> Inv (set_polling (Some p) s)) ->
  (forall s w, Inv s -> Inv (set_webHook (Some w) s)) ->
  (forall s x, Inv s ->
     Inv (set_textRegexpCallbacks (_textRegexpCallbacks s ++ [x]) s)) ->
  (forall s, Inv s -> Inv (set_replyListenerId (_replyListenerId s + 1) s)) ->
  (forall s l, Inv s -> Inv (set_replyListeners l s)) ->
  forall m, keeps Inv (invoke m).
Proof.
  intros H1 H2 H3 H4 H5 m.
  destruct (keeps_lifecycle_gen H1 H2) as (Hstart & Hstop & Hopen & Hclose).
  destruct (keeps_tables_gen H3 H4 H5) as (Htext & Hreply & Hremove).
  destruct m; cbn [invoke];
    try (apply keeps_bind; [| intros; exact Logic.I]); auto.
  apply keeps_processUpdate.
Qed.

Lemma keeps_constructor_gen token0 options0 :
  (forall s p, Inv s -> Inv (set_polling (Some p) s)) ->
  (forall s w, Inv s -> Inv (set_webHook (Some w) s)) ->
  Inv (mkBot token0 (normalised options0) [] [] 0 None None) ->
  forall env s0 h, Inv (final (run env (constructor token0 options0) s0 h)).
Proof.
  intros H1 H2 H0 env s0 h.
  destruct (keeps_lifecycle_gen H1 H2) as (Hstart & _ & Hopen & _).
  unfold constructor. apply keeps_run_put.
  apply keeps_bind; [split; [exact H0 | exact Logic.I] | intros _].
  repeat first [apply Hstart | apply Hopen | frame_step].
Qed.

End MoreInvariants.

Section MoreHistories.

Context {Polling WebHook D : Type} `{T : Transports Polling WebHook D}.

Implicit Types (this : @Bot Polling WebHook) (h : list Call).

Lemma Reaches_keeps (Inv : @Bot Polling WebHook -> Prop) s s' :
  (forall m, keeps Inv (invoke m)) -> Inv s -> Reaches s s' -> Inv s'.
Proof.
  intros Hk Hs Hr. induction Hr as [| env m s s' h _ IH]; [exact Hs |].
  apply keeps_run; [apply Hk | apply IH; exact Hs].
Qed.

(** The token and the options of a bot are those the constructor has
    stored: no method writes them. *)
Theorem token_and_options_are_fixed s s' :
  Reaches s s' -> token s' = token s /\ options s' = options s.
Proof.
  apply (@Reaches_keeps (fun x => token x = token s /\ options x = options s));
    [| split; reflexivity].
  apply keeps_invoke; intros; assumption.
Qed.

(** The matchers registered by [onText] stay registered, in the order of
    their registration: whatever methods are called, the table of
    matchers only grows at its end. *)
Theorem matchers_are_only_appended s s' :
  Reaches s s' ->
  exists added, _textRegexpCallbacks s' = _textRegexpCallbacks s ++ added.
Proof.
  apply (@Reaches_keeps
           (fun x => exists added,
                       _textRegexpCallbacks x = _textRegexpCallbacks s ++ added));
    [| exists []; symmetry; apply app_nil_r].
  apply keeps_invoke; try (intros; assumption).
  intros x reg [added Hx]. exists (added ++ [reg]).
  cbn [set_textRegexpCallbacks _textRegexpCallbacks].
  rewrite Hx, app_assoc. reflexivity.
Qed.

Lemma counter_grows s s' :
  Reaches s s' -> _replyListenerId s <= _replyListenerId s'.
Proof.
  apply (@Reaches_keeps (fun x => _replyListenerId s <= _replyListenerId x));
    [| lia].
  apply keeps_invoke; try (intros; assumption).
  intros x Hx. cbn [set_replyListenerId _replyListenerId]. lia.
Qed.

Lemma Reachable_Reaches s s' : Reachable s -> Reaches s s' -> Reachable s'.
Proof.
  intros Hs Hr. induction Hr as [| env m s s' h _ IH]; [exact Hs |].
  apply Reachable_step. apply IH. exact Hs.
Qed.

(** The id of a reply listener is never issued again, also after the
    listener has been removed: every id that [onReplyToMessage] returns is
    greater than the id of every listener the table has ever held. *)
Theorem reply_ids_are_never_reused (env : Env) s s' h entry
  chatId0 messageId0 callback0 :
  Reachable s ->
  In entry (_replyListeners s) ->
  Reaches s s' ->
  exists i,
    completion (run env (onReplyToMessage chatId0 messageId0 callback0) s' h)
    = Normal i
    /\ id entry < i.
Proof.
  intros Hs Hin Hr. rewrite run_onReplyToMessage. cbn [completion].
  eexists. split; [reflexivity |].
  destruct (Reachable_tableOk Hs) as (_ & _ & Hids).
  pose proof (Hids entry Hin). pose proof (counter_grows Hr). lia.
Qed.

(** Registering a reply listener and removing it by the id returned
    gives back the listener that was registered and leaves the table as
    it was; of the bot only the id counter has moved. *)
Theorem register_then_remove (env : Env) this h chatId0 messageId0 callback0 :
  Reachable this ->
  run env (i <- onReplyToMessage chatId0 messageId0 callback0 ;;
           removeReplyListener i) this h =
  mkOutcome (set_replyListenerId (_replyListenerId this + 1) this) []
    (Normal (Some (mkReplyListener (_replyListenerId this + 1)
                                   chatId0 messageId0 callback0))).
Proof.
  intros Hreach. destruct (Reachable_tableOk Hreach) as (_ & _ & Hids).
  rewrite run_bind, run_onReplyToMessage. cbn [completion final trace].
  set (entry := mkReplyListener (_replyListenerId this + 1)
                                chatId0 messageId0 callback0).
  set (this' := set_replyListeners (_replyListeners this ++ [entry])
                  (set_replyListenerId (_replyListenerId this + 1) this)).
  assert (Hrun : run env (removeReplyListener (id entry)) this' (h ++ []) =
                 mkOutcome (set_replyListeners (_replyListeners this ++ []) this')
                           [] (Normal (Some entry))).
  { apply run_removeReplyListener_found; [reflexivity |].
    intros y Hy. specialize (Hids y Hy). cbn [entry id]. lia. }
  cbn [entry id] in Hrun. fold entry in Hrun. rewrite Hrun.
  cbn [completion final trace app]. rewrite app_nil_r. reflexivity.
Qed.

Lemma removeReplyListener_noCalls i :
  callsOnly (fun _ => False) (@removeReplyListener Polling WebHook i).
Proof.
  unfold removeReplyListener. cbn [bind getThis callsOnly]. intros s.
  destruct (findIndex (fun replyListener => id replyListener =? i)
              (_replyListeners s) =? -1); [exact Logic.I |].
  destruct (splice _ 1 (_replyListeners s)). exact Logic.I.
Qed.

(** A listener that has been removed no longer fires, and the others
    fire as before.  After [removeReplyListener(id)], among subscribers
    that do not throw and take no listener out of the table during the
    dispatch, a reply invokes, after its other calls, the callbacks of
    the listeners that await it in the table without the removed
    listener, as it is when the scan begins, in table order. *)
Theorem removed_listener_no_longer_fires (env : Env)
  (touch : Touch (@Bot Polling WebHook)) this h update entry :
  Reachable this ->
  In entry (_replyListeners this) ->
  quiet env ->
  addsOnly touch ->
  truthy (member update "message") = true ->
  truthy (member (member update "message") "reply_to_message") = true ->
  nullish (member (member update "message") "chat") = false ->
  let message := member update "message" in
  exists before after,
    _replyListeners this = before ++ entry :: after
    /\ ~ In entry (before ++ after)
    /\ let r := live env touch
                  (removeReplyListener (id entry) ;; processUpdate update)
                  this h in
       let pre := filter isOther (trace r) in
       let table :=
         _replyListeners
           (touched touch h pre (set_replyListeners (before ++ after) this)) in
       trace r =
         pre ++ map (fun reply => ReplyCallback (callback reply) message)
                    (filter (awaits message) table)
       /\ (exists added, table = (before ++ after) ++ added)
       /\ completion r = Normal tt.
Proof.
  intros Hreach Hin Hq Hadds Hm Hr Hc message.
  pose proof (Reachable_tableOk Hreach) as Hok.
  destruct Hok as (Hnd & Hpos & Hids).
  destruct (first_split (fun l => id l =? id entry) _ entry Hin (Z.eqb_refl _))
    as (before & y & after & Htable & Hy & Hb).
  apply Z.eqb_eq in Hy.
  assert (y = entry) as ->.
  { apply (NoDup_map_same id (_replyListeners this)); auto.
    rewrite Htable. apply in_or_app. right. left. reflexivity. }
  assert (Hb' : forall z, In z before -> id z <> id entry).
  { intros z Hz. apply Z.eqb_neq. apply Hb. exact Hz. }
  destruct (@tableOk_remove _ _ this before entry after Htable
              (conj Hnd (conj Hpos Hids))) as (_ & Hgone).
  exists before, after. split; [exact Htable |]. split.
  { intros Hstill. exact (Hgone entry Hstill eq_refl). }
  cbv zeta. rewrite live_bind.
  rewrite (live_noCalls env touch _ this h
             (removeReplyListener_noCalls (id entry))).
  rewrite (@run_removeReplyListener_found _ _ env this h before entry after
             Htable Hb').
  cbn [completion final trace app]. rewrite app_nil_r.
  destruct (live_message_scans (set_replyListeners (before ++ after) this) h
              update Hq Hadds Hm Hr Hc) as (H1 & _ & H3).
  split; [exact H1 |]. split; [| exact H3].
  apply (touched_addsOnly h _ (set_replyListeners (before ++ after) this) Hadds).
Qed.

End MoreHistories.

(** ** Construction *)

Section MoreConstruction.

Context {Polling WebHook D : Type} `{T : Transports Polling WebHook D}.

Implicit Types (this : @Bot Polling WebHook) (h : list Call).

(** Once built, an engine stays with the bot: whatever methods are
    called, the polling engine the bot holds is the one it held before,
    as the calls of [start] and [stop] in between have left it -- it is
    never set back to [null] and never replaced by another --, and
    likewise the webhook receiver with [open] and [close]. *)
Theorem engines_are_never_dropped s s' :
  Reaches s s' ->
  (forall p, _polling s = Some p ->
     exists p', _polling s' = Some p' /\ PollingSteps p p')
  /\ (forall w, _webHook s = Some w ->
        exists w', _webHook s' = Some w' /\ WebHookSteps w w').
Proof.
  intros Hr. induction Hr as [s | env m s s' h _ IH].
  { split; intros x Hx; exists x; split; auto; constructor. }
  assert (Hsame : forall x : @Bot Polling WebHook,
             _polling x = _polling s' /\ _webHook x = _webHook s' ->
             (forall p, _polling s = Some p ->
                exists p', _polling x = Some p' /\ PollingSteps p p')
             /\ (forall w, _webHook s = Some w ->
                   exists w', _webHook x = Some w' /\ WebHookSteps w w')).
  { intros x (-> & ->). exact IH. }
  destruct IH as (IHp & IHw). destruct m; cbn [invoke].
  - rewrite run_bind, run_startPolling.
    destruct (openNow s'); cbn [completion final run]; [split; assumption |].
    cbn [set_polling _polling _webHook]. split; [| exact IHw].
    intros p Hp. destruct (IHp p Hp) as (p' & -> & Hsteps).
    eexists. split; [reflexivity |]. apply PollingSteps_start. exact Hsteps.
  - rewrite run_bind, run_stopPolling.
    destruct (_polling s') as [p0 |] eqn:Hp0; cbn [completion final run].
    + cbn [set_polling _polling _webHook]. split; [| exact IHw].
      intros p Hp. destruct (IHp p Hp) as (p' & [= ->] & Hsteps).
      eexists. split; [reflexivity |]. apply PollingSteps_stop. exact Hsteps.
    + rewrite Hp0. split; assumption.
  - rewrite run_bind, run_openWebHook.
    destruct (pollingNow s'); cbn [completion final run]; [split; assumption |].
    cbn [set_webHook _polling _webHook]. split; [exact IHp |].
    intros w Hw. destruct (IHw w Hw) as (w' & -> & Hsteps).
    eexists. split; [reflexivity |]. apply WebHookSteps_open. exact Hsteps.
  - rewrite run_bind, run_closeWebHook.
    destruct (_webHook s') as [w0 |] eqn:Hw0; cbn [completion final run].
    + cbn [set_webHook _polling _webHook]. split; [exact IHp |].
      intros w Hw. destruct (IHw w Hw) as (w' & [= ->] & Hsteps).
      eexists. split; [reflexivity |]. apply WebHookSteps_close. exact Hsteps.
    + rewrite Hw0. split; assumption.
  - rewrite processUpdate_final. split; assumption.
  - apply Hsame.
    apply (@keeps_run _ _
             (fun x => _polling x = _polling s' /\ _webHook x = _webHook s'));
      [| split; reflexivity].
    apply (@keeps_tables_gen _ _
             (fun x => _polling x = _polling s' /\ _webHook x = _webHook s'));
      intros; assumption.
  - apply Hsame.
    apply (@keeps_run _ _
             (fun x => _polling x = _polling s' /\ _webHook x = _webHook s'));
      [| split; reflexivity].
    apply keeps_bind; [| intros; exact Logic.I].
    apply (@keeps_tables_gen _ _
             (fun x => _polling x = _polling s' /\ _webHook x = _webHook s'));
      intros; assumption.
  - apply Hsame.
    apply (@keeps_run _ _
             (fun x => _polling x = _polling s' /\ _webHook x = _webHook s'));
      [| split; reflexivity].
    apply keeps_bind; [| intros; exact Logic.I].
    apply (@keeps_tables_gen _ _
             (fun x => _polling x = _polling s' /\ _webHook x = _webHook s'));
      intros; assumption.
Qed.

Lemma normalised_options options0 :
  truthy (baseApiUrl (normalised options0)) = true
  /\ typeof_undefined (filepath (normalised options0)) = false.
Proof.
  unfold normalised. cbn [baseApiUrl filepath]. split.
  - destruct (truthy (baseApiUrl options0)) eqn:Hb; [exact Hb | reflexivity].
  - destruct (typeof_undefined (filepath options0)) eqn:Hf;
      [reflexivity | exact Hf].
Qed.

(** On every bot the options hold a truthy [baseApiUrl] and a [filepath]
    that is not [undefined]: the constructor fills in
    "https://api.telegram.org" and [true], and nothing changes them. *)
Theorem options_are_filled_in this :
  Reachable this ->
  truthy (baseApiUrl (options this)) = true
  /\ typeof_undefined (filepath (options this)) = false.
Proof.
  induction 1 as [env token0 options0 s0 h _ | env m s h _ IH].
  - apply (@keeps_constructor_gen _ _ _ _
             (fun x => truthy (baseApiUrl (options x)) = true
                       /\ typeof_undefined (filepath (options x)) = false));
      try (intros; assumption).
    apply normalised_options.
  - apply keeps_run; [| exact IH].
    apply keeps_invoke; intros; assumption.
Qed.

Lemma run_constructor_nullish (env : Env) token0 options0 s0 h :
  (nullish (polling options0) = true ->
   run env (constructor token0 options0) s0 h =
   mkOutcome (mkBot token0 (normalised options0) [] [] 0 None None) []
     (Abrupt (TypeError "autoStart")))
  /\ (nullish (polling options0) = false ->
      nullish (webHook options0) = true ->
      completion (run env (constructor token0 options0) s0 h) =
      Abrupt (TypeError "autoOpen")).
Proof.
  split.
  - intros Hp. unfold constructor, isPollingOptions, get.
    cbn [putThis bind run polling]. rewrite Hp. reflexivity.
  - intros Hp Hw. unfold constructor, isPollingOptions, isWebHookOptions, get.
    cbn [putThis bind run polling webHook]. rewrite Hp, Hw. cbn [bind].
    destruct (typeof_undefined (member (polling options0) "autoStart")
              || strict_eq (member (polling options0) "autoStart") (JBool true)).
    + rewrite run_bind, run_bind, run_startPolling. cbn [openNow _webHook].
      reflexivity.
    + reflexivity.
Qed.

(** The state in which the constructor leaves the bot. *)
Lemma run_constructor (env : Env) token0 options0 s0 h :
  nullish (polling options0) = false ->
  nullish (webHook options0) = false ->
  run env (constructor token0 options0) s0 h =
  let s1 := mkBot token0 (normalised options0) [] [] 0 None None in
  let s2 :=
    if automatic (member (polling options0) "autoStart") then
      set_polling
        (Some (fst (polling_start (mkStartOptions (Some true))
                                  (newPolling (normalised options0))))) s1
    else s1 in
  let s3 :=
    if automatic (member (webHook options0) "autoOpen") then
      if pollingNow s2 then s2
      else set_webHook
             (Some (fst (webHook_open (newWebHook (normalised options0))))) s2
    else s2 in
  mkOutcome s3 [] (Normal tt).
Proof.
  intros Hp Hw. unfold constructor, isPollingOptions, isWebHookOptions, get,
    automatic.
  cbn [putThis bind run polling webHook]. rewrite Hp, Hw. cbn [bind].
  fold (normalised options0).
  destruct (typeof_undefined (member (polling options0) "autoStart")
            || strict_eq (member (polling options0) "autoStart") (JBool true)).
  - rewrite run_bind, run_bind, run_startPolling.
    cbn [openNow _webHook completion final trace run started restart
         _polling options].
    destruct (typeof_undefined (member (webHook options0) "autoOpen")
              || strict_eq (member (webHook options0) "autoOpen") (JBool true)).
    + rewrite run_bind, run_openWebHook.
      unfold started. cbn [restart completion final trace run].
      match goal with
      | |- context [pollingNow ?s] => destruct (pollingNow s)
      end; reflexivity.
    + reflexivity.
  - cbn [bind].
    destruct (typeof_undefined (member (webHook options0) "autoOpen")
              || strict_eq (member (webHook options0) "autoOpen") (JBool true)).
    + rewrite run_bind, run_openWebHook. reflexivity.
    + reflexivity.
Qed.

(** [new TelegramBot(token, options)] reads [options.polling.autoStart]
    and [options.webHook.autoOpen] whatever [polling] and [webHook] are:
    when [options.polling] is [undefined] or [null] -- as in
    [new TelegramBot(token)] -- it throws a [TypeError] before any
    transport is touched, and when only [options.webHook] is, it throws a
    [TypeError] as well. *)
Theorem constructor_needs_both_transport_options (env : Env)
  token0 options0 s0 h :
  (nullish (polling options0) = true ->
   run env (constructor token0 options0) s0 h =
   mkOutcome (mkBot token0 (normalised options0) [] [] 0 None None) []
     (Abrupt (TypeError "autoStart")))
  /\ (nullish (polling options0) = false ->
      nullish (webHook options0) = true ->
      completion (run env (constructor token0 options0) s0 h) =
      Abrupt (TypeError "autoOpen")).
Proof. apply run_constructor_nullish. Qed.

(** With both transport options given, the constructor returns a bot
    with empty tables and the id counter at 0, and starts the transports
    by what [autoStart] and [autoOpen] are, not by what [polling] and
    [webHook] are: polling is started unless [options.polling.autoStart]
    is there and is not [true] -- so also for [polling: false] --, and
    then the webhook is opened unless [options.webHook.autoOpen] is there
    and is not [true], or the engine just started reports that it polls. *)
Theorem constructor_starts_by_autoStart (env : Env) token0 options0 s0 h :
  nullish (polling options0) = false ->
  nullish (webHook options0) = false ->
  let fresh := mkBot token0 (normalised options0) [] [] 0 None None in
  let polled :=
    if automatic (member (polling options0) "autoStart") then
      set_polling
        (Some (fst (polling_start (mkStartOptions (Some true))
                                  (newPolling (normalised options0))))) fresh
    else fresh in
  let opened :=
    if automatic (member (webHook options0) "autoOpen") then
      if pollingNow polled then polled
      else set_webHook
             (Some (fst (webHook_open (newWebHook (normalised options0)))))
             polled
    else polled in
  run env (constructor token0 options0) s0 h = mkOutcome opened [] (Normal tt).
Proof. intros Hp Hw. apply run_constructor; assumption. Qed.

End MoreConstruction.

(** ** The request layer *)

Section MoreProps.

Variable V : Type.

Lemma getProp_setProp_same k (v : V) props :
  getProp k (setProp k v props) = Some v.
Proof.
  induction props as [| [k' v'] props IH]; simpl.
  - rewrite String.eqb_refl. reflexivity.
  - destruct (String.eqb_spec k k') as [-> | Hk]; simpl.
    + rewrite String.eqb_refl. reflexivity.
    + destruct (String.eqb_spec k k'); [contradiction | exact IH].
Qed.

Lemma getProp_setProp_other k k' (v : V) props :
  k <> k' -> getProp k (setProp k' v props) = getProp k props.
Proof.
  intros Hk. induction props as [| [k0 v0] props IH]; simpl.
  - destruct (String.eqb_spec k k'); [contradiction | reflexivity].
  - destruct (String.eqb_spec k' k0) as [-> | Hk0]; simpl.
    + destruct (String.eqb_spec k k0); [contradiction | reflexivity].
    + destruct (String.eqb_spec k k0); [reflexivity | exact IH].
Qed.

End MoreProps.

Lemma lookup_getProp k props :
  lookup k props = match getProp k props with Some v => v | None => JUndefined end.
Proof.
  induction props as [| [k' v'] props IH]; simpl; [reflexivity |].
  destruct (k =? k')%string; [reflexivity | exact IH].
Qed.

Lemma getProp_assign_entries k entries (target : RequestOptions) :
  getProp k
    (fold_left (fun t kv => setProp (fst kv) (Plain (snd kv)) t) entries target)
  = if in_dec string_dec k (map fst entries) then
      getProp k
        (fold_left (fun t kv => setProp (fst kv) (Plain (snd kv)) t) entries [])
    else getProp k target.
Proof.
  revert target. induction entries as [| [k0 v0] entries IH]; intros target.
  - reflexivity.
  - cbn [fold_left fst snd map]. rewrite IH.
    rewrite (IH (setProp k0 (Plain v0) [])).
    destruct (in_dec string_dec k (map fst entries)) as [Hin | Hout].
    + destruct (in_dec string_dec k (k0 :: map fst entries)) as [_ | Hno];
        [reflexivity | exfalso; apply Hno; right; exact Hin].
    + destruct (string_dec k0 k) as [-> | Hk].
      * destruct (in_dec string_dec k (k :: map fst entries)) as [_ | Hno];
          [| exfalso; apply Hno; left; reflexivity].
        rewrite !getProp_setProp_same. reflexivity.
      * destruct (in_dec string_dec k (k0 :: map fst entries)) as [[Heq | Hin] | _];
          [contradiction | contradiction |].
        apply getProp_setProp_other. congruence.
Qed.

Lemma getProp_assign_last k v entries :
  NoDup (map fst entries) -> In (k, v) entries ->
  getProp k
    (fold_left (fun t kv => setProp (fst kv) (Plain (snd kv)) t) entries [])
  = Some (Plain v).
Proof.
  induction entries as [| [k0 v0] entries IH]; intros Hnd Hin; [destruct Hin |].
  cbn [fold_left fst snd map] in *. inversion Hnd as [| ? ? Hnotin Hnd']; subst.
  rewrite getProp_assign_entries.
  destruct (in_dec string_dec k (map fst entries)) as [Hk | Hk].
  - destruct Hin as [[= -> ->] | Hin]; [contradiction | exact (IH Hnd' Hin)].
  - destruct Hin as [[= -> ->] | Hin].
    + cbn. rewrite String.eqb_refl. reflexivity.
    + exfalso. apply Hk. apply (in_map fst) in Hin. exact Hin.
Qed.

Section MoreRequests.

Context {Polling WebHook : Type} {L : Library}.

Implicit Types (this : @Bot Polling WebHook).

(** [_fixReplyMarkup] serialises once.  Given that [JSON.stringify] of a
    truthy value that is no string is a string: a string and a falsy
    value are returned as they are, a truthy value comes out as a string,
    and fixing what has been fixed changes nothing. *)
Theorem reply_markup_is_serialised_once (replyMarkup : JsVal) :
  (forall v, truthy v = true -> isString v = false ->
             isString (stringify v) = true) ->
  (isString replyMarkup = true \/ truthy replyMarkup = false ->
   _fixReplyMarkup replyMarkup = replyMarkup)
  /\ (truthy replyMarkup = true -> isString (_fixReplyMarkup replyMarkup) = true)
  /\ _fixReplyMarkup (_fixReplyMarkup replyMarkup) = _fixReplyMarkup replyMarkup.
Proof.
  intros Hjson. unfold _fixReplyMarkup.
  destruct (truthy replyMarkup) eqn:Ht, (isString replyMarkup) eqn:Hs;
    cbn [andb negb]; rewrite ?Ht, ?Hs; cbn [andb negb];
    repeat split; try reflexivity; try tauto; try (intros [? | ?]; discriminate).
  - intros _. apply Hjson; assumption.
  - rewrite (Hjson _ Ht Hs). rewrite andb_false_r. reflexivity.
Qed.

(** Without a token nothing is posted: [_request] -- and with it
    [sendMessage], [forwardMessage] and [getFile] -- is rejected with the
    [FatalError] "Telegram Bot Token not provided!" whatever the network
    would answer. *)
Theorem nothing_is_posted_without_token (post : Network) this :
  token this = "" ->
  let missing :=
    inl (Replies.Fatal
           (Errors.mkBaseError "EFATAL"
              "EFATAL: Telegram Bot Token not provided!" None)) in
  (forall _path requestOptions options0,
     _request post this _path requestOptions options0 = missing)
  /\ (forall chatId text options0,
        sendMessage post this chatId text options0 = missing)
  /\ (forall chatId fromChatId messageId0 form,
        forwardMessage post this chatId fromChatId messageId0 form = missing)
  /\ (forall fileId, getFile post this fileId = missing).
Proof.
  intros Htoken missing.
  assert (Hreq : forall _path requestOptions options0,
            _request post this _path requestOptions options0 = missing).
  { intros. unfold _request. rewrite Htoken. reflexivity. }
  repeat split; intros; apply Hreq.
Qed.

(** The request options that [_request] posts: [forever] is [true],
    whatever the caller and the bot have set; the properties of the
    bot-wide [options.request] replace those of the call; the other
    properties of the call are posted as given. *)
Theorem request_options_precedence this _path requestOptions options0 :
  let posted := snd (fst (requestArguments this _path requestOptions options0)) in
  getProp "forever" posted = Some (Plain (JBool true))
  /\ (forall props k v,
        request (options this) = JObj props ->
        NoDup (map fst props) ->
        In (k, v) props -> k <> "forever" ->
        getProp k posted = Some (Plain v))
  /\ (forall k,
        k <> "forever" ->
        (truthy (request (options this)) = true ->
         ~ In k (map fst (ownEntries (request (options this))))) ->
        getProp k posted = getProp k requestOptions).
Proof.
  unfold requestArguments. cbn [fst snd]. split; [| split].
  - apply getProp_setProp_same.
  - intros props k v Hreq Hnd Hin Hk.
    rewrite getProp_setProp_other by exact Hk.
    rewrite Hreq. cbn [truthy]. unfold assign. cbn [ownEntries].
    rewrite getProp_assign_entries.
    destruct (in_dec string_dec k (map fst props)) as [_ | Hno].
    + apply getProp_assign_last; assumption.
    + exfalso. apply Hno. apply (in_map fst) in Hin. exact Hin.
  - intros k Hk Hout. rewrite getProp_setProp_other by exact Hk.
    destruct (truthy (request (options this))); [| reflexivity].
    unfold assign. rewrite getProp_assign_entries.
    destruct (in_dec string_dec k (map fst (ownEntries (request (options this)))))
      as [Hin | _]; [exfalso; exact (Hout eq_refl Hin) | reflexivity].
Qed.

(** The content that [_request] posts is the options of the call with
    [reply_markup] fixed; every other option is posted as given. *)
Theorem request_content_fixes_reply_markup this _path requestOptions options0 :
  let content := snd (requestArguments this _path requestOptions options0) in
  getProp "reply_markup" content
  = Some (_fixReplyMarkup (lookup "reply_markup" options0))
  /\ forall k, k <> "reply_markup" -> getProp k content = getProp k options0.
Proof.
  unfold requestArguments. cbn [snd]. split.
  - apply getProp_setProp_same.
  - intros k Hk. apply getProp_setProp_other. exact Hk.
Qed.

(** How the promise of [_request] settles, by the answer of the network:
    a rejection is passed on; a content that does not parse throws what
    [JSON.parse] throws; the content [null] throws a [TypeError]; a reply
    whose [ok] is falsy gives a [TelegramError] with the code
    [ETELEGRAM], the message "<error_code> <description>" and the
    response; any other reply gives its [result]. *)
Theorem request_settles_by_the_reply (post : Network) this
  _path requestOptions options0 answer :
  token this <> "" ->
  (forall url posted content, post url posted content = answer) ->
  let settled := _request post this _path requestOptions options0 in
  (forall reason, answer = inl reason -> settled = inl (Replies.Thrown reason))
  /\ (forall resp thrown,
        answer = inr resp -> parse (Replies.content resp) = inl thrown ->
        settled = inl (Replies.Thrown thrown))
  /\ (forall resp data,
        answer = inr resp -> parse (Replies.content resp) = inr data ->
        (nullish data = true ->
         settled = inl (Replies.Thrown (TypeError "ok")))
        /\ (nullish data = false -> truthy (member data "ok") = false ->
            settled =
            inl (Replies.Telegram
                   (Replies.mkResponseError
                      (Errors.mkBaseError "ETELEGRAM"
                         ("ETELEGRAM: " ++ toStr (member data "error_code")
                          ++ " " ++ toStr (member data "description"))%string
                         None)
                      (Some resp))))
        /\ (truthy (member data "ok") = true ->
            settled = inr (member data "result"))).
Proof.
  intros Htoken Hpost settled. subst settled. unfold _request.
  destruct (String.eqb_spec (token this) ""); [contradiction |].
  destruct (requestArguments this _path requestOptions options0)
    as [[url posted] content].
  rewrite Hpost. unfold settle. split; [| split].
  - intros reason ->. reflexivity.
  - intros resp thrown -> ->. reflexivity.
  - intros resp data -> ->. split; [| split].
    + intros ->. reflexivity.
    + intros -> ->. reflexivity.
    + intros Hok. rewrite (truthy_member_not_nullish _ _ Hok), Hok.
      reflexivity.
Qed.

End MoreRequests.

(** ** File names and files *)

Lemma dropChars_all n s : (String.length s <= n)%nat -> dropChars n s = "".
Proof.
  revert n. induction s as [| a s IH]; intros [| n] Hn; simpl in *;
    try reflexivity; try lia.
  apply IH. lia.
Qed.

Lemma slice_from start s : 0 <= start -> slice start s = dropChars (Z.to_nat start) s.
Proof.
  intros Hs. unfold slice. destruct (Z.ltb_spec start 0); [lia |].
  destruct (Z.le_gt_cases start (Z.of_nat (String.length s))).
  - rewrite Z.min_l by lia. reflexivity.
  - rewrite Z.min_r by lia. rewrite Nat2Z.id.
    rewrite !dropChars_all by lia. reflexivity.
Qed.

Lemma lastIndexOf_bounds c s :
  -1 <= lastIndexOf c s < Z.of_nat (String.length s) \/
  (s = "" /\ lastIndexOf c s = -1).
Proof.
  induction s as [| a s IH]; [right; auto |]. left. cbn [lastIndexOf String.length].
  destruct IH as [IH | [-> ->]].
  - destruct (Z.eqb_spec (lastIndexOf c s) (-1)); [destruct (Ascii.eqb a c) |]; lia.
  - cbn. destruct (Ascii.eqb a c); cbn; lia.
Qed.

Lemma lastIndexOf_lower c s : -1 <= lastIndexOf c s.
Proof. destruct (lastIndexOf_bounds c s) as [? | [_ ->]]; lia. Qed.

(** What follows the last [c] of a string holds no [c]. *)
Lemma lastIndexOf_segment c s :
  lastIndexOf c (slice (lastIndexOf c s + 1) s) = -1.
Proof.
  pose proof (lastIndexOf_lower c s) as Hlow.
  rewrite slice_from by lia.
  induction s as [| a s IH]; [reflexivity |].
  pose proof (lastIndexOf_lower c s) as Hlow'.
  cbn [lastIndexOf] in *.
  destruct (Z.eqb_spec (lastIndexOf c s) (-1)) as [Hnone | Hsome].
  - destruct (Ascii.eqb a c) eqn:Hac.
    + cbn. exact Hnone.
    + cbn. rewrite Hnone, Hac. reflexivity.
  - replace (Z.to_nat (lastIndexOf c s + 1 + 1))
      with (S (Z.to_nat (lastIndexOf c s + 1))) by lia.
    cbn [dropChars]. apply IH. lia.
Qed.

Lemma dropChars_app a b n :
  dropChars (String.length a + n) (a ++ b) = dropChars n b.
Proof. induction a as [| x a IH]; [reflexivity | exact IH]. Qed.

(** The part after the last [c] of ["..." ++ c ++ s] is that of [s]. *)
Lemma segment_after c a s :
  slice (lastIndexOf c (a ++ String c s) + 1) (a ++ String c s)
  = slice (lastIndexOf c s + 1) s.
Proof.
  pose proof (lastIndexOf_lower c s) as Hs.
  assert (Hin : lastIndexOf c (String c s) = lastIndexOf c s + 1).
  { cbn [lastIndexOf]. rewrite Ascii.eqb_refl.
    destruct (Z.eqb_spec (lastIndexOf c s) (-1)); lia. }
  assert (Happ : lastIndexOf c (a ++ String c s)
                 = Z.of_nat (String.length a) + (lastIndexOf c s + 1)).
  { induction a as [| x a IH]; [exact Hin |].
    cbn [append lastIndexOf String.length]. rewrite IH.
    destruct (Z.eqb_spec (Z.of_nat (String.length a) + (lastIndexOf c s + 1)) (-1));
      lia. }
  rewrite Happ, !slice_from by lia.
  replace (Z.to_nat (Z.of_nat (String.length a) + (lastIndexOf c s + 1) + 1))
    with (String.length a + S (Z.to_nat (lastIndexOf c s + 1)))%nat by lia.
  rewrite dropChars_app. reflexivity.
Qed.

Lemma append_associative (a b c : string) :
  ((a ++ b) ++ c = a ++ (b ++ c))%string.
Proof. induction a as [| x a IH]; [reflexivity | cbn; rewrite IH; reflexivity]. Qed.

Section MoreFiles.

Context {Polling WebHook : Type} {L : Library}.

Implicit Types (this : @Bot Polling WebHook).

(** [downloadFile] stores the file in the directory given, under a name
    that holds no slash: the part of [file_path] after its last slash, so
    that the directories named in [file_path] are dropped. *)
Theorem download_is_named_after_the_last_segment (post : Network) this
  fileId downloadDir :
  (forall settled,
     downloadFile post this fileId downloadDir = inr settled ->
     exists name,
       settled = JStr (downloadDir ++ "/" ++ name)%string
       /\ lastIndexOf "/" name = -1)
  /\ (forall resp file_path,
        getFile post this fileId = inr resp ->
        member resp "file_path" = JStr file_path ->
        downloadFile post this fileId downloadDir =
        inr (JStr (downloadDir ++ "/"
                   ++ slice (lastIndexOf "/" file_path + 1) file_path)%string)).
Proof.
  split.
  - intros settled. unfold downloadFile.
    destruct (getFileLink post this fileId) as [failure | fileURI];
      [discriminate |].
    intros [= <-]. eexists. split; [reflexivity |]. apply lastIndexOf_segment.
  - intros resp file_path Hfile Hpath. unfold downloadFile, getFileLink.
    rewrite Hfile.
    assert (Hn : nullish resp = false).
    { destruct resp; try discriminate; reflexivity. }
    rewrite Hn, Hpath. cbn [toStr].
    set (base := toStr (baseApiUrl (options this))).
    assert (Huri : (base ++ "/file/bot" ++ token this ++ "/" ++ file_path)%string
                   = ((base ++ "/file/bot" ++ token this)
                      ++ String "/" file_path)%string).
    { rewrite !append_associative. reflexivity. }
    rewrite Huri, segment_after. reflexivity.
Qed.

(** When the data cannot be formatted -- a [Buffer] of a type that
    [fileType] does not know, a stream without a path, [undefined] --
    [sendPhoto] and its like settle with what [_formatSendData] throws,
    and post nothing. *)
Theorem unformattable_data_is_not_posted (post : Network)
  (existsSync : FileSystem) this method type chatId data options0 :
  (forall failure,
     _formatSendData existsSync this type data = inl failure ->
     sendFile post existsSync this method type chatId data options0
     = inl failure)
  /\ (forall bytes,
        data = DataBuffer bytes -> fileType bytes = None ->
        sendFile post existsSync this method type chatId data options0
        = inl (Replies.Fatal
                 (Errors.mkBaseError "EFATAL"
                    "EFATAL: Unsupported Buffer file type" None)))
  /\ (data = DataStream JUndefined \/ data = DataValue JUndefined ->
      exists thrown,
        sendFile post existsSync this method type chatId data options0
        = inl (Replies.Thrown thrown)).
Proof.
  split; [| split].
  - intros failure Hf. unfold sendFile. rewrite Hf. reflexivity.
  - intros bytes -> Hb. unfold sendFile, _formatSendData. rewrite Hb. reflexivity.
  - intros [-> | ->]; eexists; reflexivity.
Qed.

(** A string handed over as data is a file id or a path.  With the
    option [filepath] off it is always sent as a file id, and the file
    system is not looked at.  With [filepath] on, it is uploaded, under
    its base name, when it names a file that exists, and sent as a file
    id otherwise. *)
Theorem strings_are_paths_only_if_allowed (existsSync : FileSystem) this
  type s :
  (truthy (filepath (options this)) = false ->
   _formatSendData existsSync this type (DataValue (JStr s))
   = inr (None, JStr s))
  /\ (truthy (filepath (options this)) = true -> existsSync s = false ->
      _formatSendData existsSync this type (DataValue (JStr s))
      = inr (None, JStr s))
  /\ (truthy (filepath (options this)) = true -> existsSync s = true ->
      _formatSendData existsSync this type (DataValue (JStr s))
      = inr (Some [(type,
                    mkFilePart (DataStream (JStr s))
                      [("filename", JStr (basename s));
                       ("contentType", mimeLookup (basename s))])],
             JUndefined)).
Proof.
  unfold _formatSendData. cbn [nullish].
  repeat split; intros; repeat match goal with
                               | H : _ = _ |- _ => rewrite H
                               end; reflexivity.
Qed.

(** [_formatSendData] returns form data or a file id, never both: a file
    id is the data itself, which is then neither a stream nor a buffer,
    and form data has the one part named by [type]. *)
Theorem formatted_data_is_a_file_or_an_id (existsSync : FileSystem) this
  type data formData fileId :
  _formatSendData existsSync this type data = inr (formData, fileId) ->
  (formData = None /\ data = DataValue fileId /\ nullish fileId = false)
  \/ (exists part, formData = Some [(type, part)] /\ fileId = JUndefined).
Proof.
  unfold _formatSendData. destruct data as [p | bytes | v].
  - destruct (nullish p); [discriminate |]. intros [= <- <-]. right. eauto.
  - destruct (fileType bytes) as [[ext mime] |]; [| discriminate].
    intros [= <- <-]. right. eauto.
  - destruct (nullish v) eqn:Hv; [discriminate |].
    destruct (match v with JObj props => hasKey "path" props | _ => false end).
    { destruct (nullish (member v "path")); [discriminate |].
      intros [= <- <-]. right. eauto. }
    destruct (negb (truthy (filepath (options this)))).
    { intros [= <- <-]. left. auto. }
    destruct v; try (intros [= <- <-]; left; auto).
    destruct (existsSync s); intros [= <- <-]; [right; eauto | left; auto].
Qed.

End MoreFiles.

Section MoreWrappers.

Context {Polling WebHook : Type} {L : Library}.

Implicit Types (this : @Bot Polling WebHook).

(** [sendMessage] posts its options as the content, with the chat id and
    the text given as arguments in place of those of the options, with
    [reply_markup] fixed, and with every other option as given. *)
Theorem sendMessage_arguments_come_first (post : Network) this
  chatId text options0 :
  token this <> "" ->
  exists posted content,
    sendMessage post this chatId text options0
    = settle (post (_buildURL this "sendMessage") posted content)
    /\ getProp "chat_id" content = Some chatId
    /\ getProp "text" content = Some text
    /\ getProp "reply_markup" content
       = Some (_fixReplyMarkup (lookup "reply_markup" options0))
    /\ forall k, k <> "chat_id" -> k <> "text" -> k <> "reply_markup" ->
                 getProp k content = getProp k options0.
Proof.
  intros Htoken. unfold sendMessage, _request, requestArguments.
  destruct (String.eqb_spec (token this) ""); [contradiction |].
  eexists. eexists. split; [reflexivity |].
  repeat split.
  - rewrite getProp_setProp_other, getProp_setProp_other, getProp_setProp_same
      by discriminate. reflexivity.
  - rewrite getProp_setProp_other, getProp_setProp_same by discriminate.
    reflexivity.
  - rewrite getProp_setProp_same. do 2 f_equal.
    rewrite !lookup_getProp, !getProp_setProp_other by discriminate.
    reflexivity.
  - intros k Hc Ht Hr. rewrite !getProp_setProp_other by assumption.
    reflexivity.
Qed.

(** [forwardMessage] posts its form with the three ids given as
    arguments in place of those of the form, and with every other field
    as given: the form does not go through [_fixReplyMarkup], so that a
    [reply_markup] which is an object is posted as the object. *)
Theorem forwardMessage_posts_the_form_as_given (post : Network) this
  chatId fromChatId messageId0 form :
  token this <> "" ->
  truthy (request (options this)) = false ->
  exists form1,
    forwardMessage post this chatId fromChatId messageId0 form
    = settle (post (_buildURL this "forwardMessage")
                [("form", Plain (JObj form1)); ("forever", Plain (JBool true))]
                [("reply_markup", JUndefined)])
    /\ getProp "chat_id" form1 = Some chatId
    /\ getProp "from_chat_id" form1 = Some fromChatId
    /\ getProp "message_id" form1 = Some messageId0
    /\ forall k, k <> "chat_id" -> k <> "from_chat_id" -> k <> "message_id" ->
                 getProp k form1 = getProp k form.
Proof.
  intros Htoken Hreq. unfold forwardMessage, _request, requestArguments.
  destruct (String.eqb_spec (token this) ""); [contradiction |].
  rewrite Hreq. eexists. split; [reflexivity |].
  repeat split.
  - rewrite getProp_setProp_other, getProp_setProp_other, getProp_setProp_same
      by discriminate. reflexivity.
  - rewrite getProp_setProp_other, getProp_setProp_same by discriminate.
    reflexivity.
  - apply getProp_setProp_same.
  - intros k Hc Hf Hm. rewrite !getProp_setProp_other by assumption.
    reflexivity.
Qed.

End MoreWrappers.

(** ** The further properties on concrete bots *)

(** "hello" to a bot with two matchers: "message" and "text" come first. *)
Lemma message_dispatch_in_stages_witness :
  exists matching replies,
    trace (run calm (processUpdate Sample.helloUpdate)
               (Sample.twoMatchers JUndefined) [])
    = [Emit "message" Sample.hello; Emit "text" Sample.hello]
      ++ matching ++ replies
    /\ forallb isMatching matching = true
    /\ forallb isReplyCallback replies = true.
Proof.
  exact (message_dispatch_in_stages (Sample.twoMatchers JUndefined) []
           Sample.helloUpdate quiet_calm eq_refl).
Defined.


(** The reply [answer] has no text; "hello" replies to nothing. *)
Lemma absent_fields_skip_stages_witness :
  filter isMatching
    (trace (run Sample.firstThrows (processUpdate Sample.answerUpdate)
                (Sample.twoMatchers JUndefined) [])) = []
  /\ filter isReplyCallback
       (trace (run Sample.firstThrows (processUpdate Sample.helloUpdate)
                   Sample.twoListeners [])) = [].
Proof.
  split.
  - exact (proj2 (proj1 (absent_fields_skip_stages Sample.firstThrows
                           (Sample.twoMatchers JUndefined) []
                           Sample.answerUpdate eq_refl) eq_refl)).
  - exact (proj2 (absent_fields_skip_stages Sample.firstThrows
                    Sample.twoListeners [] Sample.helloUpdate eq_refl) eq_refl).
Defined.


Lemma update_that_is_no_object_witness :
  run calm (processUpdate JUndefined) (Sample.fresh JUndefined) []
  = mkOutcome (Sample.fresh JUndefined) [] (Abrupt (TypeError "message"))
  /\ run calm (processUpdate (JNum 3)) (Sample.fresh JUndefined) []
     = mkOutcome (Sample.fresh JUndefined) [] (Normal tt).
Proof.
  split.
  - exact (proj1 (update_that_is_no_object calm (Sample.fresh JUndefined) []
                    JUndefined) eq_refl).
  - exact (proj2 (update_that_is_no_object calm (Sample.fresh JUndefined) []
                    (JNum 3)) eq_refl eq_refl).
Defined.

(** The second delivery of "hello" emits "message" and "text" again,
    although the expressions of the table are spent by then. *)
Lemma redelivery_dispatches_again_witness :
  filter isEmit
    (trace (live calm Sample.advancing
              (processUpdate Sample.helloUpdate ;;
               processUpdate Sample.helloUpdate)
              (Sample.twoMatchers JUndefined) []))
  = [Emit "message" Sample.hello; Emit "text" Sample.hello;
     Emit "message" Sample.hello; Emit "text" Sample.hello].
Proof.
  exact (proj2 (redelivery_dispatches_again Sample.advancing
                  (Sample.twoMatchers JUndefined) [] Sample.helloUpdate
                  quiet_calm) eq_refl).
Defined.

(** A stopped engine is started again, not replaced. *)
Lemma transports_are_built_once_witness :
  let this : Sample.FlagBot :=
    mkBot "t" (Sample.options0 JUndefined) [] [] 0 (Some false) None in
  run calm (startPolling (mkStartOptions (Some false))) this []
  = mkOutcome (set_polling (Some true) this) [] (Normal (FromTransport tt)).
Proof.
  exact (proj1 (transports_are_built_once calm
                  (mkBot "t" (Sample.options0 JUndefined) [] [] 0 (Some false) None)
                  []) (mkStartOptions (Some false)) eq_refl).
Defined.

Lemma lifecycle_writes_its_engine_only_witness :
  _replyListeners (final (run calm (invoke OpenWebHook) Sample.twoListeners []))
  = _replyListeners Sample.twoListeners.
Proof.
  exact (proj1 (proj2 (proj2 (proj2
           (lifecycle_writes_its_engine_only calm Sample.twoListeners []
              OpenWebHook eq_refl))))).
Defined.

Lemma twoMatchers_reached :
  Reaches (Sample.fresh JUndefined) (Sample.twoMatchers JUndefined).
Proof.
  exact (Reaches_next calm (OnText Sample.reH 2%nat) []
           (Reaches_next calm (OnText Sample.reHello 1%nat) []
              (Reaches_here (Sample.fresh JUndefined)))).
Defined.

Lemma token_and_options_are_fixed_witness :
  token (Sample.twoMatchers JUndefined) = "t"
  /\ options (Sample.twoMatchers JUndefined) = options (Sample.fresh JUndefined).
Proof. exact (token_and_options_are_fixed twoMatchers_reached). Defined.

Lemma matchers_are_only_appended_witness :
  exists added,
    _textRegexpCallbacks (Sample.twoMatchers JUndefined) = [] ++ added.
Proof. exact (matchers_are_only_appended twoMatchers_reached). Defined.

Lemma twoListeners_reachable : Reachable Sample.twoListeners.
Proof.
  exact (Reachable_step calm (OnReplyToMessage (JNum 1) (JNum 5) 2%nat) []
           (Reachable_step calm (OnReplyToMessage (JNum 1) (JNum 5) 1%nat) []
              (Reachable_new calm "t" (Sample.options0 JUndefined)
                 (mkBot "" (Sample.options0 JUndefined) [] [] 0 None None) []
                 eq_refl))).
Defined.

(** After the listener 2 has been removed, the next id is 3, not 2. *)
Lemma reply_ids_are_never_reused_witness :
  exists i,
    completion
      (run calm (onReplyToMessage (JNum 1) (JNum 6) 3%nat)
           (Sample.after [RemoveReplyListener 2] Sample.twoListeners) [])
    = Normal i
    /\ 2 < i.
Proof.
  exact (reply_ids_are_never_reused calm []
           (mkReplyListener 2 (JNum 1) (JNum 5) 2%nat) (JNum 1) (JNum 6) 3%nat
           twoListeners_reachable (or_intror (or_introl eq_refl))
           (Reaches_next calm (RemoveReplyListener 2) []
              (Reaches_here Sample.twoListeners))).
Defined.

Lemma register_then_remove_witness :
  run calm (i <- onReplyToMessage (JNum 1) (JNum 6) 3%nat ;;
            removeReplyListener i) Sample.twoListeners []
  = mkOutcome (set_replyListenerId 3 Sample.twoListeners) []
      (Normal (Some (mkReplyListener 3 (JNum 1) (JNum 6) 3%nat))).
Proof.
  exact (register_then_remove calm [] (JNum 1) (JNum 6) 3%nat
           twoListeners_reachable).
Defined.

Lemma registrar_addsOnly : addsOnly Sample.registrar.
Proof.
  intros h c s.
  destruct c as [event payload | | |];
    try (exists []; symmetry; apply app_nil_r).
  unfold Sample.registrar.
  destruct (event =? "message")%string;
    [| exists []; symmetry; apply app_nil_r].
  eexists. reflexivity.
Qed.

Lemma removed_listener_no_longer_fires_witness :
  exists before after,
    _replyListeners Sample.twoListeners
    = before ++ mkReplyListener 1 (JNum 1) (JNum 5) 1%nat :: after
    /\ ~ In (mkReplyListener 1 (JNum 1) (JNum 5) 1%nat) (before ++ after)
    /\ let r := live calm Sample.registrar
                  (removeReplyListener 1 ;; processUpdate Sample.answerUpdate)
                  Sample.twoListeners [] in
       let pre := filter isOther (trace r) in
       let table :=
         _replyListeners
           (touched Sample.registrar [] pre
                    (set_replyListeners (before ++ after) Sample.twoListeners)) in
       trace r =
         pre ++ map (fun reply => ReplyCallback (callback reply) Sample.answer)
                    (filter (awaits Sample.answer) table)
       /\ (exists added, table = (before ++ after) ++ added)
       /\ completion r = Normal tt.
Proof.
  exact (removed_listener_no_longer_fires [] Sample.answerUpdate
           (mkReplyListener 1 (JNum 1) (JNum 5) 1%nat)
           twoListeners_reachable (or_introl eq_refl) quiet_calm
           registrar_addsOnly eq_refl eq_refl eq_refl).
Defined.

Lemma engines_are_never_dropped_witness :
  exists p',
    _polling (Sample.after [StartPolling (mkStartOptions None); StopPolling;
                            StartPolling (mkStartOptions (Some false))]
                           (Sample.fresh JUndefined)) = Some p'
    /\ PollingSteps (T := Sample.flags) true p'.
Proof.
  exact (proj1 (engines_are_never_dropped
                  (Reaches_next calm (StartPolling (mkStartOptions (Some false))) []
                     (Reaches_next calm StopPolling []
                        (Reaches_here
                           (Sample.after [StartPolling (mkStartOptions None)]
                                         (Sample.fresh JUndefined))))))
           true eq_refl).
Defined.

Lemma options_are_filled_in_witness :
  truthy (baseApiUrl (options Sample.twoListeners)) = true
  /\ typeof_undefined (filepath (options Sample.twoListeners)) = false.
Proof. exact (options_are_filled_in twoListeners_reachable). Defined.

(** [new TelegramBot("t", {webHook: {}})] throws. *)
Lemma constructor_needs_both_transport_options_witness :
  completion
    (run calm
       (constructor "t"
          (mkOptions (JObj []) JUndefined JUndefined JUndefined JUndefined
                     JUndefined))
       (Desk.bot "" JUndefined JUndefined) [])
  = Abrupt (TypeError "autoStart").
Proof.
  exact (f_equal (@completion _ _)
           (proj1 (constructor_needs_both_transport_options calm "t"
                     (mkOptions (JObj []) JUndefined JUndefined JUndefined
                                JUndefined JUndefined)
                     (Desk.bot "" JUndefined JUndefined) [])
              eq_refl)).
Defined.

(** [new TelegramBot("t", {polling: false, webHook: false})] starts
    polling; the webhook is then not opened, as the engine polls. *)
Lemma constructor_starts_by_autoStart_witness :
  final (run calm (constructor "t" Desk.off) (Desk.bot "" JUndefined JUndefined) [])
  = mkBot "t" (normalised Desk.off) [] [] 0 (Some true) None.
Proof.
  exact (f_equal (@final _ _)
           (constructor_starts_by_autoStart calm "t" Desk.off
              (Desk.bot "" JUndefined JUndefined) [] eq_refl eq_refl)).
Defined.

(** A markup is wrapped once; a string is left alone. *)
Lemma reply_markup_is_serialised_once_witness :
  @_fixReplyMarkup Desk.shelf (JStr "{}") = JStr "{}"
  /\ @_fixReplyMarkup Desk.shelf
       (@_fixReplyMarkup Desk.shelf (JObj [("force_reply", JBool true)]))
     = @_fixReplyMarkup Desk.shelf (JObj [("force_reply", JBool true)]).
Proof.
  assert (Hjson : forall v, truthy v = true -> isString v = false ->
                    isString (@stringify Desk.shelf v) = true).
  { intros v Ht _. destruct v; try discriminate Ht; reflexivity. }
  split.
  - exact (proj1 (@reply_markup_is_serialised_once Desk.shelf (JStr "{}") Hjson)
             (or_introl eq_refl)).
  - exact (proj2 (proj2 (@reply_markup_is_serialised_once Desk.shelf
                           (JObj [("force_reply", JBool true)]) Hjson))).
Defined.

Lemma nothing_is_posted_without_token_witness :
  @sendMessage _ _ Desk.shelf (Desk.answers "OK:a")
    (Desk.bot "" JUndefined JUndefined) (JNum 1) (JStr "hi") []
  = inl (Replies.Fatal
           (Errors.mkBaseError "EFATAL"
              "EFATAL: Telegram Bot Token not provided!" None)).
Proof.
  exact (proj1 (proj2 (@nothing_is_posted_without_token _ _ Desk.shelf
                         (Desk.answers "OK:a")
                         (Desk.bot "" JUndefined JUndefined) eq_refl))
           (JNum 1) (JStr "hi") []).
Defined.

(** The bot sets [proxy] and [forever: false] for every request; the
    call sets [proxy] and [timeout]. *)
Lemma request_options_precedence_witness :
  let this :=
    Desk.bot "t" (JObj [("proxy", JStr "p"); ("forever", JBool false)])
             JUndefined in
  let posted :=
    snd (fst (@requestArguments _ _ Desk.shelf this "getMe"
                [("proxy", Plain (JStr "q")); ("timeout", Plain (JNum 5))] [])) in
  getProp "forever" posted = Some (Plain (JBool true))
  /\ getProp "proxy" posted = Some (Plain (JStr "p"))
  /\ getProp "timeout" posted = Some (Plain (JNum 5)).
Proof.
  intros this posted.
  destruct (@request_options_precedence _ _ Desk.shelf this "getMe"
              [("proxy", Plain (JStr "q")); ("timeout", Plain (JNum 5))] [])
    as (Hforever & Hbot & Hcall).
  split; [exact Hforever | split].
  - apply (Hbot [("proxy", JStr "p"); ("forever", JBool false)] "proxy" (JStr "p")).
    + reflexivity.
    + repeat constructor; simpl; intuition discriminate.
    + left. reflexivity.
    + discriminate.
  - apply (Hcall "timeout").
    + discriminate.
    + intros _ [H | [H | []]]; discriminate H.
Defined.

Lemma request_settles_by_the_reply_witness :
  @_request _ _ Desk.shelf (Desk.answers "ERR")
    (Desk.bot "t" JUndefined JUndefined) "getMe" [] []
  = inl (Replies.Telegram
           (Replies.mkResponseError
              (Errors.mkBaseError "ETELEGRAM" "ETELEGRAM: 400 Bad Request" None)
              (Some (Replies.mkResponse 200 "ERR")))).
Proof.
  exact (proj1 (proj2 (proj2 (proj2
           (@request_settles_by_the_reply _ _ Desk.shelf (Desk.answers "ERR")
              (Desk.bot "t" JUndefined JUndefined) "getMe" [] []
              (inr (Replies.mkResponse 200 "ERR"))
              ltac:(discriminate) (fun _ _ _ => eq_refl)))
           (Replies.mkResponse 200 "ERR") _ eq_refl eq_refl))
           eq_refl eq_refl).
Defined.

(** The file [photos/cat.jpg] is stored as [/tmp/cat.jpg]. *)
Lemma download_is_named_after_the_last_segment_witness :
  @downloadFile _ _ Desk.shelf (Desk.answers "OK:photos/cat.jpg")
    (Desk.bot "t" JUndefined JUndefined) (JStr "id") "/tmp"
  = inr (JStr "/tmp/cat.jpg").
Proof.
  exact (proj2 (@download_is_named_after_the_last_segment _ _ Desk.shelf
                  (Desk.answers "OK:photos/cat.jpg")
                  (Desk.bot "t" JUndefined JUndefined) (JStr "id") "/tmp")
           (JObj [("file_path", JStr "photos/cat.jpg")]) "photos/cat.jpg"
           eq_refl eq_refl).
Defined.

Lemma unformattable_data_is_not_posted_witness :
  @sendPhoto _ _ Desk.shelf (Desk.answers "OK:a") Desk.disk
    (Desk.bot "t" JUndefined (JBool true)) (JNum 1) (DataBuffer "GIF89a") []
  = inl (Replies.Fatal
           (Errors.mkBaseError "EFATAL"
              "EFATAL: Unsupported Buffer file type" None)).
Proof.
  exact (proj1 (proj2 (@unformattable_data_is_not_posted _ _ Desk.shelf
                         (Desk.answers "OK:a") Desk.disk
                         (Desk.bot "t" JUndefined (JBool true))
                         "sendPhoto" "photo" (JNum 1) (DataBuffer "GIF89a") []))
           "GIF89a" eq_refl eq_refl).
Defined.

(** The same string is a file id for the bot with [filepath: false] and
    an upload for the bot with [filepath: true]. *)
Lemma strings_are_paths_only_if_allowed_witness :
  @_formatSendData _ _ Desk.shelf Desk.disk
    (Desk.bot "t" JUndefined (JBool false)) "photo" (DataValue (JStr "/tmp/cat.jpg"))
  = inr (None, JStr "/tmp/cat.jpg")
  /\ @_formatSendData _ _ Desk.shelf Desk.disk
       (Desk.bot "t" JUndefined (JBool true)) "photo"
       (DataValue (JStr "/tmp/cat.jpg"))
     = inr (Some [("photo",
                   mkFilePart (DataStream (JStr "/tmp/cat.jpg"))
                     [("filename", JStr "cat.jpg");
                      ("contentType", JBool false)])],
            JUndefined).
Proof.
  split.
  - exact (proj1 (@strings_are_paths_only_if_allowed _ _ Desk.shelf Desk.disk
                    (Desk.bot "t" JUndefined (JBool false)) "photo"
                    "/tmp/cat.jpg") eq_refl).
  - exact (proj2 (proj2 (@strings_are_paths_only_if_allowed _ _ Desk.shelf
                           Desk.disk (Desk.bot "t" JUndefined (JBool true))
                           "photo" "/tmp/cat.jpg")) eq_refl eq_refl).
Defined.

Lemma formatted_data_is_a_file_or_an_id_witness :
  (@None FormData = None /\ DataValue (JStr "AgAD") = DataValue (JStr "AgAD")
   /\ nullish (JStr "AgAD") = false)
  \/ (exists part,
        @None FormData = Some [("photo", part)]
        /\ JStr "AgAD" = JUndefined).
Proof.
  exact (@formatted_data_is_a_file_or_an_id _ _ Desk.shelf Desk.disk
           (Desk.bot "t" JUndefined (JBool true)) "photo"
           (DataValue (JStr "AgAD")) None (JStr "AgAD") eq_refl).
Defined.

Lemma sendMessage_arguments_come_first_witness :
  exists posted content,
    @sendMessage _ _ Desk.shelf Desk.down (Desk.bot "t" JUndefined JUndefined)
      (JNum 1) (JStr "hi") [("chat_id", JNum 2); ("parse_mode", JStr "HTML")]
    = @settle Desk.shelf
        (Desk.down "https://api.telegram.org/bott/sendMessage" posted content)
    /\ getProp "chat_id" content = Some (JNum 1)
    /\ getProp "text" content = Some (JStr "hi")
    /\ getProp "reply_markup" content = Some JUndefined
    /\ forall k, k <> "chat_id" -> k <> "text" -> k <> "reply_markup" ->
                 getProp k content
                 = getProp k [("chat_id", JNum 2); ("parse_mode", JStr "HTML")].
Proof.
  exact (@sendMessage_arguments_come_first _ _ Desk.shelf Desk.down
           (Desk.bot "t" JUndefined JUndefined) (JNum 1) (JStr "hi")
           [("chat_id", JNum 2); ("parse_mode", JStr "HTML")]
           ltac:(discriminate)).
Defined.

Lemma forwardMessage_posts_the_form_as_given_witness :
  exists form1,
    @forwardMessage _ _ Desk.shelf Desk.down (Desk.bot "t" JUndefined JUndefined)
      (JNum 1) (JNum 2) (JNum 3)
      [("reply_markup", JObj [("force_reply", JBool true)])]
    = @settle Desk.shelf
        (Desk.down "https://api.telegram.org/bott/forwardMessage"
           [("form", Plain (JObj form1)); ("forever", Plain (JBool true))]
           [("reply_markup", JUndefined)])
    /\ getProp "chat_id" form1 = Some (JNum 1)
    /\ getProp "from_chat_id" form1 = Some (JNum 2)
    /\ getProp "message_id" form1 = Some (JNum 3)
    /\ forall k, k <> "chat_id" -> k <> "from_chat_id" -> k <> "message_id" ->
                 getProp k form1
                 = getProp k [("reply_markup", JObj [("force_reply", JBool true)])].
Proof.
  exact (@forwardMessage_posts_the_form_as_given _ _ Desk.shelf Desk.down
           (Desk.bot "t" JUndefined JUndefined) (JNum 1) (JNum 2) (JNum 3)
           [("reply_markup", JObj [("force_reply", JBool true)])]
           ltac:(discriminate) eq_refl).
Defined.
